(* ===== verification/_CoqProject ===== *)
-Q . S2P
Prelude.v
Js.v
Backend.v
Store.v
Registry.v
Probe.v
Proxy.v
Json.v
Persist.v
Api.v
Machine.v
Router.v
