(* ===== verification/Prelude.v ===== *)
(** * Verification of the backend connection manager of yuwen001

    The program.  The repository's only stateful code is the Pinia store
    [src/page/src/stores/backend.js] ([useBackendStore]).  It keeps
    - [backends]: a reactive array of backend instance objects
      ([id], [name], [baseUrl], [password], [isActive], [isConnected],
      [lastConnected], [description]); the first one is the built-in
      ["local"] instance pointing at [window.location.origin];
    - [activeBackendId]: the id of the instance proxied requests target;
    - two computed views, [activeBackend] (the first instance whose id is
      [activeBackendId]) and [connectedBackendsCount].
    Its operations are the registry ([addBackend], [removeBackend],
    [updateBackend]), the active selector ([switchBackend]), the probe
    ([testBackendConnection], [testAllConnections]), the request proxy
    ([buildApiUrl], [getAuthHeaders], [apiRequest]) and the persistence
    adapter ([saveToStorage], [loadFromStorage], [resetToDefault]).  The
    router [src/page/src/router/index.js] is a declarative route table.

    How the development models it (files in dependency order).
    - [Prelude] (this file): the library root.  The result monad
      [result E A] ([Ok] or [Throw]) for code that throws, with [MRet],
      [MBind] and [FMap] instances; the scope [backend_scope]; the hint
      databases [backend] and [backend_rw]; the generic lemmas on lists
      ([list_find], [filter], [omap], [delete], folds over permutations)
      and strings the components share.
    - [Js]: the JavaScript semantics the store relies on: the exceptions
      it throws ([Exn], one constructor per [throw] site), [x || d] on
      optional strings, template literals of [undefined], the two regular
      expression replacements of [buildApiUrl], plain objects used as
      header maps (insertion-ordered association lists with JS's
      overwrite-in-place [set] and object spread), and [fetch] outcomes
      ([Response] with [ok] iff 200 <= status <= 299, or a rejection).
    - [Backend]: the instance record, the descriptor [addBackend]
      accepts, the patch [updateBackend] hands to [Object.assign], and
      the field writes of the other operations.
    - [Store]: the store's state ([State]) as a heap of objects
      ([gmap loc Backend]), the array [backends : list loc] of
      references, [activeBackendId] and the next free location.  Objects
      are shared by reference as in the source.  One definition per store
      function ([addBackend], [removeBackend], [updateBackend],
      [switchBackend], the computed [activeBackend] and
      [connectedBackendsCount]), each with its guards and early returns;
      well-formedness of the heap ([wf]), the registry invariant
      ([registry_inv]) and its preservation; sequences of operations
      ([RegOp], [run_ops]); a coarser equivalence ([≃]) with [Proper]
      instances for the views.
    - [Registry]: the list-level contract [ListRegistry] (the objects in
      array order and the active id, the operations by index) and the
      refinement theorem: on well-formed states every operation of
      [Store] commutes with the abstraction [abs].
    - [Probe]: [testBackendConnection] split at its [await] into
      [probe_begin] (lookup, request, captured reference) and
      [probe_finish] (writes through the reference);
      [testAllConnections] as the synchronous starts, a schedule of
      [ProbeEvent]s (a probe settles, or a registry operation runs) in
      any order, and the tagging by index once every probe has settled.
    - [Proxy]: [buildApiUrl], [getAuthHeaders] and [apiRequest] split at
      its [await], with registry operations allowed in between; the
      continuation re-reads [activeBackend] as the source does.
    - [Json]: JSON values, the class [JsonCodec] (stringify; parse,
      with three outcomes: a value, a [SyntaxError], or a JSON document
      whose value the model cannot hold; the round-trip law), and the
      instance [json_text]: a printer and a recursive-descent parser
      whose fuel is the length of the text plus one, enough because a
      value's size is at most the length of its text ([jsize_print]),
      with a recognizer of the full JSON grammar ([json_valid]) telling
      the last two outcomes apart.
    - [Persist]: [localStorage] as a [gmap string string];
      [saveToStorage], [loadFromStorage] with every branch of its [try]
      (missing or empty text, [JSON.parse] failure, [data] of each JSON
      kind, the [TypeError] of [some] on a [null] entry, the synthesized
      local instance, adoption as fresh objects, the [activeBackendId]
      write before [switchBackend]), [resetToDefault] and the store's
      setup [useBackendStore]; stated against any [JsonCodec].
    - [Api]: the object [useBackendStore] returns (lines 259-276): one
      [Call] per member, run by [call] on the store's state and
      [localStorage] ([World]) with what the member returns or throws
      ([Reply]); [run_calls] for a view calling members in sequence.
    - [Machine]: the store as a step relation: registry operations,
      probe and request completions (the continuations after [await])
      and resets as steps in any interleaving, and the states reachable
      from the setup.
    - [Router]: the route table of [src/page/src/router/index.js] and a
      resolution of paths with vue-router's default matching.

    What the theorems show.
    - Store (C1-C9): the registry invariant holds in every state reached
      by the operations (patches that do not name [id] or [isActive]);
      the functional behaviour of each operation on every branch, errors
      included; and the places where the code departs from the spec:
      removing the active instance leaves nothing flagged active (C5),
      two adds in one millisecond duplicate an id (C7), and any patch
      naming another [id] for the local instance breaks the invariant
      (C9).
    - Probe (C10-C15): [testAllConnections] returns one tagged result per
      instance for every completion order, is independent of that order
      when ids are unique, never updates an instance preceded by another
      with the same id (C12), and rejects if the array shrank meanwhile;
      [testBackendConnection] on every outcome; with unique ids every
      instance ends with its own probe's verdict, so
      [connectedBackendsCount] counts the 2xx probes (C15).
    - Proxy (C16-C22): URL normalisation, the error paths, headers, the
      outcome of [apiRequest], and the race when the selection moves to
      another instance during a request (C22).
    - Registry (C23): refinement of the list-level contract.
    - Persist (C24-C30): the save/load round trip, the repair of a
      missing local instance without duplication, a stale persisted
      active id, unparsable text, stored [isActive] flags adopted as they
      are (C28), [resetToDefault], and a [null] entry ahead of any local
      instance swallowed by the [catch] with the whole document (C30).
    - Router (C31-C32): every path resolves to a view; which paths reach
      the instance view.
    - Machine (C33): by rule induction, the registry invariant and "at
      most one instance flagged active" hold in every reachable state,
      whatever the interleaving of operations and completions.
    - Probe, liveness (C34): under well-formedness the promise of
      [testAllConnections] settles exactly when every instance's probe
      has settled, whatever operations interleave.
    - Router, termination (C35): no redirect cycle; any fuel from 2 on
      gives the same, defined, route.
    - [Api] proves that every member of the store object keeps the heap
      model well formed ([call_preserves_wf]), a lemma the components
      share rather than a claim.

    Modelling choices and bounds.
    - JS strings are [string] (UTF-8 bytes; the source's Chinese
      messages are kept verbatim); [Date.now()] is a parameter [now : N]
      of [addBackend]; [new Date().toISOString()] is a parameter
      [stamp : string] of the operations that record a connection time;
      [window.location.origin] is a parameter [origin : string].
    - A field that may be [undefined] or [null] is an [option]: the
      [baseUrl] of an instance added without one, [lastConnected].
    - An [await] splits an async function into two definitions; what
      may run in between is an explicit list of operations or events.
    - Fuel: the JSON parser gets the text's length plus one; [resolve]
      gets 2, one more than the one redirect the table can produce, and
      C35 shows more fuel changes nothing.
    - [loadFromStorage] returns [None], meaning the model does not say
      what the code does, in two cases.  The first is a stored text that
      is JSON but whose value [jval] cannot hold: a number anywhere, and
      for [json_text] also a text with whitespace around or between
      tokens or a string escape other than those of the quote and the
      backslash, which its parser does not read.  The second is a
      document holding an entry or an active id the instance record
      cannot hold (a field of another JSON type); the code adopts such
      values as they are.  A text that is not JSON takes the [catch] and
      leaves the state as it was, as in the code (C27).
    - The fuel of [json_valid] is twice the length of the text plus
      one: every two nested calls of the scanner consume a character.

    Not modelled.
    - [console.log] and [console.error] (output only); the Vue
      reactivity and Pinia plumbing ([ref], [computed], [defineStore]),
      which only hold the state modelled here.
    - vue-router itself beyond the matching the table needs
      ([createWebHistory], component loading) and the views, which are
      not among the repository's sources. *)

From Stdlib Require Export Ascii String.
From stdpp Require Export base list gmap strings pretty.

Declare Scope backend_scope.
Delimit Scope backend_scope with backend.
Open Scope string_scope.
Open Scope list_scope.

Create HintDb backend discriminated.
Create Rewrite HintDb backend_rw.

(** ** The result monad: code that returns or throws *)

Inductive result (E A : Type) : Type :=
  | Ok (a : A)
  | Throw (e : E).
Arguments Ok {E A} a.
Arguments Throw {E A} e.

#[export] Instance result_ret E : MRet (result E) := fun _ a => Ok a.
#[export] Instance result_bind E : MBind (result E) :=
  fun _ _ k m => match m with Ok a => k a | Throw e => Throw e end.
#[export] Instance result_fmap E : FMap (result E) :=
  fun _ _ f m => match m with Ok a => Ok (f a) | Throw e => Throw e end.

Notation "'throw' e" := (Throw e) (at level 10) : backend_scope.

Section result_lemmas.
Context {E A B : Type}.

Lemma result_bind_Ok (a : A) (k : A -> result E B) : (Ok a ≫= k) = k a.
Proof. reflexivity. Qed.

Lemma result_bind_Throw (e : E) (k : A -> result E B) : (Throw e ≫= k) = Throw e.
Proof. reflexivity. Qed.

Lemma result_bind_Ok_inv (m : result E A) (k : A -> result E B) (b : B) :
  (m ≫= k) = Ok b -> exists a, m = Ok a /\ k a = Ok b.
Proof. destruct m; simpl; [eauto | discriminate]. Qed.
End result_lemmas.

#[export] Hint Rewrite @result_bind_Ok @result_bind_Throw : backend_rw.

(** ** Generic list lemmas *)

Section list_lemmas.
Context {A : Type}.

Lemma list_find_is_Some_iff (P : A -> Prop) `{!forall x, Decision (P x)} (l : list A) :
  is_Some (list_find P l) <-> exists x, x ∈ l /\ P x.
Proof.
  split.
  - intros [[i x] Hf]. apply list_find_Some in Hf as (Hi & Hp & _).
    exists x. split; [by eapply list_elem_of_lookup_2 | done].
  - intros (x & Hx & Hp). by eapply list_find_elem_of.
Qed.

Lemma list_find_None_iff (P : A -> Prop) `{!forall x, Decision (P x)} (l : list A) :
  list_find P l = None <-> forall x, x ∈ l -> ~ P x.
Proof. rewrite list_find_None, Forall_forall. done. Qed.

Lemma list_find_elem (P : A -> Prop) `{!forall x, Decision (P x)} (l : list A) i x :
  list_find P l = Some (i, x) -> x ∈ l /\ P x.
Proof.
  intros Hf. apply list_find_Some in Hf as (Hi & Hp & _).
  split; [by eapply list_elem_of_lookup_2 | done].
Qed.

Lemma NoDup_delete (l : list A) i : NoDup l -> NoDup (delete i l).
Proof. intros Hnd. eapply sublist_NoDup; [exact Hnd|]. apply sublist_delete. Qed.

Lemma elem_of_delete_NoDup (l : list A) i x y :
  NoDup l -> l !! i = Some x -> y ∈ delete i l <-> y ∈ l /\ y <> x.
Proof.
  intros Hnd Hi. rewrite delete_take_drop.
  pose proof (take_drop_middle l i x Hi) as Hsplit.
  remember (take i l) as l1. remember (drop (S i) l) as l2.
  rewrite <-Hsplit in Hnd |- *.
  apply NoDup_app in Hnd as (_ & Hdis & Hnd2).
  apply NoDup_cons in Hnd2 as [Hx _].
  specialize (Hdis x). set_solver.
Qed.
(** [list_find] only looks at the predicate on the list's elements. *)
Lemma list_find_ext_in (P Q : A -> Prop) `{!forall x, Decision (P x)} `{!forall x, Decision (Q x)}
    (l : list A) :
  (forall x, x ∈ l -> P x <-> Q x) -> list_find P l = list_find Q l.
Proof.
  induction l as [|y l IH]; intros Hext; simpl; [done|].
  rewrite IH by (intros x Hx; apply Hext; set_solver).
  assert (P y <-> Q y) as Hy by (apply Hext; set_solver).
  destruct (decide (P y)), (decide (Q y)); tauto.
Qed.

(** Deleting an element the predicate rejects does not change which
    element [list_find] returns. *)
Lemma list_find_delete_other (P : A -> Prop) `{!forall x, Decision (P x)} (l : list A) i x :
  l !! i = Some x -> ~ P x -> snd <$> list_find P (delete i l) = snd <$> list_find P l.
Proof.
  intros Hi Hx. rewrite delete_take_drop.
  pose proof (take_drop_middle l i x Hi) as Hsplit.
  remember (take i l) as l1. remember (drop (S i) l) as l2.
  rewrite <-Hsplit.
  destruct (list_find P l1) as [[j y]|] eqn:Hf.
  - by rewrite !(list_find_app_l _ _ _ _ _ Hf).
  - rewrite !list_find_app_r by done. simpl.
    destruct (decide (P x)); [done|].
    by destruct (list_find P l2) as [[]|].
Qed.

Lemma filter_none (P : A -> Prop) `{!forall x, Decision (P x)} (l : list A) :
  (forall y, y ∈ l -> ~ P y) -> filter P l = [].
Proof.
  induction l as [|y l IH]; intros HP; [done|].
  rewrite filter_cons_False by (apply HP; set_solver).
  apply IH. intros z Hz. apply HP. set_solver.
Qed.

(** Exactly one element of a duplicate-free list satisfies [P]. *)
Lemma length_filter_unique (P : A -> Prop) `{!forall x, Decision (P x)} (l : list A) x :
  NoDup l -> x ∈ l -> (forall y, y ∈ l -> P y <-> y = x) -> length (filter P l) = 1.
Proof.
  induction l as [|y l IH]; intros Hnd Hx HP; [set_solver|].
  apply NoDup_cons in Hnd as [Hy Hnd].
  destruct (decide (P y)) as [Hp|Hp].
  - rewrite filter_cons_True by done.
    assert (y = x) as <- by (apply HP; [set_solver | done]).
    rewrite filter_none; [done|].
    intros z Hz Hpz. apply HP in Hpz; [subst; contradiction | set_solver].
  - rewrite filter_cons_False by done.
    apply IH; [done | | intros z Hz; apply HP; set_solver].
    apply elem_of_cons in Hx as [->|Hx]; [|done].
    exfalso. apply Hp, HP; set_solver.
Qed.

(** At most one element of a duplicate-free list satisfies [P] when all
    that do are equal to [x]. *)
Lemma length_filter_le_1 (P : A -> Prop) `{!forall x, Decision (P x)} (l : list A) x :
  NoDup l -> (forall y, y ∈ l -> P y -> y = x) -> length (filter P l) <= 1.
Proof.
  intros Hnd HP. destruct (filter P l) as [|y l'] eqn:Hf; [simpl; lia|].
  assert (y ∈ filter P l) as Hy by (rewrite Hf; set_solver).
  apply list_elem_of_filter in Hy as [Hpy Hy].
  pose proof (HP y Hy Hpy) as ->. rewrite <-Hf.
  rewrite (length_filter_unique P l x); [lia|done|done|].
  intros z Hz. split; [by apply HP | by intros ->].
Qed.

Lemma omap_ext_in {B} (f g : A -> option B) (l : list A) :
  (forall x, x ∈ l -> f x = g x) -> omap f l = omap g l.
Proof.
  intros Hfg. apply list_omap_ext. apply Forall2_same_length_lookup. split; [done|].
  intros i x y Hx Hy. rewrite Hx in Hy. injection Hy as <-.
  apply Hfg. by eapply list_elem_of_lookup_2.
Qed.

Lemma omap_delete {B} (f : A -> option B) (l : list A) k :
  (forall x, x ∈ l -> is_Some (f x)) -> omap f (delete k l) = delete k (omap f l).
Proof.
  revert k. induction l as [|y l IH]; intros k Hf; [done|].
  destruct (Hf y) as [z Hz]; [set_solver|].
  destruct k as [|k]; simpl; rewrite Hz; [done|]. simpl. f_equal. apply IH. set_solver.
Qed.

Lemma lookup_omap_total {B} (f : A -> option B) (l : list A) k :
  (forall x, x ∈ l -> is_Some (f x)) -> omap f l !! k = l !! k ≫= f.
Proof.
  revert k. induction l as [|y l IH]; intros k Hf; [done|]. simpl.
  destruct (Hf y) as [z Hz]; [set_solver|]. rewrite Hz.
  destruct k as [|k]; simpl; [by rewrite Hz|]. apply IH. intros x Hx. apply Hf. set_solver.
Qed.

(** Folding steps that commute pairwise over permuted lists. *)
Lemma foldl_permutation {B} (g : B -> A -> B) (Q : A -> Prop) (l1 l2 : list A) (b : B) :
  (forall x y b, Q x -> Q y -> g (g b x) y = g (g b y) x) ->
  Forall Q l1 -> l1 ≡ₚ l2 -> foldl g b l1 = foldl g b l2.
Proof.
  intros Hcomm HQ Hp. revert b HQ.
  induction Hp as [|x l l' Hp IH|x y l|l l' l'' Hp1 IH1 Hp2 IH2]; intros b HQ; simpl.
  - done.
  - apply Forall_cons in HQ as [_ HQ]. by apply IH.
  - apply Forall_cons in HQ as [Hy HQ]. apply Forall_cons in HQ as [Hx _]. by rewrite Hcomm.
  - rewrite IH1 by done. apply IH2. by rewrite <-Hp1.
Qed.

(** Filters of two lists that agree position by position have the same
    length. *)
Lemma length_filter_zip {B} (P : A -> Prop) (Q : B -> Prop)
    `{!forall x, Decision (P x)} `{!forall y, Decision (Q y)} (l1 : list A) (l2 : list B) :
  length l1 = length l2 ->
  (forall k x y, l1 !! k = Some x -> l2 !! k = Some y -> P x <-> Q y) ->
  length (filter P l1) = length (filter Q l2).
Proof.
  revert l2. induction l1 as [|x l1 IH]; intros [|y l2] Hlen HPQ; simpl in *; try done.
  specialize (HPQ 0 x y eq_refl eq_refl) as Hxy.
  rewrite !filter_cons. assert (length (filter P l1) = length (filter Q l2)) as Hr.
  { apply IH; [lia|]. intros k. apply (HPQ (S k)). }
  repeat case_decide; simpl; naive_solver.
Qed.
End list_lemmas.

#[export] Hint Resolve NoDup_delete : backend.

(** ** Generic string and sum lemmas *)

(** [String.append] is [simpl never]: these equations unfold it. *)
Lemma str_app_cons c (s1 s2 : string) : String c s1 +:+ s2 = String c (s1 +:+ s2).
Proof. reflexivity. Qed.

Lemma str_app_nil_l (s : string) : EmptyString +:+ s = s.
Proof. reflexivity. Qed.

Lemma str_app_assoc (s1 s2 s3 : string) : s1 +:+ (s2 +:+ s3) = (s1 +:+ s2) +:+ s3.
Proof. induction s1 as [|c s1 IH]; [done | by rewrite !str_app_cons, IH]. Qed.

Lemma str_app_nil_r (s : string) : s +:+ EmptyString = s.
Proof. induction s as [|c s IH]; [done | by rewrite str_app_cons, IH]. Qed.

Lemma str_length_app (s1 s2 : string) :
  String.length (s1 +:+ s2) = String.length s1 + String.length s2.
Proof. induction s1 as [|c s1 IH]; [done | rewrite str_app_cons; simpl; by rewrite IH]. Qed.

#[export] Hint Rewrite str_app_cons str_app_nil_l str_length_app : backend_rw.

Lemma sum_list_with_mono {A} (f g : A -> nat) (l : list A) :
  Forall (fun x => f x <= g x) l -> sum_list_with f l <= sum_list_with g l.
Proof. induction 1; simpl; lia. Qed.
