(* ===== verification/Js.v ===== *)
(** * The JavaScript semantics [backend.js] relies on

    The exceptions the store throws (one constructor per [throw] site and
    per runtime error the code can hit), [x || d] on a value that may be
    [undefined], template literals, the two regular-expression
    replacements of [buildApiUrl], plain objects used as header maps, and
    the outcomes of [fetch]. *)

From S2P Require Import Prelude.

Open Scope string_scope.
Open Scope list_scope.

(** ** Exceptions *)

(** [throw new Error(...)] at each site of [backend.js], the HTTP error of
    [apiRequest], a rejected [fetch] re-thrown as is, and the [TypeError]
    of reading a property of [undefined]. *)
Inductive Exn : Type :=
  | ExnRemoveLocal                                  (* line 52 *)
  | ExnBackendMissing                               (* line 95 *)
  | ExnNoActive                                     (* line 137 *)
  | ExnHttp (status : Z) (statusText : string)      (* line 172 *)
  | ExnFetch (message : string)                     (* fetch rejection *)
  | ExnType.                                        (* property of undefined *)

#[export] Instance Exn_eq_dec : EqDecision Exn.
Proof. solve_decision. Defined.

(** The [message] of each error object. *)
Definition exn_message (e : Exn) : string :=
  match e with
  | ExnRemoveLocal => "不能删除本地实例"
  | ExnBackendMissing => "后端实例不存在"
  | ExnNoActive => "没有活跃的后端实例"
  | ExnHttp st txt => "HTTP " +:+ pretty st +:+ ": " +:+ txt
  | ExnFetch m => m
  | ExnType => "Cannot read properties of undefined"
  end.

Abbreviation Res := (result Exn).

(** ** Values that may be [undefined] *)

(** [x || d] for a string-valued [x] that may be [undefined]: both
    [undefined] and the empty string are falsy. *)
Definition js_or (x : option string) (d : string) : string :=
  match x with
  | Some s => if String.eqb s "" then d else s
  | None => d
  end.

(** Truthiness of a string ([if (backend.password)]). *)
Definition js_truthy (s : string) : bool := negb (String.eqb s "").

(** [`${x}`] for an [x] that may be [undefined]. *)
Definition js_template (x : option string) : string :=
  match x with Some s => s | None => "undefined" end.

(** ** The regular expressions of [buildApiUrl] *)

(** [s.replace(/\/$/, '')]: drops one slash at the very end. *)
Fixpoint strip_trailing_slash (s : string) : string :=
  match s with
  | EmptyString => EmptyString
  | String c EmptyString => if Ascii.eqb c "/"%char then EmptyString else s
  | String c rest => String c (strip_trailing_slash rest)
  end.

(** [s.replace(/^\//, '')]: drops one slash at the very start. *)
Definition strip_leading_slash (s : string) : string :=
  match s with
  | String c rest => if Ascii.eqb c "/"%char then rest else s
  | EmptyString => EmptyString
  end.

(** ** Plain objects with string values (header maps) *)

(** A JS object whose keys are non-numeric strings keeps its properties
    in insertion order; assigning an existing key overwrites it in
    place. *)
Definition jsobj := list (string * string).

Fixpoint obj_set (k v : string) (o : jsobj) : jsobj :=
  match o with
  | [] => [(k, v)]
  | (k', v') :: o' => if String.eqb k k' then (k, v) :: o' else (k', v') :: obj_set k v o'
  end.

Fixpoint obj_get (k : string) (o : jsobj) : option string :=
  match o with
  | [] => None
  | (k', v') :: o' => if String.eqb k k' then Some v' else obj_get k o'
  end.

(** [{ ...a, ...b }]: the properties of [b] assigned in order over a copy
    of [a]. *)
Definition obj_spread (a b : jsobj) : jsobj :=
  fold_left (fun acc kv => obj_set kv.1 kv.2 acc) b a.

(** ** [fetch] *)

Record Response := mkResponse { status : Z; statusText : string }.

(** [response.ok]. *)
Definition resp_ok (r : Response) : bool := bool_decide (200 <= status r <= 299)%Z.

(** A call of [fetch] either resolves to a response or rejects with an
    error (DNS failure, refused connection, ...). *)
Inductive FetchOutcome : Type :=
  | Responded (r : Response)
  | NetworkFailure (message : string).

(** The request a call of [fetch(url, init)] issues. *)
Record Request := mkRequest {
  req_url : string;
  req_method : string;
  req_headers : jsobj;
  req_body : option string
}.

(** ** Lemmas *)

Lemma js_or_Some s d : s <> "" -> js_or (Some s) d = s.
Proof. intros Hs. simpl. destruct (String.eqb_spec s ""); congruence. Qed.

Lemma js_or_falsy x d : (x = None \/ x = Some "") -> js_or x d = d.
Proof. intros [-> | ->]; reflexivity. Qed.

Lemma js_truthy_spec s : js_truthy s = true <-> s <> "".
Proof. unfold js_truthy. destruct (String.eqb_spec s ""); simpl; intuition congruence. Qed.

Lemma js_truthy_nonempty s : s <> "" -> js_truthy s = true.
Proof. apply js_truthy_spec. Qed.

Lemma obj_get_set_eq k v o : obj_get k (obj_set k v o) = Some v.
Proof.
  induction o as [|[k' v'] o IH]; simpl.
  - by rewrite String.eqb_refl.
  - destruct (String.eqb_spec k k') as [->|Hne]; simpl.
    + by rewrite String.eqb_refl.
    + apply String.eqb_neq in Hne. by rewrite Hne.
Qed.

Lemma obj_get_set_ne k k2 v o : k2 <> k -> obj_get k2 (obj_set k v o) = obj_get k2 o.
Proof.
  intros Hne. induction o as [|[k' v'] o IH]; simpl.
  - apply String.eqb_neq in Hne. by rewrite Hne.
  - destruct (String.eqb_spec k k') as [->|Hne']; simpl.
    + apply String.eqb_neq in Hne. by rewrite Hne.
    + by rewrite IH.
Qed.

Lemma obj_get_not_key k o : k ∉ o.*1 -> obj_get k o = None.
Proof.
  induction o as [|[k' v'] o IH]; simpl; [done|].
  rewrite elem_of_cons. intros Hk.
  destruct (String.eqb_spec k k'); [tauto|]. apply IH. tauto.
Qed.

(** Reading a key after a spread: the right operand wins (the keys of a
    JS object are distinct). *)
Lemma obj_get_spread k a b :
  NoDup b.*1 ->
  obj_get k (obj_spread a b) = match obj_get k b with Some v => Some v | None => obj_get k a end.
Proof.
  unfold obj_spread. revert a. induction b as [|[k' v'] b IH]; intros a Hnd; simpl; [done|].
  apply NoDup_cons in Hnd as [Hk' Hnd].
  rewrite IH by done.
  destruct (String.eqb_spec k k') as [->|Hne].
  - rewrite obj_get_not_key by done. apply obj_get_set_eq.
  - destruct (obj_get k b); [done|]. by apply obj_get_set_ne.
Qed.

#[export] Hint Rewrite obj_get_set_eq : backend_rw.

(** ** The two slash replacements *)

(** Whether a string ends (starts) with a slash. *)
Fixpoint ends_with_slash (s : string) : bool :=
  match s with
  | EmptyString => false
  | String c EmptyString => Ascii.eqb c "/"%char
  | String _ rest => ends_with_slash rest
  end.

Definition starts_with_slash (s : string) : bool :=
  match s with String c _ => Ascii.eqb c "/"%char | EmptyString => false end.

Lemma strip_trailing_slash_id u : ends_with_slash u = false -> strip_trailing_slash u = u.
Proof.
  induction u as [|c u IH]; [done|]. simpl.
  destruct u as [|c' u']; [by intros ->|].
  intros Hu. by rewrite IH.
Qed.

Lemma strip_trailing_slash_cons c r :
  r <> EmptyString -> strip_trailing_slash (String c r) = String c (strip_trailing_slash r).
Proof. destruct r; [congruence | reflexivity]. Qed.

Lemma strip_trailing_slash_app u : strip_trailing_slash (u +:+ "/") = u.
Proof.
  induction u as [|c u IH]; [done|]. change (String c u +:+ "/") with (String c (u +:+ "/")).
  rewrite strip_trailing_slash_cons by (destruct u; discriminate). by rewrite IH.
Qed.

Lemma strip_leading_slash_id e : starts_with_slash e = false -> strip_leading_slash e = e.
Proof. destruct e as [|c e]; simpl; [done|]. by intros ->. Qed.

Lemma strip_leading_slash_app e : strip_leading_slash ("/" +:+ e) = e.
Proof. done. Qed.

#[export] Hint Rewrite strip_trailing_slash_app strip_leading_slash_app : backend_rw.
