(* ===== verification/Backend.v ===== *)
(** * Backend instance objects

    The instance record of [backend.js] (the object literals of lines
    7-16, 34-43, 213-222 and 241-250), the descriptor [addBackend]
    accepts, the patch [updateBackend] hands to [Object.assign], and the
    field updates the other operations perform on an instance. *)

From S2P Require Import Prelude Js.

Open Scope string_scope.
Open Scope list_scope.

(** ** The instance record *)

(** [baseUrl] is [undefined] when [addBackend] was given no [baseUrl];
    [lastConnected] is [null] until a successful probe or request. *)
Record Backend := mkBackend {
  id : string;
  name : string;
  baseUrl : option string;
  password : string;
  isActive : bool;
  isConnected : bool;
  lastConnected : option string;
  description : string
}.

#[export] Instance Backend_eq_dec : EqDecision Backend.
Proof. solve_decision. Defined.

(** The reserved id of the built-in instance. *)
Definition local_id : string := "local".

(** The built-in instance, for the page's own origin.  The store's
    initial array and [resetToDefault] create it active; the repair in
    [loadFromStorage] creates it inactive. *)
Definition local_instance (origin : string) (active : bool) : Backend :=
  {| id := local_id;
     name := "本地实例";
     baseUrl := Some origin;
     password := "";
     isActive := active;
     isConnected := false;
     lastConnected := None;
     description := "当前页面的后端实例" |}.

(** ** [addBackend]'s argument and the object it builds *)

(** The caller's object: any of its fields may be missing. *)
Record Descriptor := mkDescriptor {
  d_name : option string;
  d_baseUrl : option string;
  d_password : option string;
  d_description : option string
}.

#[export] Instance Descriptor_eq_dec : EqDecision Descriptor.
Proof. solve_decision. Defined.

(** The id [`backend_${Date.now()}`]: [Date.now()] is a non-negative
    number of milliseconds, printed in decimal. *)
Definition generated_id (now : N) : string := "backend_" +:+ pretty now.

(** Lines 34-43. *)
Definition new_backend (now : N) (d : Descriptor) : Backend :=
  {| id := generated_id now;
     name := js_or (d_name d) "未命名实例";
     baseUrl := d_baseUrl d;
     password := js_or (d_password d) "";
     isActive := false;
     isConnected := false;
     lastConnected := None;
     description := js_or (d_description d) "" |}.

(** ** [Object.assign(backend, updates)] *)

(** The own properties of [updates] among the instance's fields; a field
    that is absent is [None].  Nothing stops a caller from passing [id]
    or [isActive]. *)
Record Patch := mkPatch {
  p_id : option string;
  p_name : option string;
  p_baseUrl : option (option string);
  p_password : option string;
  p_isActive : option bool;
  p_isConnected : option bool;
  p_lastConnected : option (option string);
  p_description : option string
}.

#[export] Instance Patch_eq_dec : EqDecision Patch.
Proof. solve_decision. Defined.

Definition empty_patch : Patch := mkPatch None None None None None None None None.

Definition assign (b : Backend) (p : Patch) : Backend :=
  {| id := default (id b) (p_id p);
     name := default (name b) (p_name p);
     baseUrl := default (baseUrl b) (p_baseUrl p);
     password := default (password b) (p_password p);
     isActive := default (isActive b) (p_isActive p);
     isConnected := default (isConnected b) (p_isConnected p);
     lastConnected := default (lastConnected b) (p_lastConnected p);
     description := default (description b) (p_description p) |}.

(** A patch that leaves the fields the registry's invariant rests on
    alone: it names neither [id] nor [isActive]. *)
Definition patch_safe (p : Patch) : bool :=
  bool_decide (p_id p = None) && bool_decide (p_isActive p = None).

(** ** Field writes *)

(** [b.isActive = v] (lines 79 and 82). *)
Definition set_isActive (v : bool) (b : Backend) : Backend :=
  {| id := id b; name := name b; baseUrl := baseUrl b; password := password b;
     isActive := v; isConnected := isConnected b; lastConnected := lastConnected b;
     description := description b |}.

(** [b.isConnected = true; b.lastConnected = stamp] (lines 108-109 and
    177-178). *)
Definition mark_connected (stamp : string) (b : Backend) : Backend :=
  {| id := id b; name := name b; baseUrl := baseUrl b; password := password b;
     isActive := isActive b; isConnected := true; lastConnected := Some stamp;
     description := description b |}.

(** [b.isConnected = false] (lines 112, 116 and 185). *)
Definition mark_disconnected (b : Backend) : Backend :=
  {| id := id b; name := name b; baseUrl := baseUrl b; password := password b;
     isActive := isActive b; isConnected := false; lastConnected := lastConnected b;
     description := description b |}.

(** ** Lemmas *)

Lemma assign_id_safe b p : patch_safe p = true -> id (assign b p) = id b.
Proof.
  unfold patch_safe. rewrite andb_true_iff, !bool_decide_eq_true.
  intros [Hid _]. simpl. by rewrite Hid.
Qed.

Lemma assign_isActive_safe b p : patch_safe p = true -> isActive (assign b p) = isActive b.
Proof.
  unfold patch_safe. rewrite andb_true_iff, !bool_decide_eq_true.
  intros [_ Hact]. simpl. by rewrite Hact.
Qed.

Lemma assign_empty b : assign b empty_patch = b.
Proof. by destruct b. Qed.

Lemma set_isActive_id v b : id (set_isActive v b) = id b.
Proof. done. Qed.

Lemma mark_connected_id t b : id (mark_connected t b) = id b.
Proof. done. Qed.

Lemma mark_disconnected_id b : id (mark_disconnected b) = id b.
Proof. done. Qed.

Lemma mark_connected_isActive t b : isActive (mark_connected t b) = isActive b.
Proof. done. Qed.

Lemma mark_disconnected_isActive b : isActive (mark_disconnected b) = isActive b.
Proof. done. Qed.

Lemma set_isActive_idem v w b : set_isActive v (set_isActive w b) = set_isActive v b.
Proof. done. Qed.

(** Ids generated at different instants differ, and never collide with
    the reserved id. *)
Lemma generated_id_inj n m : generated_id n = generated_id m -> n = m.
Proof.
  unfold generated_id. intros H. simpl in H.
  repeat (injection H as H). by apply (inj pretty).
Qed.

Lemma generated_id_not_local n : generated_id n <> local_id.
Proof. discriminate. Qed.

#[export] Hint Rewrite set_isActive_id mark_connected_id mark_disconnected_id
  mark_connected_isActive mark_disconnected_isActive set_isActive_idem : backend_rw.
