(* ===== verification/Store.v ===== *)
(** * The store: registry and active selector

    The state of [useBackendStore] and its synchronous operations:
    [activeBackend], [connectedBackendsCount], [addBackend],
    [removeBackend], [updateBackend] and [switchBackend].

    Instances are JS objects shared by reference: the array [backends]
    holds references ([loc]) into a heap of objects, as the source's
    [ref([...])] array does.  Writing through a reference that the array
    no longer holds (as [testBackendConnection] may) changes the heap and
    not the registry. *)

From S2P Require Import Prelude Js Backend.

Open Scope string_scope.
Open Scope list_scope.

Definition loc := N.

Record State := mkState {
  heap : gmap loc Backend;       (* the instance objects *)
  backends : list loc;           (* backends.value *)
  activeBackendId : string;      (* activeBackendId.value *)
  next_loc : loc                 (* the next fresh object *)
}.

(** ** Reading instances through references *)

Definition id_at (h : gmap loc Backend) (l : loc) : option string := id <$> h !! l.

(** [b.id === i] for the object [l] refers to. *)
Definition has_id (h : gmap loc Backend) (i : string) (l : loc) : Prop := id_at h l = Some i.

#[export] Instance has_id_dec h i l : Decision (has_id h i l).
Proof. unfold has_id. apply _. Defined.

(** [b.isActive] for the object [l] refers to. *)
Definition flagged (h : gmap loc Backend) (l : loc) : Prop := (isActive <$> h !! l) = Some true.

#[export] Instance flagged_dec h l : Decision (flagged h l).
Proof. unfold flagged. apply _. Defined.

Definition connected_at (h : gmap loc Backend) (l : loc) : Prop :=
  (isConnected <$> h !! l) = Some true.

#[export] Instance connected_at_dec h l : Decision (connected_at h l).
Proof. unfold connected_at. apply _. Defined.

(** [backends.value.find(b => b.id === i)]. *)
Definition find_backend (s : State) (i : string) : option loc :=
  snd <$> list_find (has_id (heap s) i) (backends s).

(** [backends.value.findIndex(b => b.id === i)], [-1] being [None]. *)
Definition find_index (s : State) (i : string) : option nat :=
  fst <$> list_find (has_id (heap s) i) (backends s).

(** ** The computed views (lines 23-30) *)

Definition activeBackend (s : State) : option loc := find_backend s (activeBackendId s).

Definition activeBackend_obj (s : State) : option Backend :=
  activeBackend s ≫= fun l => heap s !! l.

Definition connectedBackendsCount (s : State) : nat :=
  length (filter (connected_at (heap s)) (backends s)).

(** ** Initial state (lines 6-20) *)

Definition initial_state (origin : string) : State :=
  {| heap := {[0%N := local_instance origin true]};
     backends := [0%N];
     activeBackendId := local_id;
     next_loc := 1%N |}.

(** ** Operations *)

Definition with_heap (f : gmap loc Backend -> gmap loc Backend) (s : State) : State :=
  {| heap := f (heap s); backends := backends s;
     activeBackendId := activeBackendId s; next_loc := next_loc s |}.

(** [addBackend] (lines 33-47): allocates the new object, pushes its
    reference and returns it. *)
Definition addBackend (now : N) (d : Descriptor) (s : State) : State * loc :=
  let l := next_loc s in
  ({| heap := <[l := new_backend now d]> (heap s);
      backends := backends s ++ [l];
      activeBackendId := activeBackendId s;
      next_loc := (l + 1)%N |}, l).

(** [removeBackend] (lines 50-64). *)
Definition removeBackend (i : string) (s : State) : Res State :=
  if String.eqb i local_id then Throw ExnRemoveLocal
  else match find_index s i with
       | Some idx =>
           Ok {| heap := heap s;
                 backends := delete idx (backends s);
                 activeBackendId :=
                   if String.eqb (activeBackendId s) i then local_id else activeBackendId s;
                 next_loc := next_loc s |}
       | None => Ok s
       end.

(** [updateBackend] (lines 67-72). *)
Definition updateBackend (i : string) (p : Patch) (s : State) : State :=
  match find_backend s i with
  | Some l => with_heap (alter (fun b => assign b p) l) s
  | None => s
  end.

(** [backends.value.forEach(b => { b.isActive = false })]. *)
Definition deactivate_all (h : gmap loc Backend) (ls : list loc) : gmap loc Backend :=
  foldl (fun h l => alter (set_isActive false) l h) h ls.

(** [switchBackend] (lines 75-89). *)
Definition switchBackend (i : string) (s : State) : State * bool :=
  match find_backend s i with
  | Some l =>
      ({| heap := alter (set_isActive true) l (deactivate_all (heap s) (backends s));
          backends := backends s;
          activeBackendId := i;
          next_loc := next_loc s |}, true)
  | None => (s, false)
  end.

(** ** Invariants *)

(** Well-formedness of the heap model: every reference in the array is
    allocated, allocation is fresh, and the array holds each object at
    most once (the code never pushes an existing object). *)
Record wf (s : State) : Prop := {
  wf_alloc : forall l, l ∈ backends s -> is_Some (heap s !! l);
  wf_fresh : forall l, is_Some (heap s !! l) -> (l < next_loc s)%N;
  wf_nodup : NoDup (backends s)
}.

(** The registry invariant the code maintains: the local instance is
    present, [activeBackendId] names a present instance, and an instance
    flagged [isActive] is the one [activeBackend] resolves to (so at most
    one instance is flagged). *)
Record registry_inv (s : State) : Prop := {
  inv_wf : wf s;
  inv_local : exists l, l ∈ backends s /\ has_id (heap s) local_id l;
  inv_resolves : is_Some (activeBackend s);
  inv_flag : forall l, l ∈ backends s -> flagged (heap s) l -> activeBackend s = Some l
}.

(** The number of instances flagged [isActive]. *)
Definition active_count (s : State) : nat := length (filter (flagged (heap s)) (backends s)).

(** ** Lookup by id *)

Section find.
Implicit Types (s : State) (i : string) (l : loc).

Lemma find_backend_Some s i l :
  find_backend s i = Some l -> l ∈ backends s /\ has_id (heap s) i l.
Proof.
  unfold find_backend. destruct (list_find _ _) as [[j l']|] eqn:Hf; simpl; [|done].
  intros [= <-]. by eapply list_find_elem.
Qed.

Lemma find_backend_None s i :
  find_backend s i = None <-> forall l, l ∈ backends s -> ~ has_id (heap s) i l.
Proof.
  unfold find_backend. rewrite fmap_None. apply list_find_None_iff.
Qed.

Lemma find_backend_is_Some s i :
  is_Some (find_backend s i) <-> exists l, l ∈ backends s /\ has_id (heap s) i l.
Proof.
  unfold find_backend. rewrite fmap_is_Some. apply list_find_is_Some_iff.
Qed.

Lemma find_index_Some s i idx :
  find_index s i = Some idx ->
  exists l, backends s !! idx = Some l /\ find_backend s i = Some l.
Proof.
  unfold find_index, find_backend.
  destruct (list_find _ _) as [[j l]|] eqn:Hf; simpl; [|done].
  intros [= <-]. apply list_find_Some in Hf as (Hj & _). eauto.
Qed.

Lemma find_index_None s i : find_index s i = None <-> find_backend s i = None.
Proof. unfold find_index, find_backend. by rewrite !fmap_None. Qed.

(** The lookup only depends on the ids of the instances the array
    refers to. *)
Lemma find_backend_ids s1 s2 i :
  backends s1 = backends s2 ->
  (forall l, l ∈ backends s1 -> id_at (heap s1) l = id_at (heap s2) l) ->
  find_backend s1 i = find_backend s2 i /\ find_index s1 i = find_index s2 i.
Proof.
  intros Hb Hids. unfold find_backend, find_index. rewrite <-Hb.
  rewrite (list_find_ext_in (has_id (heap s1) i) (has_id (heap s2) i)); [done|].
  intros l Hl. unfold has_id. by rewrite Hids.
Qed.
End find.

(** ** Registry equivalence

    Two states are registry-equivalent when they hold the same array of
    references, the same [activeBackendId] and allocator, and their
    objects agree on [id] and [isActive] (they may differ in names,
    addresses, credentials and connection state).  Every view the
    registry invariant depends on respects it. *)

Definition reg_key (b : Backend) : string * bool := (id b, isActive b).

Definition state_equiv (s1 s2 : State) : Prop :=
  reg_key <$> heap s1 = reg_key <$> heap s2 /\ backends s1 = backends s2 /\
  activeBackendId s1 = activeBackendId s2 /\ next_loc s1 = next_loc s2.

Infix "≃" := state_equiv (at level 70) : backend_scope.
Open Scope backend_scope.

#[export] Instance state_equiv_equivalence : Equivalence state_equiv.
Proof.
  split.
  - intros s. done.
  - intros s1 s2 (? & ? & ? & ?). done.
  - intros s1 s2 s3 (H1 & H2 & H3 & H4) (H1' & H2' & H3' & H4').
    unfold state_equiv. rewrite H1, H2, H3, H4. done.
Qed.

Section equiv.
Implicit Types (h : gmap loc Backend) (s : State).

Lemma reg_key_id_at h1 h2 l :
  reg_key <$> h1 = reg_key <$> h2 -> id_at h1 l = id_at h2 l.
Proof.
  intros Heq. unfold id_at. change id with (fst ∘ reg_key).
  by rewrite !option_fmap_compose, <-!lookup_fmap, Heq.
Qed.

Lemma reg_key_flagged h1 h2 l :
  reg_key <$> h1 = reg_key <$> h2 -> flagged h1 l <-> flagged h2 l.
Proof.
  intros Heq. unfold flagged. change isActive with (snd ∘ reg_key).
  by rewrite !option_fmap_compose, <-!lookup_fmap, Heq.
Qed.

Lemma reg_key_is_Some h1 h2 l :
  reg_key <$> h1 = reg_key <$> h2 -> is_Some (h1 !! l) <-> is_Some (h2 !! l).
Proof.
  intros Heq. rewrite <-(fmap_is_Some reg_key (h1 !! l)), <-(fmap_is_Some reg_key (h2 !! l)).
  by rewrite <-!lookup_fmap, Heq.
Qed.

(** Altering one object without touching its [id] and [isActive]. *)
Lemma reg_key_alter (f : Backend -> Backend) l h :
  (forall b, reg_key (f b) = reg_key b) -> reg_key <$> alter f l h = reg_key <$> h.
Proof.
  intros Hf. apply map_eq. intros j. rewrite !lookup_fmap, lookup_alter.
  case_decide; [subst j|done]. destruct (h !! l); simpl; [|done]. f_equal. apply Hf.
Qed.

#[export] Instance find_backend_proper : Proper (state_equiv ==> eq ==> eq) find_backend.
Proof.
  intros s1 s2 (Hh & Hb & _) i ? <-.
  apply find_backend_ids; [done|]. intros l _. by apply reg_key_id_at.
Qed.

#[export] Instance find_index_proper : Proper (state_equiv ==> eq ==> eq) find_index.
Proof.
  intros s1 s2 (Hh & Hb & _) i ? <-.
  apply find_backend_ids; [done|]. intros l _. by apply reg_key_id_at.
Qed.

#[export] Instance activeBackend_proper : Proper (state_equiv ==> eq) activeBackend.
Proof.
  intros s1 s2 Heq. unfold activeBackend.
  pose proof Heq as (_ & _ & Ha & _). rewrite Ha. by apply find_backend_proper.
Qed.

#[export] Instance wf_proper : Proper (state_equiv ==> iff) wf.
Proof.
  intros s1 s2 (Hh & Hb & _ & Hn).
  assert (forall l, is_Some (heap s1 !! l) <-> is_Some (heap s2 !! l)) as Hs
    by (intros; by apply reg_key_is_Some).
  split; intros [Ha Hf Hnd]; split.
  - intros l. rewrite <-Hs, <-Hb. apply Ha.
  - intros l. rewrite <-Hs, <-Hn. apply Hf.
  - by rewrite <-Hb.
  - intros l. rewrite Hs, Hb. apply Ha.
  - intros l. rewrite Hs, Hn. apply Hf.
  - by rewrite Hb.
Qed.

#[export] Instance registry_inv_proper : Proper (state_equiv ==> iff) registry_inv.
Proof.
  intros s1 s2 Heq.
  assert (activeBackend s1 = activeBackend s2) as Hact by by rewrite Heq.
  pose proof Heq as (Hh & Hb & _).
  split; intros [Hwf Hloc Hres Hflag]; split.
  - by rewrite <-Heq.
  - destruct Hloc as (l & Hl & Hid). exists l. unfold has_id in *.
    by rewrite <-Hb, <-(reg_key_id_at _ _ _ Hh).
  - by rewrite <-Hact.
  - intros l Hl Hfl. rewrite <-Hact. apply Hflag; [by rewrite Hb | by rewrite (reg_key_flagged _ _ _ Hh)].
  - by rewrite Heq.
  - destruct Hloc as (l & Hl & Hid). exists l. unfold has_id in *.
    by rewrite Hb, (reg_key_id_at _ _ _ Hh).
  - by rewrite Hact.
  - intros l Hl Hfl. rewrite Hact. apply Hflag; [by rewrite <-Hb | by rewrite <-(reg_key_flagged _ _ _ Hh)].
Qed.
End equiv.

(** ** Heap writes *)

Section heap_ops.
Implicit Types (h : gmap loc Backend) (l : loc) (ls : list loc).

Lemma deactivate_all_lookup h ls l :
  deactivate_all h ls !! l =
    if decide (l ∈ ls) then set_isActive false <$> h !! l else h !! l.
Proof.
  unfold deactivate_all. revert h. induction ls as [|l' ls IH]; intros h; cbn [foldl].
  - case_decide; [set_solver | done].
  - rewrite IH, lookup_alter.
    repeat case_decide; subst; try set_solver; try done.
    destruct (h !! _); simpl; [by rewrite set_isActive_idem | done].
Qed.

(** Writes that keep every object's [id] keep every lookup by id. *)
Lemma id_at_alter (f : Backend -> Backend) h l l' :
  (forall b, id (f b) = id b) -> id_at (alter f l h) l' = id_at h l'.
Proof.
  intros Hf. unfold id_at. rewrite lookup_alter.
  case_decide; [subst|done]. destruct (h !! _); simpl; [by rewrite Hf | done].
Qed.

Lemma id_at_deactivate_all h ls l : id_at (deactivate_all h ls) l = id_at h l.
Proof.
  unfold id_at. rewrite deactivate_all_lookup.
  case_decide; [|done]. by destruct (h !! l).
Qed.

Lemma is_Some_alter (f : Backend -> Backend) h l l' :
  is_Some (alter f l h !! l') <-> is_Some (h !! l').
Proof.
  rewrite lookup_alter. case_decide; [subst; by rewrite fmap_is_Some | done].
Qed.

Lemma is_Some_deactivate_all h ls l :
  is_Some (deactivate_all h ls !! l) <-> is_Some (h !! l).
Proof. rewrite deactivate_all_lookup. case_decide; [by rewrite fmap_is_Some | done]. Qed.
End heap_ops.

#[export] Hint Rewrite deactivate_all_lookup id_at_deactivate_all : backend_rw.

(** Any object write that keeps [id] and [isActive] is
    registry-equivalent to doing nothing. *)
Lemma with_heap_alter_equiv (f : Backend -> Backend) l s :
  (forall b, reg_key (f b) = reg_key b) -> with_heap (alter f l) s ≃ s.
Proof. intros Hf. repeat split. by apply reg_key_alter. Qed.

(** ** The initial state *)

Lemma initial_state_inv origin : registry_inv (initial_state origin).
Proof.
  split.
  - split; simpl.
    + intros l ->%list_elem_of_singleton. by eexists.
    + intros l. rewrite lookup_singleton_is_Some. intros <-. lia.
    + apply NoDup_singleton.
  - exists 0%N. split; [set_solver | done].
  - by exists 0%N.
  - intros l ->%list_elem_of_singleton _. done.
Qed.

(** ** [addBackend] *)

Section add.
Context (now : N) (d : Descriptor) (s : State) (Hwf : wf s).

Let s' := fst (addBackend now d s).
Let l := snd (addBackend now d s).

Lemma addBackend_fresh : (l ∉ backends s) /\ heap s !! l = None.
Proof.
  unfold l; simpl.
  assert (heap s !! next_loc s = None) as Hn.
  { apply eq_None_not_Some. intros Hs. apply (wf_fresh _ Hwf) in Hs. lia. }
  split; [|done]. intros Hin. apply (wf_alloc _ Hwf) in Hin. by rewrite Hn in Hin.
Qed.

(** Objects already in the heap are untouched. *)
Lemma addBackend_old l' : is_Some (heap s !! l') -> heap s' !! l' = heap s !! l'.
Proof.
  intros Hl'. unfold s'; simpl. apply lookup_insert_ne.
  intros <-. destruct addBackend_fresh as [_ Hn]. unfold l in Hn. simpl in Hn.
  rewrite Hn in Hl'. by destruct Hl'.
Qed.

Lemma addBackend_wf : wf s'.
Proof.
  destruct addBackend_fresh as [Hnin Hn]. unfold l in *. simpl in *.
  split; simpl.
  - intros l'. rewrite elem_of_app, list_elem_of_singleton, lookup_insert_is_Some'.
    intros [Hl'|Hl']; [right; by apply (wf_alloc _ Hwf) | by left].
  - intros l'. rewrite lookup_insert_is_Some'. intros [<-|Hl']; [lia|].
    apply (wf_fresh _ Hwf) in Hl'. lia.
  - apply NoDup_app. split; [apply Hwf|]. split; [|apply NoDup_singleton].
    intros x Hx ->%list_elem_of_singleton. done.
Qed.

(** A lookup by id that succeeded before still returns the same object:
    the new object is appended after it. *)
Lemma addBackend_find_old i l' :
  find_backend s i = Some l' -> find_backend s' i = Some l'.
Proof.
  unfold find_backend.
  assert (list_find (has_id (heap s') i) (backends s) = list_find (has_id (heap s) i) (backends s)) as Hext.
  { apply list_find_ext_in. intros y Hy. unfold has_id, id_at.
    rewrite addBackend_old; [done | by apply (wf_alloc _ Hwf)]. }
  destruct (list_find (has_id (heap s) i) (backends s)) as [[j x]|] eqn:Hf;
    simpl; [|intros; congruence].
  intros [= <-]. by rewrite (list_find_app_l _ _ _ _ _ Hext).
Qed.

Lemma addBackend_ids l' : l' ∈ backends s -> id_at (heap s') l' = id_at (heap s) l'.
Proof. intros Hl'. unfold id_at. rewrite addBackend_old; [done | by apply (wf_alloc _ Hwf)]. Qed.

Lemma addBackend_new_obj : heap s' !! l = Some (new_backend now d).
Proof. unfold s', l. simpl. apply lookup_insert_eq. Qed.
End add.

Lemma has_id_functional h i j l : has_id h i l -> has_id h j l -> i = j.
Proof. unfold has_id. intros -> [=]. done. Qed.

Lemma flagged_lookup_eq h1 h2 l : h1 !! l = h2 !! l -> flagged h1 l <-> flagged h2 l.
Proof. unfold flagged. by intros ->. Qed.

Theorem addBackend_preserves_inv now d s :
  registry_inv s -> registry_inv (fst (addBackend now d s)).
Proof.
  intros [Hwf Hloc Hres Hflag].
  pose proof (addBackend_fresh now d s Hwf) as [Hnin Hn].
  assert (forall l', activeBackend s = Some l' -> activeBackend (fst (addBackend now d s)) = Some l')
    as Hact by (intros l'; apply addBackend_find_old, Hwf).
  split.
  - by apply addBackend_wf.
  - destruct Hloc as (l & Hl & Hid). exists l. split; [simpl; set_solver|].
    unfold has_id. by rewrite addBackend_ids.
  - destruct Hres as [l Hl]. exists l. by apply Hact.
  - intros l' Hl' Hfl. simpl in Hl'. apply elem_of_app in Hl' as [Hl'|Hl'].
    + apply Hact, Hflag; [done|]. rewrite <-(flagged_lookup_eq (heap (fst (addBackend now d s)))); [done|].
      apply addBackend_old; [done | by apply (wf_alloc _ Hwf)].
    + apply list_elem_of_singleton in Hl' as ->.
      exfalso. unfold flagged in Hfl. simpl in Hfl. by rewrite lookup_insert_eq in Hfl.
Qed.

(** ** [removeBackend] *)

Section remove.
Context (i : string) (s : State) (Hwf : wf s) (Hi : i <> local_id).
Context (idx : nat) (Hidx : find_index s i = Some idx).

Definition removed_state : State :=
  {| heap := heap s;
     backends := delete idx (backends s);
     activeBackendId := if String.eqb (activeBackendId s) i then local_id else activeBackendId s;
     next_loc := next_loc s |}.
#[local] Abbreviation s' := removed_state.

Arguments removed_state : simpl never.

Lemma removed_heap : heap s' = heap s.
Proof. reflexivity. Qed.

Lemma removed_active :
  activeBackendId s' = if String.eqb (activeBackendId s) i then local_id else activeBackendId s.
Proof. reflexivity. Qed.

Lemma removeBackend_found : removeBackend i s = Ok s'.
Proof.
  unfold removeBackend, removed_state. apply String.eqb_neq in Hi. by rewrite Hi, Hidx.
Qed.

Context (l : loc) (Hl : backends s !! idx = Some l) (Hfl : find_backend s i = Some l).

Lemma removeBackend_members l' : l' ∈ backends s' <-> l' ∈ backends s /\ l' <> l.
Proof.
  apply elem_of_delete_NoDup; [apply Hwf | done].
Qed.

Lemma removeBackend_wf : wf s'.
Proof.
  destruct Hwf as [Ha Hf Hnd]. split; simpl; [|done|by apply NoDup_delete].
  intros l' Hl'. apply removeBackend_members in Hl'. apply Ha, Hl'.
Qed.

(** The removed object carries id [i]; any other id is looked up as
    before. *)
Lemma removeBackend_find_other j : j <> i -> find_backend s' j = find_backend s j.
Proof.
  intros Hj. destruct (find_backend_Some _ _ _ Hfl) as [_ Hid].
  unfold find_backend. apply (list_find_delete_other _ _ _ l); [done|].
  intros Hjl. by apply Hj, (has_id_functional (heap s) j i l).
Qed.

Context (Hinv : registry_inv s).

Lemma removeBackend_found_inv : registry_inv s'.
Proof.
  destruct (find_backend_Some _ _ _ Hfl) as [Hlin Hlid].
  destruct Hinv as [_ Hloc Hres Hflag].
  destruct Hloc as (ll & Hll & Hllid).
  assert (ll ∈ backends s') as Hll'.
  { apply removeBackend_members. split; [done|]. intros ->.
    by apply Hi, (has_id_functional (heap s) i local_id l). }
  split.
  - apply removeBackend_wf.
  - by exists ll.
  - unfold activeBackend. rewrite removed_active.
    destruct (String.eqb_spec (activeBackendId s) i) as [Ha|Ha].
    + apply find_backend_is_Some. exists ll. by rewrite removed_heap.
    + rewrite removeBackend_find_other by done. apply Hres.
  - intros l' Hl' Hfl'. apply removeBackend_members in Hl' as [Hl' Hne'].
    pose proof (Hflag l' Hl' Hfl') as Hact. unfold activeBackend in *. rewrite removed_active.
    destruct (String.eqb_spec (activeBackendId s) i) as [Ha|Ha].
    + exfalso. rewrite Ha in Hact. congruence.
    + by rewrite removeBackend_find_other.
Qed.
End remove.

Theorem removeBackend_preserves_inv i s s' :
  registry_inv s -> removeBackend i s = Ok s' -> registry_inv s'.
Proof.
  intros Hinv Hrm. unfold removeBackend in Hrm.
  destruct (String.eqb_spec i local_id) as [|Hi]; [discriminate|].
  destruct (find_index s i) as [idx|] eqn:Hidx; injection Hrm as <-; [|done].
  destruct (find_index_Some _ _ _ Hidx) as (l & Hl & Hfl).
  by apply (removeBackend_found_inv i s (inv_wf _ Hinv) Hi idx l).
Qed.

(** ** [updateBackend] *)

Lemma updateBackend_safe_equiv i p s : patch_safe p = true -> updateBackend i p s ≃ s.
Proof.
  intros Hp. unfold updateBackend. destruct (find_backend s i); [|done].
  apply with_heap_alter_equiv. intros b. unfold reg_key.
  by rewrite assign_id_safe, assign_isActive_safe.
Qed.

Lemma updateBackend_found i p s l b :
  find_backend s i = Some l -> heap s !! l = Some b ->
  heap (updateBackend i p s) !! l = Some (assign b p) /\
  (forall l', l' <> l -> heap (updateBackend i p s) !! l' = heap s !! l') /\
  backends (updateBackend i p s) = backends s /\
  activeBackendId (updateBackend i p s) = activeBackendId s.
Proof.
  intros Hf Hb. unfold updateBackend. rewrite Hf. simpl.
  rewrite lookup_alter_eq, Hb. split; [done|]. split; [|done].
  intros l' Hne. by apply lookup_alter_ne.
Qed.

Lemma updateBackend_missing i p s : find_backend s i = None -> updateBackend i p s = s.
Proof. unfold updateBackend. by intros ->. Qed.

(** ** [switchBackend] *)

Section switch.
Context (i : string) (s : State) (l : loc) (Hfind : find_backend s i = Some l).

Definition switched_state : State :=
  {| heap := alter (set_isActive true) l (deactivate_all (heap s) (backends s));
     backends := backends s;
     activeBackendId := i;
     next_loc := next_loc s |}.
#[local] Abbreviation s' := switched_state.

Lemma switchBackend_found : switchBackend i s = (s', true).
Proof. unfold switchBackend. by rewrite Hfind. Qed.

Lemma switched_lookup l' :
  heap s' !! l' =
    if decide (l' = l) then set_isActive true <$> heap s !! l
    else if decide (l' ∈ backends s) then set_isActive false <$> heap s !! l'
    else heap s !! l'.
Proof.
  destruct (find_backend_Some _ _ _ Hfind) as [Hl _].
  simpl. rewrite lookup_alter.
  destruct (decide (l = l')) as [<-|Hne]; rewrite deactivate_all_lookup.
  - rewrite !decide_True by done.
    by destruct (heap s !! l).
  - destruct (decide (l' = l)); [congruence | done].
Qed.

Lemma switched_ids l' : id_at (heap s') l' = id_at (heap s) l'.
Proof. simpl. by rewrite id_at_alter, id_at_deactivate_all. Qed.

Lemma switched_find j : find_backend s' j = find_backend s j.
Proof. apply find_backend_ids; [done|]. intros l' _. apply switched_ids. Qed.

Lemma switched_flagged (Hwf : wf s) l' :
  l' ∈ backends s -> flagged (heap s') l' <-> l' = l.
Proof.
  intros Hl'. unfold flagged. rewrite switched_lookup.
  destruct (wf_alloc _ Hwf l' Hl') as [b Hb].
  destruct (decide (l' = l)) as [->|Hne].
  - rewrite Hb. by split.
  - rewrite decide_True, Hb by done. split; [by intros [=] | done].
Qed.

Lemma switched_active : activeBackend s' = Some l.
Proof. unfold activeBackend. simpl. by rewrite switched_find. Qed.

Lemma switched_wf (Hwf : wf s) : wf s'.
Proof.
  destruct Hwf as [Ha Hf Hnd]. split; simpl; [| |done].
  - intros l' Hl'. rewrite is_Some_alter, is_Some_deactivate_all. by apply Ha.
  - intros l'. rewrite is_Some_alter, is_Some_deactivate_all. apply Hf.
Qed.
End switch.

(** ** Properties of the registry and the active selector *)

(** Every registry operation preserves the invariant. *)
Theorem switchBackend_preserves_inv i s :
  registry_inv s -> registry_inv (fst (switchBackend i s)).
Proof.
  intros Hinv. destruct (find_backend s i) as [l|] eqn:Hf.
  2:{ unfold switchBackend. by rewrite Hf. }
  rewrite (switchBackend_found i s l Hf). simpl.
  destruct Hinv as [Hwf Hloc Hres Hflag].
  split.
  - by apply switched_wf.
  - destruct Hloc as (ll & Hll & Hid). exists ll. split; [done|].
    unfold has_id. by rewrite switched_ids.
  - exists l. by apply switched_active.
  - intros l' Hl' Hfl. rewrite (switched_active i s l Hf).
    f_equal. symmetry. by apply (switched_flagged i s l Hf Hwf).
Qed.

(** ** Sequences of registry operations *)

(** One call of a registry or selector operation.  A call that throws
    leaves the state as it was (nothing is written before the [throw]). *)
Inductive RegOp : Type :=
  | OpAdd (now : N) (d : Descriptor)
  | OpRemove (i : string)
  | OpUpdate (i : string) (p : Patch)
  | OpSwitch (i : string).

#[export] Instance RegOp_eq_dec : EqDecision RegOp.
Proof. solve_decision. Defined.

Definition apply_op (o : RegOp) (s : State) : State :=
  match o with
  | OpAdd now d => fst (addBackend now d s)
  | OpRemove i => match removeBackend i s with Ok s' => s' | Throw _ => s end
  | OpUpdate i p => updateBackend i p s
  | OpSwitch i => fst (switchBackend i s)
  end.

Definition run_ops (os : list RegOp) (s : State) : State := foldl (fun s o => apply_op o s) s os.

(** Updates whose patch names neither [id] nor [isActive]. *)
Definition op_safe (o : RegOp) : bool :=
  match o with OpUpdate _ p => patch_safe p | _ => true end.

Lemma apply_op_preserves_inv o s : op_safe o = true -> registry_inv s -> registry_inv (apply_op o s).
Proof.
  intros Ho Hinv. destruct o as [now d|i|i p|i]; simpl in *.
  - by apply addBackend_preserves_inv.
  - destruct (removeBackend i s) eqn:Hr; [|done]. by eapply removeBackend_preserves_inv.
  - by rewrite updateBackend_safe_equiv.
  - by apply switchBackend_preserves_inv.
Qed.

Lemma run_ops_preserves_inv os s :
  Forall (fun o => op_safe o = true) os -> registry_inv s -> registry_inv (run_ops os s).
Proof.
  revert s. induction os as [|o os IH]; intros s Hos Hinv; [done|].
  apply Forall_cons in Hos as [Ho Hos]. simpl. apply IH; [done|].
  by apply apply_op_preserves_inv.
Qed.

(** The invariant bounds the number of flagged instances by one. *)
Lemma registry_inv_at_most_one s : registry_inv s -> active_count s <= 1.
Proof.
  intros [Hwf _ [l Hl] Hflag]. unfold active_count.
  apply (length_filter_le_1 _ _ l); [apply Hwf|].
  intros y Hy Hfy. pose proof (Hflag y Hy Hfy). congruence.
Qed.

(** The ids the registry holds, in order. *)
Definition registry_ids (s : State) : list string := omap (id_at (heap s)) (backends s).

Lemma registry_ids_lookup s k :
  wf s -> registry_ids s !! k = backends s !! k ≫= id_at (heap s).
Proof.
  intros Hwf. unfold registry_ids. apply lookup_omap_total.
  intros l Hl. unfold id_at. destruct (wf_alloc _ Hwf l Hl) as [b ->]. by eexists.
Qed.

Lemma addBackend_registry_ids now d s :
  wf s -> registry_ids (fst (addBackend now d s)) = registry_ids s ++ [generated_id now].
Proof.
  intros Hwf. unfold registry_ids. simpl. rewrite omap_app. f_equal.
  - apply omap_ext_in. intros l Hl.
    pose proof (addBackend_ids now d s Hwf l Hl) as Hid. simpl in Hid. by rewrite Hid.
  - simpl. unfold id_at. by rewrite lookup_insert_eq.
Qed.

(** With unique ids, one id names one object of the array. *)
Lemma registry_ids_unique_loc s i l1 l2 :
  wf s -> NoDup (registry_ids s) -> l1 ∈ backends s -> l2 ∈ backends s ->
  has_id (heap s) i l1 -> has_id (heap s) i l2 -> l1 = l2.
Proof.
  intros Hwf Hnd [k1 H1]%list_elem_of_lookup [k2 H2]%list_elem_of_lookup Hi1 Hi2.
  assert (k1 = k2) as <-; [|congruence].
  eapply NoDup_lookup; [exact Hnd | |]; rewrite registry_ids_lookup by done;
    [rewrite H1 | rewrite H2]; simpl; eassumption.
Qed.

(** ** Claims about the registry and the active selector *)

(** C1: from the store's initial registry, every sequence of
    [addBackend], [removeBackend], [updateBackend] (with a patch that
    names neither [id] nor [isActive]) and [switchBackend] calls leaves a
    registry in which the local instance is present, [activeBackendId]
    resolves to a present instance, any instance flagged [isActive] is
    the one [activeBackend] returns, and hence at most one instance is
    flagged. *)
Theorem registry_invariant_reachable origin os :
  Forall (fun o => op_safe o = true) os ->
  registry_inv (run_ops os (initial_state origin)) /\
  active_count (run_ops os (initial_state origin)) <= 1.
Proof.
  intros Hos. assert (registry_inv (run_ops os (initial_state origin))) as Hinv.
  { apply run_ops_preserves_inv; [done | apply initial_state_inv]. }
  split; [done | by apply registry_inv_at_most_one].
Qed.

Definition demo_descriptor (n : string) (u : string) : Descriptor :=
  mkDescriptor (Some n) (Some u) None None.

Definition demo_ops : list RegOp :=
  [OpAdd 5 (demo_descriptor "A" "http://a"); OpAdd 7 (demo_descriptor "B" "http://b");
   OpSwitch "backend_7"; OpUpdate "backend_5" (mkPatch None (Some "A2") None None None None None None);
   OpRemove "backend_7"; OpSwitch "backend_5"].

Lemma registry_invariant_reachable_witness :
  Forall (fun o => op_safe o = true) demo_ops /\
  registry_inv (run_ops demo_ops (initial_state "http://x")) /\
  active_count (run_ops demo_ops (initial_state "http://x")) <= 1.
Proof.
  assert (Forall (fun o => op_safe o = true) demo_ops) as H by (repeat constructor).
  split; [exact H | apply (registry_invariant_reachable "http://x" demo_ops H)].
Defined.

(** C2: [switchBackend] on an id the registry holds returns [true],
    records the id in [activeBackendId], makes [activeBackend] the first
    instance with that id, and leaves exactly that instance flagged
    [isActive] among the registry's instances. *)
Theorem switchBackend_activates i s l :
  wf s -> find_backend s i = Some l ->
  snd (switchBackend i s) = true /\
  activeBackendId (fst (switchBackend i s)) = i /\
  activeBackend (fst (switchBackend i s)) = Some l /\
  (forall l', l' ∈ backends s -> flagged (heap (fst (switchBackend i s))) l' <-> l' = l) /\
  active_count (fst (switchBackend i s)) = 1.
Proof.
  intros Hwf Hf. rewrite (switchBackend_found i s l Hf). simpl.
  split; [done|]. split; [done|]. split; [by apply switched_active|].
  assert (forall l', l' ∈ backends s -> flagged (heap (switched_state i s l)) l' <-> l' = l) as Hfl
    by (intros; by apply switched_flagged).
  split; [done|]. unfold active_count. simpl.
  apply (length_filter_unique _ _ l); [apply Hwf | by apply find_backend_Some in Hf as [? ?] | done].
Qed.

Lemma switchBackend_activates_witness :
  let s := fst (addBackend 5 (demo_descriptor "A" "http://a") (initial_state "http://x")) in
  wf s /\ find_backend s "backend_5" = Some 1%N /\ active_count (fst (switchBackend "backend_5" s)) = 1.
Proof.
  simpl. assert (wf (fst (addBackend 5 (demo_descriptor "A" "http://a") (initial_state "http://x")))) as Hwf.
  { apply addBackend_wf, initial_state_inv. }
  assert (find_backend (fst (addBackend 5 (demo_descriptor "A" "http://a") (initial_state "http://x")))
            "backend_5" = Some 1%N) as Hf by reflexivity.
  split; [exact Hwf|]. split; [exact Hf|].
  apply (switchBackend_activates "backend_5" _ 1%N Hwf Hf).
Defined.

(** C3: [switchBackend] on an id the registry does not hold reports
    failure and changes nothing: the previous selection stays. *)
Theorem switchBackend_unknown i s :
  find_backend s i = None -> switchBackend i s = (s, false).
Proof. unfold switchBackend. by intros ->. Qed.

Lemma switchBackend_unknown_witness :
  find_backend (initial_state "http://x") "nope" = None /\
  switchBackend "nope" (initial_state "http://x") = (initial_state "http://x", false).
Proof.
  assert (find_backend (initial_state "http://x") "nope" = None) as H by reflexivity.
  split; [exact H | apply (switchBackend_unknown "nope" _ H)].
Defined.

(** C4: [removeBackend] throws [ExnRemoveLocal] exactly for the reserved
    id; otherwise it removes the first instance with the id (if any)
    from the array, leaves every other reference and every object in
    place, and re-points [activeBackendId] to ["local"] when it named the
    removed id. *)
Theorem removeBackend_spec i s :
  wf s ->
  match removeBackend i s with
  | Throw e => i = local_id /\ e = ExnRemoveLocal
  | Ok s' =>
      i <> local_id /\ heap s' = heap s /\ next_loc s' = next_loc s /\
      match find_backend s i with
      | Some l =>
          (forall l', l' ∈ backends s' <-> l' ∈ backends s /\ l' <> l) /\
          activeBackendId s' =
            (if String.eqb (activeBackendId s) i then local_id else activeBackendId s)
      | None => backends s' = backends s /\ activeBackendId s' = activeBackendId s
      end
  end.
Proof.
  intros Hwf. destruct (String.eqb_spec i local_id) as [->|Hi].
  { by unfold removeBackend. }
  destruct (find_index s i) as [idx|] eqn:Hidx.
  - destruct (find_index_Some _ _ _ Hidx) as (l & Hl & Hf).
    rewrite (removeBackend_found i s Hi idx Hidx), Hf.
    split; [done|]. split; [done|]. split; [done|]. split; [|done].
    intros l'. by apply (removeBackend_members i s Hwf idx l Hl).
  - unfold removeBackend. apply String.eqb_neq in Hi as Hi'. rewrite Hi', Hidx.
    apply find_index_None in Hidx. rewrite Hidx. done.
Qed.

Definition demo_state1 : State :=
  fst (addBackend 5 (demo_descriptor "A" "http://a") (initial_state "http://x")).

Lemma removeBackend_spec_witness :
  wf demo_state1 /\
  exists s', removeBackend "backend_5" demo_state1 = Ok s' /\
    (forall l', l' ∈ backends s' <-> l' ∈ backends demo_state1 /\ l' <> 1%N) /\
    activeBackendId s' = local_id.
Proof.
  assert (wf demo_state1) as Hwf by (apply addBackend_wf, initial_state_inv).
  split; [exact Hwf|].
  pose proof (removeBackend_spec "backend_5" demo_state1 Hwf) as H.
  destruct (removeBackend "backend_5" demo_state1) as [s'|e] eqn:Hr.
  - exists s'. split; [reflexivity|]. destruct H as (_ & _ & _ & Hm & Ha).
    split; [exact Hm | exact Ha].
  - discriminate Hr.
Defined.

(** C5: removing the active instance re-points [activeBackendId] to the
    local instance but does not flag it: afterwards no instance of the
    registry has [isActive = true].  The spec says the local instance is
    re-activated and exactly one instance is active at all times. *)
Theorem removeBackend_active_unflags s :
  registry_inv s -> activeBackendId s <> local_id ->
  exists s', removeBackend (activeBackendId s) s = Ok s' /\
             activeBackendId s' = local_id /\ is_Some (activeBackend s') /\
             active_count s' = 0.
Proof.
  intros Hinv Hi. pose proof Hinv as [Hwf _ [l Hact] Hflag].
  assert (find_index s (activeBackendId s) = Some (default 0 (find_index s (activeBackendId s)))) as Hidx.
  { destruct (find_index s _) eqn:E; [done|]. apply find_index_None in E.
    unfold activeBackend in Hact. congruence. }
  set (idx := default 0 _) in Hidx.
  destruct (find_index_Some _ _ _ Hidx) as (l' & Hl' & Hf).
  unfold activeBackend in Hact. rewrite Hact in Hf. injection Hf as <-.
  eexists. split; [apply (removeBackend_found _ _ Hi idx Hidx)|].
  split; [by rewrite removed_active, String.eqb_refl|].
  split.
  - pose proof (removeBackend_found_inv _ _ Hwf Hi idx l Hl' Hact Hinv) as [_ _ Hres _]. exact Hres.
  - unfold active_count. rewrite filter_none; [done|].
    intros y Hy Hfy. apply (removeBackend_members _ _ Hwf idx l Hl') in Hy as [Hy Hne].
    pose proof (Hflag y Hy Hfy) as Hy'. unfold activeBackend in Hy'. congruence.
Qed.

Lemma removeBackend_active_unflags_witness :
  let s := fst (switchBackend "backend_5"
                  (fst (addBackend 5 (demo_descriptor "A" "http://a") (initial_state "http://x")))) in
  registry_inv s /\ activeBackendId s <> local_id /\
  exists s', removeBackend (activeBackendId s) s = Ok s' /\ active_count s' = 0.
Proof.
  simpl.
  assert (registry_inv (fst (switchBackend "backend_5"
                  (fst (addBackend 5 (demo_descriptor "A" "http://a") (initial_state "http://x")))))) as Hinv.
  { apply switchBackend_preserves_inv, addBackend_preserves_inv, initial_state_inv. }
  assert (activeBackendId (fst (switchBackend "backend_5"
                  (fst (addBackend 5 (demo_descriptor "A" "http://a") (initial_state "http://x"))))) <> local_id)
    as Hne by discriminate.
  split; [exact Hinv|]. split; [exact Hne|].
  destruct (removeBackend_active_unflags _ Hinv Hne) as (s' & Hr & _ & _ & Hc).
  exists s'. split; [exact Hr | exact Hc].
Defined.

(** C6: [addBackend] allocates a fresh object built from the descriptor
    (id [backend_<now>], name defaulting to ["未命名实例"], password and
    description defaulting to [""], not active, not connected, never
    connected), appends its reference at the end of the array, returns
    that reference, and leaves the other objects and the selection as
    they were. *)
Theorem addBackend_spec now d s :
  wf s ->
  let '(s', l) := addBackend now d s in
  backends s' = backends s ++ [l] /\ (l ∉ backends s) /\
  heap s' !! l = Some (new_backend now d) /\
  (forall l', l' ∈ backends s -> heap s' !! l' = heap s !! l') /\
  activeBackendId s' = activeBackendId s /\ wf s'.
Proof.
  intros Hwf. pose proof (addBackend_fresh now d s Hwf) as [Hnin _].
  pose proof (addBackend_wf now d s Hwf) as Hwf'.
  pose proof (addBackend_new_obj now d s) as Hnew.
  assert (forall l', l' ∈ backends s -> heap (fst (addBackend now d s)) !! l' = heap s !! l') as Hold
    by (intros l' Hl'; apply addBackend_old, (wf_alloc _ Hwf); done).
  simpl in *. split; [done|]. split; [exact Hnin|]. split; [exact Hnew|].
  split; [exact Hold|]. split; [done | exact Hwf'].
Qed.

Lemma addBackend_spec_witness :
  wf (initial_state "http://x") /\
  heap (fst (addBackend 5 (demo_descriptor "A" "") (initial_state "http://x"))) !! 1%N =
    Some (mkBackend "backend_5" "A" (Some "") "" false false None "").
Proof.
  assert (wf (initial_state "http://x")) as Hwf by apply initial_state_inv.
  split; [exact Hwf|].
  pose proof (addBackend_spec 5 (demo_descriptor "A" "") _ Hwf) as (_ & _ & Hnew & _).
  exact Hnew.
Defined.

(** C7: ids generated in the same millisecond collide: two
    [addBackend] calls with the same [Date.now()] leave two instances
    with the same id in the registry, although the spec requires ids to
    be unique. *)
Theorem addBackend_same_instant_duplicate now d1 d2 s :
  wf s ->
  ~ NoDup (registry_ids (fst (addBackend now d2 (fst (addBackend now d1 s))))).
Proof.
  intros Hwf. rewrite (addBackend_registry_ids now d2) by (by apply addBackend_wf).
  rewrite (addBackend_registry_ids now d1) by done.
  rewrite <-app_assoc. simpl. intros Hnd. apply NoDup_app in Hnd as (_ & _ & Hnd).
  apply NoDup_cons in Hnd as [Hin _]. set_solver.
Qed.

Lemma addBackend_same_instant_duplicate_witness :
  wf (initial_state "http://x") /\
  ~ NoDup (registry_ids (fst (addBackend 9 (demo_descriptor "B" "http://b")
                              (fst (addBackend 9 (demo_descriptor "A" "http://a") (initial_state "http://x")))))).
Proof.
  assert (wf (initial_state "http://x")) as Hwf by apply initial_state_inv.
  split; [exact Hwf | apply (addBackend_same_instant_duplicate 9 _ _ _ Hwf)].
Defined.

(** C8: [updateBackend] merges the patch into the first instance with
    the id, through its reference, and changes no other object, the
    array or the selection. *)
Theorem updateBackend_merges i p s l b :
  find_backend s i = Some l -> heap s !! l = Some b ->
  heap (updateBackend i p s) !! l = Some (assign b p) /\
  (forall l', l' <> l -> heap (updateBackend i p s) !! l' = heap s !! l') /\
  backends (updateBackend i p s) = backends s /\
  activeBackendId (updateBackend i p s) = activeBackendId s.
Proof. apply updateBackend_found. Qed.

Lemma updateBackend_merges_witness :
  find_backend demo_state1 "backend_5" = Some 1%N /\
  heap demo_state1 !! 1%N = Some (new_backend 5 (demo_descriptor "A" "http://a")) /\
  heap (updateBackend "backend_5" (mkPatch None (Some "A2") None None None None None None) demo_state1) !! 1%N =
    Some (assign (new_backend 5 (demo_descriptor "A" "http://a"))
            (mkPatch None (Some "A2") None None None None None None)).
Proof.
  assert (find_backend demo_state1 "backend_5" = Some 1%N) as Hf by reflexivity.
  assert (heap demo_state1 !! 1%N = Some (new_backend 5 (demo_descriptor "A" "http://a"))) as Hb
    by reflexivity.
  split; [exact Hf|]. split; [exact Hb|].
  apply (updateBackend_merges _ _ _ _ _ Hf Hb).
Defined.

(** C9: [Object.assign] lets a patch rename the local instance.  In
    any state satisfying the registry invariant whose ids are unique,
    [updateBackend('local', p)] with a patch naming an [id] other than
    [local] leaves no instance with the id [local]: the invariant the
    spec requires (the local instance is always present) is broken. *)
Theorem updateBackend_renames_local p s x :
  registry_inv s -> NoDup (registry_ids s) -> p_id p = Some x -> x <> local_id ->
  find_backend (updateBackend local_id p s) local_id = None /\
  ~ registry_inv (updateBackend local_id p s).
Proof.
  intros Hinv Hnd Hp Hx. pose proof (inv_wf _ Hinv) as Hwf.
  destruct (inv_local _ Hinv) as (l & Hl & Hid).
  destruct (proj2 (find_backend_is_Some s local_id) (ex_intro _ l (conj Hl Hid))) as [l0 Hf].
  destruct (find_backend_Some _ _ _ Hf) as [Hl0 Hid0].
  destruct (heap s !! l0) as [b|] eqn:Hb; [|by unfold has_id, id_at in Hid0; rewrite Hb in Hid0].
  destruct (updateBackend_found _ p _ _ _ Hf Hb) as (Hnew & Hold & Hbs & _).
  assert (find_backend (updateBackend local_id p s) local_id = None) as Hnone.
  { apply find_backend_None. rewrite Hbs. intros l' Hl' Hid'. unfold has_id, id_at in Hid'.
    destruct (decide (l' = l0)) as [->|Hne].
    - rewrite Hnew in Hid'. simpl in Hid'. rewrite Hp in Hid'. simpl in Hid'. congruence.
    - rewrite Hold in Hid' by done. by apply Hne, (registry_ids_unique_loc s local_id). }
  split; [done|]. intros Hinv'. destruct (inv_local _ Hinv') as (l' & Hl' & Hid').
  by apply (proj1 (find_backend_None _ _) Hnone l').
Qed.

Lemma updateBackend_renames_local_witness :
  registry_inv demo_state1 /\ NoDup (registry_ids demo_state1) /\
  p_id (mkPatch (Some "x") None None None None None None None) = Some "x" /\ "x" <> local_id /\
  ~ registry_inv (updateBackend local_id (mkPatch (Some "x") None None None None None None None) demo_state1).
Proof.
  assert (registry_inv demo_state1) as Hinv by (apply addBackend_preserves_inv, initial_state_inv).
  assert (NoDup (registry_ids demo_state1)) as Hnd by (apply (bool_decide_unpack _); vm_compute; reflexivity).
  assert (p_id (mkPatch (Some "x") None None None None None None None) = Some "x") as Hp by reflexivity.
  assert ("x" <> local_id) as Hx by discriminate.
  split; [exact Hinv|]. split; [exact Hnd|]. split; [exact Hp|]. split; [exact Hx|].
  exact (proj2 (updateBackend_renames_local _ _ _ Hinv Hnd Hp Hx)).
Defined.
