(* ===== verification/Registry.v ===== *)
(** * The registry as a list of instances, and the refinement

    [ListRegistry] is the contract of the registry written without
    references: the instances in array order and the active id, with
    [add], [remove], [update] and [switch] acting on the list by index
    the way lines 33-89 of [backend.js] act on [backends.value].  The
    abstraction [abs] reads a heap state [Store.State] as such a list
    (the objects its references point to, in order), and the refinement
    theorems show that every operation of [Store] commutes with [abs] on
    well-formed states: the reference-level model computes exactly what
    the list-level contract says. *)

From S2P Require Import Prelude Js Backend Store.

Open Scope string_scope.
Open Scope list_scope.

Module ListRegistry.

Record AState := mkAState {
  objs : list Backend;
  active : string
}.

(** [backends.value.find]/[findIndex] on the list. *)
Definition a_find (a : AState) (i : string) : option (nat * Backend) :=
  list_find (fun b => id b = i) (objs a).

Definition current (a : AState) : option Backend := snd <$> a_find a (active a).

Definition add (now : N) (d : Descriptor) (a : AState) : AState :=
  mkAState (objs a ++ [new_backend now d]) (active a).

Definition remove (i : string) (a : AState) : Res AState :=
  if String.eqb i local_id then Throw ExnRemoveLocal
  else match a_find a i with
       | Some (k, _) =>
           Ok (mkAState (delete k (objs a))
                 (if String.eqb (active a) i then local_id else active a))
       | None => Ok a
       end.

Definition update (i : string) (p : Patch) (a : AState) : AState :=
  match a_find a i with
  | Some (k, b) => mkAState (<[k := assign b p]> (objs a)) (active a)
  | None => a
  end.

(** Every instance cleared, the [k]-th set. *)
Definition switch (i : string) (a : AState) : AState * bool :=
  match a_find a i with
  | Some (k, _) =>
      (mkAState (imap (fun j b => set_isActive (bool_decide (j = k)) b) (objs a)) i, true)
  | None => (a, false)
  end.

Definition apply_op (o : RegOp) (a : AState) : AState :=
  match o with
  | OpAdd now d => add now d a
  | OpRemove i => match remove i a with Ok a' => a' | Throw _ => a end
  | OpUpdate i p => update i p a
  | OpSwitch i => fst (switch i a)
  end.

Definition run_ops (os : list RegOp) (a : AState) : AState :=
  foldl (fun a o => apply_op o a) a os.

End ListRegistry.

(** ** The abstraction *)

(** The objects [backends.value] holds, in order. *)
Definition registry_objs (s : State) : list Backend :=
  omap (fun l => heap s !! l) (backends s).

Definition abs (s : State) : ListRegistry.AState :=
  ListRegistry.mkAState (registry_objs s) (activeBackendId s).

Section abstraction.
Implicit Types (h : gmap loc Backend) (ls : list loc).

Lemma registry_objs_lookup s k :
  (forall l, l ∈ backends s -> is_Some (heap s !! l)) ->
  registry_objs s !! k = backends s !! k ≫= fun l => heap s !! l.
Proof. apply lookup_omap_total. Qed.

(** [find] on the objects is [find] on the references, followed by the
    dereference. *)
Lemma list_find_omap h i ls :
  (forall l, l ∈ ls -> is_Some (h !! l)) ->
  list_find (fun b => id b = i) (omap (fun l => h !! l) ls) =
    list_find (has_id h i) ls ≫= fun kl => (fun b => (kl.1, b)) <$> h !! kl.2.
Proof.
  induction ls as [|l ls IH]; intros Ha; [done|].
  destruct (Ha l) as [b Hb]; [set_solver|]. simpl. rewrite Hb. simpl.
  assert (has_id h i l <-> id b = i) as Hid.
  { unfold has_id, id_at. rewrite Hb. simpl. split; congruence. }
  destruct (decide (id b = i)) as [Hi|Hi].
  - rewrite decide_True by (by apply Hid). simpl. by rewrite Hb.
  - rewrite decide_False by (by rewrite Hid).
    change (list_omap loc Backend (fun l0 => h !! l0) ls) with (omap (fun l0 => h !! l0) ls).
    rewrite IH by set_solver.
    destruct (list_find (has_id h i) ls) as [[k l']|]; simpl; [|done].
    by destruct (h !! l').
Qed.

Lemma a_find_abs s i :
  wf s ->
  ListRegistry.a_find (abs s) i =
    list_find (has_id (heap s) i) (backends s) ≫= fun kl => (fun b => (kl.1, b)) <$> heap s !! kl.2.
Proof. intros Hwf. apply list_find_omap, (wf_alloc _ Hwf). Qed.

(** A write to one object of the array is a write at its index. *)
Lemma omap_alter (f : Backend -> Backend) h ls k l b :
  (forall l', l' ∈ ls -> is_Some (h !! l')) -> NoDup ls -> ls !! k = Some l -> h !! l = Some b ->
  omap (fun l' => alter f l h !! l') ls = <[k := f b]> (omap (fun l' => h !! l') ls).
Proof.
  intros Ha Hnd Hk Hb.
  assert (forall l', l' ∈ ls -> is_Some (alter f l h !! l')) as Ha'.
  { intros l' Hl'. rewrite is_Some_alter. by apply Ha. }
  assert (omap (fun l' => h !! l') ls !! k = Some b) as Hk'.
  { rewrite lookup_omap_total by done. by rewrite Hk. }
  apply list_eq. intros j. destruct (decide (j = k)) as [->|Hjk].
  - rewrite list_lookup_insert_eq by (eapply lookup_lt_Some; exact Hk').
    rewrite lookup_omap_total by done.
    rewrite Hk. simpl. by rewrite lookup_alter_eq, Hb.
  - rewrite list_lookup_insert_ne by congruence.
    rewrite !lookup_omap_total by done.
    destruct (ls !! j) as [l'|] eqn:Hj; simpl; [|done].
    rewrite lookup_alter_ne; [done|]. intros Heq. subst l'.
    by apply Hjk, (NoDup_lookup ls j k l).
Qed.
End abstraction.

(** ** Every operation commutes with the abstraction *)

(** From [list_find (has_id h i) (backends s) = Some (k, l)]: the index
    [Hk : backends s !! k = Some l] and, on a well-formed state, the
    object [Hb : heap s !! l = Some b]. *)
Tactic Notation "deref_found" hyp(Hf) constr(Hwf) ident(Hk) ident(b) ident(Hb) :=
  apply list_find_Some in Hf as (Hk & _ & _);
  destruct (wf_alloc _ Hwf _ (list_elem_of_lookup_2 _ _ _ Hk)) as [b Hb].

Section refinement.
Context (s : State) (Hwf : wf s).

Lemma abs_addBackend now d : abs (fst (addBackend now d s)) = ListRegistry.add now d (abs s).
Proof.
  unfold abs, ListRegistry.add, registry_objs. simpl. f_equal.
  rewrite omap_app. f_equal.
  - apply omap_ext_in. intros l Hl.
    apply (addBackend_old now d s Hwf), (wf_alloc _ Hwf), Hl.
  - simpl. by rewrite lookup_insert_eq.
Qed.

Lemma abs_removeBackend i : abs <$> removeBackend i s = ListRegistry.remove i (abs s).
Proof.
  unfold removeBackend, ListRegistry.remove. destruct (String.eqb i local_id); [done|].
  unfold find_index. rewrite a_find_abs by done.
  destruct (list_find (has_id (heap s) i) (backends s)) as [[k l]|] eqn:Hf; simpl; [|done].
  deref_found Hf Hwf Hk b Hb.
  rewrite Hb. simpl. unfold abs, registry_objs. simpl. do 3 f_equal.
  apply omap_delete, (wf_alloc _ Hwf).
Qed.

Lemma abs_updateBackend i p : abs (updateBackend i p s) = ListRegistry.update i p (abs s).
Proof.
  unfold updateBackend, ListRegistry.update, find_backend. rewrite a_find_abs by done.
  destruct (list_find (has_id (heap s) i) (backends s)) as [[k l]|] eqn:Hf; simpl; [|done].
  deref_found Hf Hwf Hk b Hb.
  rewrite Hb. simpl. unfold abs, registry_objs. simpl. f_equal.
  apply (omap_alter (fun b => assign b p) _ _ _ l); [apply (wf_alloc _ Hwf) | apply (wf_nodup _ Hwf) | done | done].
Qed.

Lemma abs_switchBackend i : abs (fst (switchBackend i s)) = fst (ListRegistry.switch i (abs s)).
Proof.
  unfold ListRegistry.switch. rewrite a_find_abs by done.
  destruct (list_find (has_id (heap s) i) (backends s)) as [[k l]|] eqn:Hf; simpl.
  2: { unfold switchBackend, find_backend. by rewrite Hf. }
  assert (find_backend s i = Some l) as Hfind by (unfold find_backend; by rewrite Hf).
  deref_found Hf Hwf Hk b Hb.
  rewrite Hb, (switchBackend_found i s l Hfind). simpl. unfold abs. f_equal.
  apply list_eq. intros j.
  rewrite list_lookup_imap, !registry_objs_lookup
    by (apply (wf_alloc _ Hwf) || apply (wf_alloc _ (switched_wf i s l Hwf))).
  simpl. destruct (backends s !! j) as [l'|] eqn:Hj; simpl; [|done].
  rewrite (switched_lookup i s l Hfind).
  destruct (decide (l' = l)) as [->|Hne].
  - rewrite (NoDup_lookup _ j k l (wf_nodup _ Hwf) Hj Hk), Hb. simpl. by rewrite bool_decide_true.
  - rewrite decide_True by (by eapply list_elem_of_lookup_2).
    destruct (heap s !! l'); simpl; [|done].
    rewrite bool_decide_false; [done|]. intros ->. congruence.
Qed.
End refinement.

(** A write through one reference keeps the heap well formed. *)
Lemma with_heap_alter_wf (f : Backend -> Backend) l s : wf s -> wf (with_heap (alter f l) s).
Proof.
  intros [Ha Hf Hnd]. split; simpl; [| | done]; intros l'; rewrite is_Some_alter; auto.
Qed.

Lemma apply_op_wf o s : wf s -> wf (apply_op o s).
Proof.
  intros Hwf. destruct o as [now d|i|i p|i]; simpl.
  - by apply addBackend_wf.
  - unfold removeBackend. destruct (String.eqb i local_id); [done|].
    destruct (find_index s i) as [k|]; [|done].
    destruct Hwf as [Ha Hf Hnd]. split; simpl; [| done | by apply NoDup_delete].
    intros l Hl. by apply Ha, (list_elem_of_delete_inv _ k).
  - unfold updateBackend. destruct (find_backend s i) as [l|]; [|done].
    by apply with_heap_alter_wf.
  - unfold switchBackend. destruct (find_backend s i) as [l|] eqn:Hf; [|done].
    by apply (switched_wf i s l).
Qed.

Lemma run_ops_wf os s : wf s -> wf (run_ops os s).
Proof.
  revert s. induction os as [|o os IH]; intros s Hwf; [done|]. simpl. by apply IH, apply_op_wf.
Qed.

Lemma abs_apply_op o s : wf s -> abs (apply_op o s) = ListRegistry.apply_op o (abs s).
Proof.
  intros Hwf. destruct o as [now d|i|i p|i]; simpl.
  - by apply abs_addBackend.
  - rewrite <-(abs_removeBackend s Hwf i). by destruct (removeBackend i s).
  - by apply abs_updateBackend.
  - by apply abs_switchBackend.
Qed.

(** The list-level view of [activeBackend]. *)
Lemma abs_current s : wf s -> ListRegistry.current (abs s) = activeBackend_obj s.
Proof.
  intros Hwf. unfold ListRegistry.current, activeBackend_obj, activeBackend, find_backend.
  rewrite a_find_abs by done. simpl.
  destruct (list_find _ (backends s)) as [[k l]|]; simpl; [|done].
  by destruct (heap s !! l).
Qed.

Lemma registry_ids_objs s : registry_ids s = id <$> registry_objs s.
Proof.
  unfold registry_ids, registry_objs, id_at.
  induction (backends s) as [|l ls IH]; [done|]. simpl.
  destruct (heap s !! l); simpl; [f_equal|]; apply IH.
Qed.

(** The flagged instances, counted on the list the array refers to. *)
Lemma active_count_objs s :
  wf s -> active_count s = length (filter (fun b => isActive b = true) (registry_objs s)).
Proof.
  intros Hwf. unfold active_count, registry_objs. pose proof (wf_alloc _ Hwf) as Hal.
  revert Hal. generalize (backends s) as ls. intros ls.
  induction ls as [|l ls IH]; intros Hal; [done|].
  destruct (Hal l) as [b Hb]; [set_solver|]. specialize (IH ltac:(set_solver)).
  change (omap (fun l0 => heap s !! l0) (l :: ls)) with
    (match heap s !! l with
     | Some b => b :: omap (fun l0 => heap s !! l0) ls
     | None => omap (fun l0 => heap s !! l0) ls
     end).
  rewrite Hb, !filter_cons.
  assert (flagged (heap s) l <-> isActive b = true) as Hf.
  { unfold flagged. rewrite Hb. simpl. split; [congruence | by intros ->]. }
  repeat case_decide; simpl; rewrite ?IH; try done; naive_solver.
Qed.

Lemma elem_of_registry_ids s i :
  i ∈ registry_ids s <-> exists l, l ∈ backends s /\ has_id (heap s) i l.
Proof. unfold registry_ids, has_id. by rewrite list_elem_of_omap. Qed.

Lemma find_backend_None_ids s i : find_backend s i = None <-> i ∉ registry_ids s.
Proof. rewrite find_backend_None, elem_of_registry_ids. naive_solver. Qed.

(** [switch] changes flags only. *)
Lemma switch_ids i a :
  id <$> ListRegistry.objs (fst (ListRegistry.switch i a)) = id <$> ListRegistry.objs a.
Proof.
  unfold ListRegistry.switch. destruct (ListRegistry.a_find a i) as [[k b]|]; [|done].
  simpl. apply list_eq. intros j.
  rewrite !list_lookup_fmap, list_lookup_imap. by destruct (ListRegistry.objs a !! j).
Qed.

(** ** The refinement theorem *)

(** C23: On a well-formed state, any sequence of registry operations
    ([addBackend], [removeBackend] with its throw swallowed,
    [updateBackend], [switchBackend]) run on the reference-level model
    gives, read as a list of objects with the active id, exactly what the
    list-level contract [ListRegistry] computes: the store's code
    implements the list semantics, aliasing included. *)
Theorem run_ops_refines os s :
  wf s -> abs (run_ops os s) = ListRegistry.run_ops os (abs s).
Proof.
  revert s. induction os as [|o os IH]; intros s Hwf; [done|]. simpl.
  rewrite IH by (by apply apply_op_wf). by rewrite abs_apply_op.
Qed.

Lemma run_ops_refines_witness :
  wf (initial_state "http://x") /\
  abs (run_ops demo_ops (initial_state "http://x")) =
    ListRegistry.run_ops demo_ops (abs (initial_state "http://x")).
Proof.
  assert (wf (initial_state "http://x")) as Hwf by apply (inv_wf _ (initial_state_inv _)).
  split; [exact Hwf | apply (run_ops_refines demo_ops _ Hwf)].
Defined.
