(* ===== verification/Probe.v ===== *)
(** * The probe: [testBackendConnection] and [testAllConnections]

    [testBackendConnection] (lines 92-119) runs in two steps separated by
    its [await fetch(...)]: before it, the lookup by id (which throws for
    an unknown id) and the request; after it, writes through the object
    reference captured before the [await].  Other code of the page may
    run while the request is in flight.

    [testAllConnections] (lines 122-131) starts one probe per instance in
    array order, waits for all of them ([Promise.allSettled]) and tags
    the i-th result with the id of the i-th instance of the array *at
    that later time*.  Its settle events are modelled as a schedule: the
    completions of the started probes in any order, interleaved with
    other registry operations. *)

From S2P Require Import Prelude Js Backend Store.

Open Scope string_scope.
Open Scope list_scope.

(** ** One probe *)

(** The object [testBackendConnection] returns. *)
Record ProbeResult := mkProbeResult { pr_success : bool; pr_message : string }.

#[export] Instance ProbeResult_eq_dec : EqDecision ProbeResult.
Proof. solve_decision. Defined.

(** The request issued at lines 99-105.  The [Authorization] header is
    always present; it is empty when the instance has no password. *)
Definition probe_request (b : Backend) : Request :=
  {| req_url := js_template (baseUrl b) +:+ "/api/dashboard-data";
     req_method := "GET";
     req_headers := [("Authorization", if js_truthy (password b) then "Bearer " +:+ password b else "");
                     ("Content-Type", "application/json")];
     req_body := None |}.

(** Lines 93-105: the lookup and the request, before the [await]; the
    captured reference is returned with the request. *)
Definition probe_begin (i : string) (s : State) : Res (loc * Request) :=
  match find_backend s i with
  | None => Throw ExnBackendMissing
  | Some l =>
      match heap s !! l with
      | Some b => Ok (l, probe_request b)
      | None => Throw ExnType
      end
  end.

(** Lines 107-118: after the [await], writes through the captured
    reference [l] and the result object. *)
Definition probe_finish (l : loc) (o : FetchOutcome) (stamp : string) (s : State)
    : State * ProbeResult :=
  match o with
  | Responded r =>
      if resp_ok r then
        (with_heap (alter (mark_connected stamp) l) s, mkProbeResult true "连接成功")
      else
        (with_heap (alter mark_disconnected l) s,
         mkProbeResult false ("连接失败: " +:+ pretty (status r)))
  | NetworkFailure m =>
      (with_heap (alter mark_disconnected l) s, mkProbeResult false ("连接错误: " +:+ m))
  end.

(** The whole call when nothing else runs during the [await]. *)
Definition testBackendConnection (i : string) (o : FetchOutcome) (stamp : string) (s : State)
    : Res (State * ProbeResult) :=
  lr ← probe_begin i s; Ok (probe_finish lr.1 o stamp s).

(** ** All probes *)

(** A settled promise of [Promise.allSettled]. *)
Inductive Settled : Type :=
  | Fulfilled (r : ProbeResult)
  | Rejected (e : Exn).

(** An element of the returned array, [{ backendId, ...result.value }]:
    a rejected promise has no [value], so it contributes only the id. *)
Record Tagged := mkTagged { t_backendId : string; t_result : option ProbeResult }.

#[export] Instance Tagged_eq_dec : EqDecision Tagged.
Proof. solve_decision. Defined.

Definition settled_value (r : Settled) : option ProbeResult :=
  match r with Fulfilled v => Some v | Rejected _ => None end.

(** Line 124, synchronous: [backends.value.map(backend =>
    testBackendConnection(backend.id))] runs the first step of every
    probe in array order; each looks its id up again. *)
Definition all_begin (s : State) : list (Res (loc * Request)) :=
  map (fun l => match id_at (heap s) l with
                | Some i => probe_begin i s
                | None => Throw ExnType
                end) (backends s).

(** The probes in flight: the store's state and, per probe, its settled
    promise once it has settled.  A probe whose first step threw is
    rejected from the start (an [async] function that throws before its
    first [await] returns a rejected promise). *)
Record Flight := mkFlight { fl_state : State; fl_settled : list (option Settled) }.

Definition flight_start (s : State) (begins : list (Res (loc * Request))) : Flight :=
  mkFlight s (map (fun b => match b with Throw e => Some (Rejected e) | Ok _ => None end) begins).

(** What may happen while the probes are in flight: the k-th probe's
    [fetch] settles and its continuation runs, or another registry
    operation runs. *)
Inductive ProbeEvent : Type :=
  | Settle (k : nat)
  | Interleave (o : RegOp).

#[export] Instance ProbeEvent_eq_dec : EqDecision ProbeEvent.
Proof. solve_decision. Defined.

(** A promise settles once: a [Settle k] for a probe that has already
    settled does nothing. *)
Definition step_event (begins : list (Res (loc * Request))) (outs : list (FetchOutcome * string))
    (f : Flight) (e : ProbeEvent) : Flight :=
  match e with
  | Settle k =>
      match begins !! k, outs !! k, fl_settled f !! k with
      | Some (Ok lr), Some ot, Some None =>
          let sr := probe_finish lr.1 ot.1 ot.2 (fl_state f) in
          mkFlight sr.1 (<[k := Some (Fulfilled sr.2)]> (fl_settled f))
      | _, _, _ => f
      end
  | Interleave o => mkFlight (apply_op o (fl_state f)) (fl_settled f)
  end.

(** Lines 127-130: [results.map((result, index) => ({ backendId:
    backends.value[index].id, ...result.value }))], evaluated on the
    registry as it is once every probe has settled; reading [.id] of a
    missing element throws a [TypeError]. *)
Fixpoint tag_results (s : State) (idx : nat) (rs : list Settled) : Res (list Tagged) :=
  match rs with
  | [] => Ok []
  | r :: rs' =>
      match backends s !! idx ≫= id_at (heap s) with
      | Some i => ts ← tag_results s (S idx) rs'; Ok (mkTagged i (settled_value r) :: ts)
      | None => Throw ExnType
      end
  end.

(** [testAllConnections] with the fetch outcome (and time stamp) of each
    probe in array order and a schedule of events.  It returns the state
    after the schedule and, when every probe has settled, the outcome of
    the returned promise ([None]: still pending). *)
Definition testAllConnections (outs : list (FetchOutcome * string)) (sched : list ProbeEvent)
    (s : State) : State * option (Res (list Tagged)) :=
  let begins := all_begin s in
  let f := foldl (step_event begins outs) (flight_start s begins) sched in
  (fl_state f,
   match mapM (fun x => x) (fl_settled f) with
   | Some rs => Some (tag_results (fl_state f) 0 rs)
   | None => None
   end).

(** ** The two effects of a probe's continuation *)

(** The write the continuation performs and the result it returns, as
    functions of the fetch outcome. *)
Definition probe_write (o : FetchOutcome) (stamp : string) : Backend -> Backend :=
  match o with
  | Responded r => if resp_ok r then mark_connected stamp else mark_disconnected
  | NetworkFailure _ => mark_disconnected
  end.

Definition outcome_result (o : FetchOutcome) : ProbeResult :=
  match o with
  | Responded r =>
      if resp_ok r then mkProbeResult true "连接成功"
      else mkProbeResult false ("连接失败: " +:+ pretty (status r))
  | NetworkFailure m => mkProbeResult false ("连接错误: " +:+ m)
  end.

Lemma probe_finish_split l o stamp s :
  probe_finish l o stamp s = (with_heap (alter (probe_write o stamp) l) s, outcome_result o).
Proof. destruct o as [r|m]; simpl; [destruct (resp_ok r)|]; done. Qed.

Lemma probe_write_reg_key o stamp b : reg_key (probe_write o stamp b) = reg_key b.
Proof. destruct o as [r|m]; simpl; [destruct (resp_ok r)|]; done. Qed.

(** A probe's continuation is invisible to the registry invariant. *)
Lemma probe_finish_equiv l o stamp s : fst (probe_finish l o stamp s) ≃ s.
Proof. rewrite probe_finish_split. apply with_heap_alter_equiv, probe_write_reg_key. Qed.

Lemma probe_finish_backends l o stamp s : backends (fst (probe_finish l o stamp s)) = backends s.
Proof. by rewrite probe_finish_split. Qed.

Lemma probe_finish_id_at l o stamp s l' :
  id_at (heap (fst (probe_finish l o stamp s))) l' = id_at (heap s) l'.
Proof. rewrite probe_finish_split. apply id_at_alter. intros b. apply (f_equal fst (probe_write_reg_key o stamp b)). Qed.

#[export] Hint Rewrite probe_finish_backends probe_finish_id_at : backend_rw.

(** ** The first step of every probe *)

(** Under well-formedness every probe starts: the instance's own id
    finds an object (the first one with that id). *)
Lemma all_begin_ok s k l :
  wf s -> backends s !! k = Some l ->
  exists l' b, all_begin s !! k = Some (Ok (l', probe_request b)) /\
    heap s !! l' = Some b /\ find_backend s (default "" (id_at (heap s) l)) = Some l'.
Proof.
  intros Hwf Hk. unfold all_begin. rewrite list_lookup_fmap, Hk. simpl.
  assert (l ∈ backends s) as Hl by (by eapply list_elem_of_lookup_2).
  destruct (wf_alloc _ Hwf l Hl) as [b0 Hb0].
  unfold id_at at 1. rewrite Hb0. simpl.
  assert (is_Some (find_backend s (id b0))) as [l' Hl'].
  { apply find_backend_is_Some. exists l. split; [done|]. unfold has_id, id_at. by rewrite Hb0. }
  pose proof (find_backend_Some _ _ _ Hl') as [Hl'in _].
  destruct (wf_alloc _ Hwf l' Hl'in) as [b Hb].
  exists l', b. unfold probe_begin. rewrite Hl', Hb. split; [done|]. split; [done|].
  unfold id_at. by rewrite Hb0.
Qed.

(** With unique ids, each instance's probe captures that instance. *)
Lemma all_begin_own s k l :
  wf s -> NoDup (registry_ids s) -> backends s !! k = Some l ->
  exists b, all_begin s !! k = Some (Ok (l, probe_request b)) /\ heap s !! l = Some b.
Proof.
  intros Hwf Hnd Hk. destruct (all_begin_ok s k l Hwf Hk) as (l' & b & Hbeg & Hb & Hf).
  enough (l' = l) as -> by eauto.
  apply find_backend_Some in Hf as [Hl' Hid'].
  apply list_elem_of_lookup in Hl' as [j Hj].
  assert (j = k) as ->.
  { apply (NoDup_lookup (registry_ids s) j k (default "" (id_at (heap s) l))); [done| |].
    - rewrite registry_ids_lookup, Hj by done. simpl. rewrite Hid'.
      unfold id_at. destruct (wf_alloc _ Hwf l) as [b0 Hb0]; [by eapply list_elem_of_lookup_2|].
      by rewrite Hb0.
    - rewrite registry_ids_lookup, Hk by done. simpl.
      unfold id_at. destruct (wf_alloc _ Hwf l) as [b0 Hb0]; [by eapply list_elem_of_lookup_2|].
      by rewrite Hb0. }
  congruence.
Qed.

(** ** Flights *)

Definition settle_only (sched : list ProbeEvent) : Prop :=
  Forall (fun e => exists k, e = Settle k) sched.

Definition settled_at (f : Flight) (k : nat) : Prop := exists r, fl_settled f !! k = Some (Some r).

Section flight.
Context (begins : list (Res (loc * Request))) (outs : list (FetchOutcome * string)).

Lemma step_settle_state f k :
  fl_state (step_event begins outs f (Settle k)) = fl_state f \/
  exists l ot, fl_state (step_event begins outs f (Settle k)) = fst (probe_finish l ot.1 ot.2 (fl_state f)).
Proof.
  simpl. destruct (begins !! k) as [[lr|]|], (outs !! k) as [ot|], (fl_settled f !! k) as [[]|];
    simpl; eauto.
Qed.

(** Settle events change neither the array nor any object's id. *)
Lemma settle_fold_registry f sched :
  settle_only sched ->
  backends (fl_state (foldl (step_event begins outs) f sched)) = backends (fl_state f) /\
  (forall l, id_at (heap (fl_state (foldl (step_event begins outs) f sched))) l = id_at (heap (fl_state f)) l).
Proof.
  revert f. induction sched as [|e sched IH]; intros f Hs; [done|].
  apply Forall_cons in Hs as [[k ->] Hs]. cbn [foldl].
  destruct (IH (step_event begins outs f (Settle k)) Hs) as [IHb IHi].
  rewrite IHb. setoid_rewrite IHi.
  destruct (step_settle_state f k) as [-> | (l & ot & ->)];
    split; try intros l'; try done; by autorewrite with backend_rw.
Qed.

Lemma step_settled_mono f e k : settled_at f k -> settled_at (step_event begins outs f e) k.
Proof.
  intros [r Hr]. destruct e as [k'|o]; simpl; [|by exists r].
  destruct (begins !! k') as [[lr|]|], (outs !! k') as [ot|], (fl_settled f !! k') as [[]|] eqn:Hk';
    simpl; try by exists r.
  destruct (decide (k = k')) as [->|Hne]; [congruence|].
  exists r. unfold settled_at. simpl. by rewrite list_lookup_insert_ne.
Qed.

Lemma fold_settled_mono f sched k :
  settled_at f k -> settled_at (foldl (step_event begins outs) f sched) k.
Proof.
  revert f. induction sched as [|e sched IH]; intros f Hf; [done|].
  simpl. apply IH, step_settled_mono, Hf.
Qed.

Lemma step_length f e : length (fl_settled (step_event begins outs f e)) = length (fl_settled f).
Proof.
  destruct e as [k|o]; simpl; [|done].
  destruct (begins !! k) as [[lr|]|], (outs !! k) as [ot|], (fl_settled f !! k) as [[]|];
    simpl; rewrite ?length_insert; done.
Qed.

Lemma fold_length f sched :
  length (fl_settled (foldl (step_event begins outs) f sched)) = length (fl_settled f).
Proof.
  revert f. induction sched as [|e sched IH]; intros f; [done|]. simpl. by rewrite IH, step_length.
Qed.

(** Every scheduled probe that started settles. *)
Lemma fold_settles f sched k lr :
  Settle k ∈ sched -> begins !! k = Some (Ok lr) -> is_Some (outs !! k) ->
  k < length (fl_settled f) ->
  settled_at (foldl (step_event begins outs) f sched) k.
Proof.
  revert f. induction sched as [|e sched IH]; intros f Hin Hb [ot Ho] Hk; [set_solver|].
  simpl. apply elem_of_cons in Hin as [<-|Hin]; [|apply IH; [done|done|by eexists|by rewrite step_length]].
  apply fold_settled_mono. simpl. rewrite Hb, Ho.
  destruct (lookup_lt_is_Some_2 (fl_settled f) k Hk) as [[r|] Hs]; rewrite Hs.
  - by exists r.
  - eexists. simpl. by apply list_lookup_insert_eq.
Qed.

(** A settled slot holds the result its outcome determines. *)
Definition slots_ok (f : Flight) : Prop :=
  forall k r, fl_settled f !! k = Some (Some r) ->
  exists ot, outs !! k = Some ot /\ r = Fulfilled (outcome_result ot.1).

Lemma fold_slots_ok f sched : slots_ok f -> slots_ok (foldl (step_event begins outs) f sched).
Proof.
  revert f. induction sched as [|e sched IH]; intros f Hf; [done|].
  simpl. apply IH. intros k r. destruct e as [k'|o]; simpl; [|apply Hf].
  destruct (begins !! k') as [[lr|]|], (outs !! k') as [ot|] eqn:Ho,
    (fl_settled f !! k') as [[]|] eqn:Hs; simpl; try apply Hf.
  rewrite probe_finish_split. simpl.
  destruct (decide (k = k')) as [->|Hne].
  - rewrite list_lookup_insert_eq by (by eapply lookup_lt_Some). intros [= <-]. eauto.
  - rewrite list_lookup_insert_ne by done. apply Hf.
Qed.
(** A probe whose [Settle] event never comes stays pending. *)
Lemma fold_unsettled f sched k :
  Settle k ∉ sched -> fl_settled f !! k = Some None ->
  fl_settled (foldl (step_event begins outs) f sched) !! k = Some None.
Proof.
  revert f. induction sched as [|e sched IH]; intros f Hin Hk; [done|].
  apply not_elem_of_cons in Hin as [He Hin]. simpl. apply IH; [done|].
  destruct e as [k'|o]; simpl; [|done].
  destruct (begins !! k') as [[lr|]|], (outs !! k') as [ot|], (fl_settled f !! k') as [[]|];
    simpl; try done.
  rewrite list_lookup_insert_ne; [done|]. intros ->. by apply He.
Qed.
End flight.

Lemma all_begin_length s : length (all_begin s) = length (backends s).
Proof. unfold all_begin. by rewrite length_map. Qed.

Lemma all_begin_all_ok s k b :
  wf s -> all_begin s !! k = Some b -> exists lr, b = Ok lr.
Proof.
  intros Hwf Hk. pose proof (lookup_lt_Some _ _ _ Hk) as Hlt. rewrite all_begin_length in Hlt.
  destruct (lookup_lt_is_Some_2 _ _ Hlt) as [l Hl].
  destruct (all_begin_ok s k l Hwf Hl) as (l' & b' & Hb & _). rewrite Hb in Hk. injection Hk as <-. eauto.
Qed.

(** Tagging reads the ids of the array positions [idx], [idx+1], ... *)
Lemma tag_results_ok s idx rs :
  (forall l, l ∈ backends s -> is_Some (id_at (heap s) l)) ->
  idx + length rs <= length (backends s) ->
  tag_results s idx rs =
    Ok (zip_with (fun i r => mkTagged i (settled_value r)) (drop idx (registry_ids s)) rs).
Proof.
  intros Hdef. revert idx. induction rs as [|r rs IH]; intros idx Hlen; simpl in *.
  - by rewrite zip_with_nil_r.
  - destruct (lookup_lt_is_Some_2 (backends s) idx) as [l Hl]; [lia|].
    destruct (Hdef l) as [i Hi]; [by eapply list_elem_of_lookup_2|].
    rewrite Hl. simpl. rewrite Hi. rewrite IH by lia. simpl.
    rewrite (drop_S _ i idx); [reflexivity|]. unfold registry_ids. rewrite lookup_omap_total by done.
    by rewrite Hl.
Qed.

(** Once the array has fewer elements than there are results, tagging
    throws a [TypeError]. *)
Lemma tag_results_short s idx rs :
  idx <= length (backends s) < idx + length rs -> tag_results s idx rs = Throw ExnType.
Proof.
  revert idx. induction rs as [|r rs IH]; intros idx Hlen; simpl in *; [lia|].
  destruct (backends s !! idx ≫= id_at (heap s)) eqn:E; [|done].
  destruct (decide (idx < length (backends s))) as [Hlt|Hge].
  - rewrite IH by lia. done.
  - exfalso. rewrite lookup_ge_None_2 in E by lia. done.
Qed.

(** When every probe's [Settle] is scheduled, every slot settles. *)
Lemma all_probes_settle outs sched s :
  wf s -> length outs = length (backends s) ->
  (forall k, k < length (backends s) -> Settle k ∈ sched) ->
  forall k, k < length (backends s) ->
  settled_at (foldl (step_event (all_begin s) outs) (flight_start s (all_begin s)) sched) k.
Proof.
  intros Hwf Hlen Hall k Hk. destruct (lookup_lt_is_Some_2 (backends s) k Hk) as [l Hl].
  destruct (all_begin_ok s k l Hwf Hl) as (l' & b & Hb & _).
  eapply fold_settles; [by apply Hall | exact Hb | apply lookup_lt_is_Some_2; lia |].
  simpl. by rewrite length_map, all_begin_length.
Qed.

(** ** Claims about the probe *)

(** C10: when every started probe settles, in whatever order,
    [testAllConnections] resolves to one element per instance, tagged in
    array order with the instance's id and carrying the result its own
    fetch outcome determines, whether that outcome is a response or a
    transport failure. *)
Theorem testAllConnections_all_settled outs sched s :
  wf s -> length outs = length (backends s) -> settle_only sched ->
  (forall k, k < length (backends s) -> Settle k ∈ sched) ->
  snd (testAllConnections outs sched s) =
    Some (Ok (zip_with (fun i ot => mkTagged i (Some (outcome_result ot.1))) (registry_ids s) outs)).
Proof.
  intros Hwf Hlen Hso Hall. unfold testAllConnections. simpl.
  set (begins := all_begin s).
  set (f := foldl (step_event begins outs) (flight_start s begins) sched).
  assert (slots_ok outs f) as Hok.
  { apply fold_slots_ok. intros k r. simpl. rewrite list_lookup_fmap.
    destruct (begins !! k) as [b|] eqn:Hb; simpl; [|done].
    destruct (all_begin_all_ok s k b Hwf Hb) as [lr ->]. done. }
  pose proof (all_probes_settle outs sched s Hwf Hlen Hall) as Hset. fold begins f in Hset.
  assert (mapM (fun x => x) (fl_settled f) =
          Some ((fun ot => Fulfilled (outcome_result ot.1)) <$> outs)) as Hm.
  { assert (length (fl_settled f) = length (backends s)) as Hflen.
    { unfold f. rewrite fold_length. simpl. unfold begins. by rewrite length_map, all_begin_length. }
    apply mapM_Some, Forall2_lookup. intros k. rewrite list_lookup_fmap.
    destruct (decide (k < length (backends s))) as [Hk|Hk].
    - destruct (Hset k Hk) as [r Hr]. rewrite Hr.
      destruct (Hok k r Hr) as (ot & Ho & ->). rewrite Ho. by constructor.
    - rewrite !lookup_ge_None_2 by lia. constructor. }
  rewrite Hm.
  destruct (settle_fold_registry begins outs (flight_start s begins) sched Hso) as [Hb Hid].
  simpl in Hb, Hid. fold f in Hb, Hid.
  rewrite tag_results_ok.
  - rewrite drop_0, zip_with_fmap_r. do 3 f_equal.
    unfold registry_ids. rewrite Hb. apply omap_ext_in. intros l _. apply Hid.
  - intros l Hl. rewrite Hid. rewrite Hb in Hl. unfold id_at.
    destruct (wf_alloc _ Hwf l Hl) as [b ->]. by eexists.
  - rewrite length_fmap, Hb. lia.
Qed.

Lemma testAllConnections_all_settled_witness :
  wf demo_state1 /\
  snd (testAllConnections [(Responded (mkResponse 200 "OK"), "T1"); (NetworkFailure "refused", "T2")]
         [Settle 1; Settle 0] demo_state1) =
    Some (Ok [mkTagged "local" (Some (mkProbeResult true "连接成功"));
              mkTagged "backend_5" (Some (mkProbeResult false "连接错误: refused"))]).
Proof.
  assert (wf demo_state1) as Hwf by (apply addBackend_wf, initial_state_inv).
  split; [exact Hwf|].
  rewrite (testAllConnections_all_settled _ _ _ Hwf); [reflexivity|reflexivity| |].
  - repeat constructor; eauto.
  - intros k Hk. simpl in Hk. destruct k as [|[|k]]; [set_solver|set_solver|lia].
Defined.

(** ** Order of completions *)

(** What the k-th [Settle] does when it is effective: the object it
    writes, the write, and the result it records. *)
Definition settle_write (begins : list (Res (loc * Request))) (outs : list (FetchOutcome * string))
    (slots : list (option Settled)) (k : nat) : option (loc * (Backend -> Backend) * ProbeResult) :=
  match begins !! k, outs !! k, slots !! k with
  | Some (Ok lr), Some ot, Some None => Some (lr.1, probe_write ot.1 ot.2, outcome_result ot.1)
  | _, _, _ => None
  end.

Lemma step_settle_eq begins outs f k :
  step_event begins outs f (Settle k) =
    match settle_write begins outs (fl_settled f) k with
    | Some (l, w, r) => mkFlight (with_heap (alter w l) (fl_state f)) (<[k := Some (Fulfilled r)]> (fl_settled f))
    | None => f
    end.
Proof.
  unfold settle_write. simpl.
  destruct (begins !! k) as [[lr|]|], (outs !! k) as [ot|], (fl_settled f !! k) as [[]|]; try done.
  by rewrite probe_finish_split.
Qed.

Lemma settle_write_insert_ne begins outs slots a b x :
  a <> b -> settle_write begins outs (<[a := x]> slots) b = settle_write begins outs slots b.
Proof. intros Hne. unfold settle_write. by rewrite list_lookup_insert_ne. Qed.

(** Two settle events commute when they write to different objects. *)
Lemma step_settle_comm begins outs f a b :
  (forall la lb ra rb, a <> b -> begins !! a = Some (Ok (la, ra)) -> begins !! b = Some (Ok (lb, rb)) ->
     la <> lb) ->
  step_event begins outs (step_event begins outs f (Settle a)) (Settle b) =
  step_event begins outs (step_event begins outs f (Settle b)) (Settle a).
Proof.
  intros Hdist. destruct (decide (a = b)) as [->|Hne]; [done|].
  rewrite !step_settle_eq.
  destruct (settle_write begins outs (fl_settled f) a) as [[[la wa] ra]|] eqn:Ea,
           (settle_write begins outs (fl_settled f) b) as [[[lb wb] rb]|] eqn:Eb;
    rewrite ?step_settle_eq; simpl;
    rewrite ?settle_write_insert_ne by congruence; rewrite ?Ea, ?Eb; try done.
  assert (la <> lb) as Hl.
  { unfold settle_write in Ea, Eb.
    destruct (begins !! a) as [[[la' ra']|]|] eqn:Ba; try discriminate.
    destruct (begins !! b) as [[[lb' rb']|]|] eqn:Bb; try discriminate.
    destruct (outs !! a), (fl_settled f !! a) as [[]|]; try discriminate.
    destruct (outs !! b), (fl_settled f !! b) as [[]|]; try discriminate.
    simpl in Ea, Eb. injection Ea as -> _ _. injection Eb as -> _ _. eauto. }
  unfold with_heap. simpl. rewrite alter_alter_ne by done. by rewrite list_insert_insert_ne.
Qed.

(** C11: when the registry's ids are unique, the order in which the
    probes of [testAllConnections] complete does not matter: every
    permutation of the settle events yields the same state and the same
    result. *)
Theorem testAllConnections_order_independent outs sched1 sched2 s :
  wf s -> NoDup (registry_ids s) -> settle_only sched1 -> sched1 ≡ₚ sched2 ->
  testAllConnections outs sched1 s = testAllConnections outs sched2 s.
Proof.
  intros Hwf Hnd Hso Hp. unfold testAllConnections.
  rewrite (foldl_permutation _ (fun e => exists k, e = Settle k) sched1 sched2); [done| |done|done].
  intros x y f [a ->] [b ->]. apply step_settle_comm.
  intros la lb ra rb Hne Ha Hb <-.
  assert (forall k r, all_begin s !! k = Some (Ok (la, r)) -> backends s !! k = Some la) as Hown.
  { intros k r Hk. pose proof (lookup_lt_Some _ _ _ Hk) as Hlt. rewrite all_begin_length in Hlt.
    destruct (lookup_lt_is_Some_2 _ _ Hlt) as [l' Hl'].
    destruct (all_begin_own s k l' Hwf Hnd Hl') as (b' & Hk' & _).
    rewrite Hk in Hk'. injection Hk' as -> _. done. }
  apply Hne. eapply NoDup_lookup; [apply Hwf | apply (Hown a ra Ha) | apply (Hown b rb Hb)].
Qed.

Lemma testAllConnections_order_independent_witness :
  wf demo_state1 /\ NoDup (registry_ids demo_state1) /\ settle_only [Settle 0; Settle 1] /\
  testAllConnections [(Responded (mkResponse 200 "OK"), "T1"); (NetworkFailure "refused", "T2")]
    [Settle 0; Settle 1] demo_state1 =
  testAllConnections [(Responded (mkResponse 200 "OK"), "T1"); (NetworkFailure "refused", "T2")]
    [Settle 1; Settle 0] demo_state1.
Proof.
  assert (wf demo_state1) as Hwf by (apply addBackend_wf, initial_state_inv).
  assert (NoDup (registry_ids demo_state1)) as Hnd by (vm_compute; repeat constructor; set_solver).
  assert (settle_only [Settle 0; Settle 1]) as Hso by (repeat constructor; eauto).
  split; [exact Hwf|]. split; [exact Hnd|]. split; [exact Hso|].
  apply (testAllConnections_order_independent _ _ _ _ Hwf Hnd Hso). apply Permutation_swap.
Defined.

(** Two instances added in the same millisecond share an id. *)
Definition dup_state : State :=
  fst (addBackend 9 (demo_descriptor "B" "http://b")
         (fst (addBackend 9 (demo_descriptor "A" "http://a") (initial_state "http://x")))).

Definition dup_outs : list (FetchOutcome * string) :=
  [(Responded (mkResponse 200 "OK"), "T0"); (NetworkFailure "down", "T1");
   (Responded (mkResponse 200 "OK"), "T2")].

(** A probe captures the first instance carrying the id it looks up, so
    an instance preceded by another with the same id is captured by no
    probe. *)
Lemma all_begin_shadowed s j k lj lk :
  wf s -> j < k -> backends s !! j = Some lj -> backends s !! k = Some lk ->
  id_at (heap s) lj = id_at (heap s) lk ->
  forall m l' r, all_begin s !! m = Some (Ok (l', r)) -> l' <> lk.
Proof.
  intros Hwf Hjk Hj Hk Hid m l' r Hm ->.
  pose proof (lookup_lt_Some _ _ _ Hm) as Hlt. rewrite all_begin_length in Hlt.
  destruct (lookup_lt_is_Some_2 _ _ Hlt) as [lm Hlm].
  destruct (all_begin_ok s m lm Hwf Hlm) as (l'' & b & Hbeg & _ & Hf).
  rewrite Hm in Hbeg. injection Hbeg as <- _.
  unfold find_backend in Hf. destruct (list_find _ _) as [[idx y]|] eqn:Hfind; [|done].
  injection Hf as ->. apply list_find_Some in Hfind as (Hidx & Hhas & Hfirst).
  assert (idx = k) as ->.
  { eapply NoDup_lookup; [apply (wf_nodup _ Hwf) | exact Hidx | exact Hk]. }
  apply (Hfirst j lj Hj Hjk). unfold has_id in *. by rewrite Hid.
Qed.

(** While only settle events run, an object no probe captured is never
    written. *)
Lemma settle_fold_untouched begins outs f sched l :
  settle_only sched -> (forall m l' r, begins !! m = Some (Ok (l', r)) -> l' <> l) ->
  heap (fl_state (foldl (step_event begins outs) f sched)) !! l = heap (fl_state f) !! l.
Proof.
  intros Hso Hcap. revert f. induction sched as [|e sched IH]; intros f; [done|].
  apply Forall_cons in Hso as [[k ->] Hso]. cbn [foldl]. rewrite (IH Hso).
  rewrite step_settle_eq. unfold settle_write.
  destruct (begins !! k) as [[[l' r]|]|] eqn:Hb, (outs !! k), (fl_settled f !! k) as [[]|]; try done.
  cbn [fl_state with_heap heap fst]. apply lookup_alter_ne. by apply (Hcap k l' r).
Qed.

(** C12: with a duplicated id, the later instance carrying it is never
    updated: whatever the fetch outcomes and the order in which the
    probes settle, its object after [testAllConnections] is the one it
    had before (both probes write to the first instance with that id),
    so it stays disconnected although its own probe may succeed. *)
Theorem testAllConnections_duplicate_ids outs sched s j k lj lk :
  wf s -> settle_only sched -> j < k -> backends s !! j = Some lj -> backends s !! k = Some lk ->
  id_at (heap s) lj = id_at (heap s) lk ->
  heap (fst (testAllConnections outs sched s)) !! lk = heap s !! lk.
Proof.
  intros Hwf Hso Hjk Hj Hk Hid. unfold testAllConnections. simpl.
  apply settle_fold_untouched; [done|]. by apply (all_begin_shadowed s j k lj lk).
Qed.

Lemma testAllConnections_duplicate_ids_witness :
  wf dup_state /\ settle_only [Settle 0; Settle 2; Settle 1] /\ 1 < 2 /\
  backends dup_state !! 1 = Some 1%N /\ backends dup_state !! 2 = Some 2%N /\
  id_at (heap dup_state) 1%N = id_at (heap dup_state) 2%N /\
  heap (fst (testAllConnections dup_outs [Settle 0; Settle 2; Settle 1] dup_state)) !! 2%N =
    heap dup_state !! 2%N.
Proof.
  assert (wf dup_state) as Hwf by (apply addBackend_wf, addBackend_wf, initial_state_inv).
  assert (settle_only [Settle 0; Settle 2; Settle 1]) as Hso by (repeat constructor; eauto).
  assert (1 < 2) as Hjk by lia.
  assert (backends dup_state !! 1 = Some 1%N) as Hj by reflexivity.
  assert (backends dup_state !! 2 = Some 2%N) as Hk by reflexivity.
  assert (id_at (heap dup_state) 1%N = id_at (heap dup_state) 2%N) as Hid by reflexivity.
  split; [exact Hwf|]. split; [exact Hso|]. split; [exact Hjk|]. split; [exact Hj|].
  split; [exact Hk|]. split; [exact Hid|].
  exact (testAllConnections_duplicate_ids dup_outs _ _ 1 2 1%N 2%N Hwf Hso Hjk Hj Hk Hid).
Defined.

(** C13: if the array holds fewer instances once every probe has
    settled than when the probes started (an instance was removed while
    they were in flight), [backends.value[index]] is [undefined] for the
    last indices and the promise of [testAllConnections] rejects with a
    [TypeError] instead of returning one result per probe. *)
Theorem testAllConnections_shrunk_rejects outs sched s r :
  snd (testAllConnections outs sched s) = Some r ->
  length (backends (fst (testAllConnections outs sched s))) < length (backends s) ->
  r = Throw ExnType.
Proof.
  unfold testAllConnections. simpl.
  destruct (mapM (fun x => x) _) as [rs|] eqn:Hm; [|discriminate].
  intros [= <-] Hshort. apply tag_results_short. split; [lia|].
  apply mapM_Some, Forall2_length in Hm. rewrite <-Hm, fold_length. simpl.
  rewrite length_map, all_begin_length. lia.
Qed.

Lemma testAllConnections_shrunk_rejects_witness :
  snd (testAllConnections [(Responded (mkResponse 200 "OK"), "T1"); (NetworkFailure "refused", "T2")]
         [Settle 1; Interleave (OpRemove "backend_5"); Settle 0] demo_state1) = Some (Throw ExnType) /\
  length (backends (fst (testAllConnections [(Responded (mkResponse 200 "OK"), "T1"); (NetworkFailure "refused", "T2")]
         [Settle 1; Interleave (OpRemove "backend_5"); Settle 0] demo_state1))) < length (backends demo_state1) /\
  @Throw Exn (list Tagged) ExnType = Throw ExnType.
Proof.
  assert (snd (testAllConnections [(Responded (mkResponse 200 "OK"), "T1"); (NetworkFailure "refused", "T2")]
         [Settle 1; Interleave (OpRemove "backend_5"); Settle 0] demo_state1) = Some (Throw ExnType)) as H
    by (vm_compute; reflexivity).
  assert (length (backends (fst (testAllConnections [(Responded (mkResponse 200 "OK"), "T1"); (NetworkFailure "refused", "T2")]
         [Settle 1; Interleave (OpRemove "backend_5"); Settle 0] demo_state1))) < length (backends demo_state1)) as Hl
    by (vm_compute; lia).
  exact (conj H (conj Hl (testAllConnections_shrunk_rejects _ _ _ _ H Hl))).
Defined.

(** Whether the probe counts as a success: a 2xx response. *)
Definition probe_ok (o : FetchOutcome) : bool :=
  match o with Responded r => resp_ok r | NetworkFailure _ => false end.

Lemma probe_write_fields o stamp b :
  isConnected (probe_write o stamp b) = probe_ok o /\
  lastConnected (probe_write o stamp b) = (if probe_ok o then Some stamp else lastConnected b) /\
  reg_key (probe_write o stamp b) = reg_key b.
Proof. destruct o as [r|m]; simpl; [destruct (resp_ok r)|]; done. Qed.

(** C14: [testBackendConnection] on a registered id never throws for a
    reachability failure: on a 2xx response it marks the instance
    connected and stamps [lastConnected], on any other status or a
    transport failure it marks it disconnected; the result's [success]
    is the same verdict, and no other object, id or active flag
    changes. *)
Theorem testBackendConnection_outcome i o stamp s l b :
  find_backend s i = Some l -> heap s !! l = Some b ->
  exists s' b',
    testBackendConnection i o stamp s = Ok (s', outcome_result o) /\
    heap s' !! l = Some b' /\
    isConnected b' = probe_ok o /\
    lastConnected b' = (if probe_ok o then Some stamp else lastConnected b) /\
    pr_success (outcome_result o) = probe_ok o /\
    (forall l', l' <> l -> heap s' !! l' = heap s !! l') /\ s' ≃ s.
Proof.
  intros Hf Hb. unfold testBackendConnection, probe_begin. rewrite Hf, Hb. simpl.
  rewrite probe_finish_split.
  destruct (probe_write_fields o stamp b) as (Hc & Hlc & Hk).
  exists (with_heap (alter (probe_write o stamp) l) s), (probe_write o stamp b).
  split; [done|]. simpl. rewrite lookup_alter_eq, Hb.
  split; [done|]. split; [done|]. split; [done|].
  split; [by destruct o as [r|m]; simpl; [destruct (resp_ok r)|]|].
  split; [intros l' Hne; by apply lookup_alter_ne|].
  apply with_heap_alter_equiv. intros b0. apply probe_write_fields.
Qed.

Lemma testBackendConnection_outcome_witness :
  find_backend (initial_state "http://x") local_id = Some 0%N /\
  heap (initial_state "http://x") !! 0%N = Some (local_instance "http://x" true) /\
  outcome_result (Responded (mkResponse 503 "Service Unavailable")) = mkProbeResult false "连接失败: 503" /\
  exists s' b', testBackendConnection local_id (Responded (mkResponse 503 "Service Unavailable")) "T"
                  (initial_state "http://x") = Ok (s', mkProbeResult false "连接失败: 503") /\
                heap s' !! 0%N = Some b' /\ isConnected b' = false.
Proof.
  assert (find_backend (initial_state "http://x") local_id = Some 0%N) as Hf by reflexivity.
  assert (heap (initial_state "http://x") !! 0%N = Some (local_instance "http://x" true)) as Hb
    by reflexivity.
  assert (outcome_result (Responded (mkResponse 503 "Service Unavailable")) =
          mkProbeResult false "连接失败: 503") as Hr by reflexivity.
  split; [exact Hf|]. split; [exact Hb|]. split; [exact Hr|].
  destruct (testBackendConnection_outcome local_id (Responded (mkResponse 503 "Service Unavailable")) "T"
              _ _ _ Hf Hb) as (s' & b' & Ht & Hl & Hc & _).
  exists s', b'. rewrite <-Hr. split; [exact Ht|]. split; [exact Hl|]. exact Hc.
Defined.

(** [testBackendConnection] with an id no instance carries throws
    [ExnBackendMissing] ('后端实例不存在') before issuing any request. *)
Theorem testBackendConnection_unknown i o stamp s :
  find_backend s i = None -> testBackendConnection i o stamp s = Throw ExnBackendMissing.
Proof. intros Hf. unfold testBackendConnection, probe_begin. by rewrite Hf. Qed.


(** ** When [testAllConnections] resolves *)

(** The promise settles exactly when every probe that got past its
    lookup has settled. *)
Lemma testAllConnections_resolves_started outs sched s :
  length outs = length (backends s) ->
  is_Some (snd (testAllConnections outs sched s)) <->
  (forall k lr, all_begin s !! k = Some (Ok lr) -> Settle k ∈ sched).
Proof.
  intros Hlen. unfold testAllConnections. simpl.
  set (begins := all_begin s).
  set (f := foldl (step_event begins outs) (flight_start s begins) sched).
  assert (length (fl_settled (flight_start s begins)) = length begins) as Hl0
    by (simpl; by rewrite length_map).
  transitivity (is_Some (mapM (fun x => x) (fl_settled f))).
  { destruct (mapM _ _); [split; intros; by eexists | split; intros [? ?]; discriminate]. }
  rewrite mapM_is_Some, Forall_lookup. split.
  - intros Hall k lr Hb. destruct (decide (Settle k ∈ sched)) as [|Hn]; [done|exfalso].
    assert (fl_settled (flight_start s begins) !! k = Some None) as H0
      by (simpl; by rewrite list_lookup_fmap, Hb).
    destruct (Hall k None (fold_unsettled begins outs _ sched k Hn H0)) as [? [=]].
  - intros Hs k x Hx.
    assert (k < length begins) as Hk.
    { rewrite <-Hl0, <-(fold_length begins outs _ sched). by eapply lookup_lt_Some. }
    destruct (lookup_lt_is_Some_2 _ _ Hk) as [b Hb].
    assert (settled_at f k) as [r Hr].
    { destruct b as [lr|e].
      - eapply fold_settles; [by apply (Hs k lr) | exact Hb | | by rewrite Hl0].
        apply lookup_lt_is_Some_2. rewrite Hlen, <-all_begin_length. exact Hk.
      - apply fold_settled_mono. exists (Rejected e). simpl. by rewrite list_lookup_fmap, Hb. }
    rewrite Hr in Hx. injection Hx as <-. by eexists.
Qed.

(** C34: Whatever registry operations run while the probes are in
    flight, the promise [testAllConnections] returns settles (resolves or
    rejects) exactly when the [fetch] of every instance's probe has
    settled: under well-formedness every probe gets past its lookup, and
    a probe whose response never comes keeps the promise pending. *)
Theorem testAllConnections_resolves outs sched s :
  wf s -> length outs = length (backends s) ->
  is_Some (snd (testAllConnections outs sched s)) <->
  (forall k, k < length (backends s) -> Settle k ∈ sched).
Proof.
  intros Hwf Hlen. rewrite testAllConnections_resolves_started by done. split.
  - intros Hall k Hk. destruct (lookup_lt_is_Some_2 _ _ Hk) as [l Hl].
    destruct (all_begin_ok s k l Hwf Hl) as (l' & b & Hb & _). by apply (Hall k _ Hb).
  - intros Hall k lr Hb. apply Hall. rewrite <-all_begin_length. by eapply lookup_lt_Some.
Qed.

Definition demo_probe_outs : list (FetchOutcome * string) :=
  [(Responded (mkResponse 200 "OK"), "T1"); (NetworkFailure "refused", "T2")].

Lemma testAllConnections_resolves_witness :
  wf demo_state1 /\ length demo_probe_outs = length (backends demo_state1) /\
  is_Some (snd (testAllConnections demo_probe_outs
                  [Settle 1; Interleave (OpSwitch "backend_5"); Settle 0] demo_state1)).
Proof.
  assert (wf demo_state1) as Hwf by (apply addBackend_wf, initial_state_inv).
  assert (length demo_probe_outs = length (backends demo_state1)) as Hlen by reflexivity.
  split; [exact Hwf|]. split; [exact Hlen|]. apply (testAllConnections_resolves _ _ _ Hwf Hlen).
  intros k Hk. simpl in Hk. destruct k as [|[|k]]; [set_solver | set_solver | lia].
Defined.

(** ** What every instance ends up with *)

Section settle_all.
Context (s : State) (outs : list (FetchOutcome * string)).
Context (Hwf : wf s) (Hnd : NoDup (registry_ids s)).

(** While only settle events run, the array is unchanged and the object
    of the k-th instance carries the write of its own probe once that
    probe has settled, and is untouched before. *)
Definition settled_heap (f : Flight) : Prop :=
  backends (fl_state f) = backends s /\
  forall k l, backends s !! k = Some l ->
    match fl_settled f !! k with
    | Some (Some _) => exists ot, outs !! k = Some ot /\
                         heap (fl_state f) !! l = probe_write ot.1 ot.2 <$> heap s !! l
    | _ => heap (fl_state f) !! l = heap s !! l
    end.

Lemma settled_heap_start : settled_heap (flight_start s (all_begin s)).
Proof.
  split; [done|]. intros k l Hk. simpl. rewrite list_lookup_fmap.
  destruct (all_begin_own s k l Hwf Hnd Hk) as (b & -> & _). done.
Qed.

Lemma settled_heap_step f k : settled_heap f -> settled_heap (step_event (all_begin s) outs f (Settle k)).
Proof.
  intros [Hb Hh]. rewrite step_settle_eq.
  destruct (settle_write (all_begin s) outs (fl_settled f) k) as [[[lw w] r]|] eqn:Ew; [|by split].
  unfold settle_write in Ew.
  destruct (all_begin s !! k) as [[lr|]|] eqn:Hbeg; try discriminate.
  destruct (outs !! k) as [ot|] eqn:Ho, (fl_settled f !! k) as [[]|] eqn:Hs; try discriminate.
  injection Ew as <- <- <-.
  assert (k < length (backends s)) as Hlt by (rewrite <-all_begin_length; by eapply lookup_lt_Some).
  destruct (lookup_lt_is_Some_2 _ _ Hlt) as [lk Hlk].
  destruct (all_begin_own s k lk Hwf Hnd Hlk) as (bk & Hbk & _). rewrite Hbeg in Hbk.
  injection Hbk as ->. simpl.
  split; [done|]. intros j l Hj. specialize (Hh j l Hj). cbn [fl_state fl_settled with_heap heap].
  destruct (decide (j = k)) as [->|Hne].
  - rewrite Hlk in Hj. injection Hj as <-. rewrite Hs in Hh.
    rewrite list_lookup_insert_eq by (by eapply lookup_lt_Some).
    exists ot. split; [done|]. by rewrite lookup_alter_eq, Hh.
  - rewrite list_lookup_insert_ne by congruence.
    assert (lk <> l) as Hl.
    { intros <-. apply Hne. eapply NoDup_lookup; [apply (wf_nodup _ Hwf) | exact Hj | exact Hlk]. }
    rewrite lookup_alter_ne by done. exact Hh.
Qed.

Lemma settled_heap_fold f sched :
  settle_only sched -> settled_heap f -> settled_heap (foldl (step_event (all_begin s) outs) f sched).
Proof.
  revert f. induction sched as [|e sched IH]; intros f Hso Hf; [done|].
  apply Forall_cons in Hso as [[k ->] Hso]. simpl. by apply IH, settled_heap_step.
Qed.
End settle_all.

(** C15: When the ids are unique and only the probes' completions run,
    in any order, [testAllConnections] leaves each instance with its own
    probe's verdict: [connectedBackendsCount] is the number of probes
    answered with a 2xx status, and so never exceeds the number of
    instances. *)
Theorem testAllConnections_connected_count outs sched s :
  wf s -> NoDup (registry_ids s) -> settle_only sched ->
  (forall k, k < length (backends s) -> Settle k ∈ sched) ->
  length outs = length (backends s) ->
  connectedBackendsCount (fst (testAllConnections outs sched s)) =
    length (filter (fun ot => probe_ok ot.1 = true) outs) /\
  connectedBackendsCount (fst (testAllConnections outs sched s)) <= length (backends s).
Proof.
  intros Hwf Hnd Hso Hall Hlen.
  pose proof (all_probes_settle outs sched s Hwf Hlen Hall) as Hset.
  destruct (settled_heap_fold s outs Hwf Hnd _ sched Hso (settled_heap_start s outs Hwf Hnd))
    as [Hb Hh].
  unfold testAllConnections, connectedBackendsCount. simpl.
  assert (length (filter (connected_at (heap (fl_state (foldl (step_event (all_begin s) outs)
            (flight_start s (all_begin s)) sched)))) (backends s)) =
          length (filter (fun ot => probe_ok ot.1 = true) outs)) as Hc.
  { apply length_filter_zip; [done|]. intros k l ot Hl Ho.
    specialize (Hh k l Hl). destruct (Hset k (lookup_lt_Some _ _ _ Hl)) as [r Hr].
    rewrite Hr in Hh. destruct Hh as (ot' & Ho' & Hh). rewrite Ho in Ho'. injection Ho' as <-.
    destruct (wf_alloc _ Hwf l (list_elem_of_lookup_2 _ _ _ Hl)) as [b Hbl].
    unfold connected_at. rewrite Hh, Hbl. simpl.
    destruct (probe_write_fields ot.1 ot.2 b) as [-> _]. split; [by intros [=] | by intros ->]. }
  rewrite Hb, Hc. split; [done|]. rewrite <-Hlen. apply length_filter.
Qed.

Lemma testAllConnections_connected_count_witness :
  wf demo_state1 /\ NoDup (registry_ids demo_state1) /\ settle_only [Settle 1; Settle 0] /\
  connectedBackendsCount (fst (testAllConnections demo_probe_outs [Settle 1; Settle 0] demo_state1)) = 1.
Proof.
  assert (wf demo_state1) as Hwf by (apply addBackend_wf, initial_state_inv).
  assert (NoDup (registry_ids demo_state1)) as Hnd by (apply (bool_decide_unpack _); vm_compute; reflexivity).
  assert (settle_only [Settle 1; Settle 0]) as Hso by (repeat constructor; eauto).
  split_and!; [exact Hwf | exact Hnd | exact Hso |].
  apply (testAllConnections_connected_count demo_probe_outs _ _ Hwf Hnd Hso); [|reflexivity].
  intros k Hk. simpl in Hk. destruct k as [|[|k]]; [set_solver | set_solver | lia].
Defined.
