(* ===== verification/Proxy.v ===== *)
(** * The request proxy: [buildApiUrl], [getAuthHeaders], [apiRequest]

    [buildApiUrl] (lines 134-144) joins the active instance's [baseUrl]
    and the endpoint with one slash; [getAuthHeaders] (lines 147-158)
    adds a bearer header when the active instance has a password;
    [apiRequest] (lines 161-191) composes them, awaits [fetch], and
    updates the connection state of whatever instance is active when
    the response (or the failure) arrives. *)

From S2P Require Import Prelude Js Backend Store Probe.

Open Scope string_scope.
Open Scope list_scope.

(** ** URL and headers *)

(** [buildApiUrl]: throws [ExnNoActive] when [activeBackend] is
    [undefined], and a [TypeError] when the active instance has no
    [baseUrl] ([undefined.replace]). *)
Definition buildApiUrl (endpoint : string) (s : State) : Res string :=
  match activeBackend_obj s with
  | None => Throw ExnNoActive
  | Some b =>
      match baseUrl b with
      | None => Throw ExnType
      | Some u => Ok (strip_trailing_slash u +:+ "/" +:+ strip_leading_slash endpoint)
      end
  end.

(** [getAuthHeaders]. *)
Definition getAuthHeaders (s : State) : jsobj :=
  let headers := [("Content-Type", "application/json")] in
  match activeBackend_obj s with
  | Some b =>
      if js_truthy (password b) then obj_set "Authorization" ("Bearer " +:+ password b) headers
      else headers
  | None => headers
  end.

(** ** [apiRequest] *)

(** The caller's [options]: [method], [body] and [headers], each
    possibly absent. *)
Record Options := mkOptions {
  o_method : option string;
  o_body : option string;
  o_headers : option jsobj
}.

(** Lines 162-169, before the [await]: the URL (which may throw), the
    merged headers and the request [fetch] receives ([GET] when no
    method is given). *)
Definition apiRequest_begin (endpoint : string) (opts : Options) (s : State) : Res Request :=
  url ← buildApiUrl endpoint s;
  Ok {| req_url := url;
        req_method := default "GET" (o_method opts);
        req_headers := obj_spread (getAuthHeaders s) (default [] (o_headers opts));
        req_body := o_body opts |}.

(** Lines 171-190, after the [await], on the state at that time:
    [activeBackend] is evaluated again.  A non-2xx status throws inside
    the [try], so the [catch] marks the instance disconnected before the
    error reaches the caller. *)
Definition apiRequest_finish (o : FetchOutcome) (stamp : string) (s : State) : State * Res Response :=
  match o with
  | Responded r =>
      if resp_ok r then
        (match activeBackend s with
         | Some l => with_heap (alter (mark_connected stamp) l) s
         | None => s
         end, Ok r)
      else
        (match activeBackend s with
         | Some l => with_heap (alter mark_disconnected l) s
         | None => s
         end, Throw (ExnHttp (status r) (statusText r)))
  | NetworkFailure m =>
      (match activeBackend s with
       | Some l => with_heap (alter mark_disconnected l) s
       | None => s
       end, Throw (ExnFetch m))
  end.

(** The whole call, with the registry operations [during] that run
    while the request is in flight.  A throw before the [await] rejects
    the returned promise without touching the state. *)
Definition apiRequest (endpoint : string) (opts : Options) (during : list RegOp)
    (o : FetchOutcome) (stamp : string) (s : State) : State * Res Response :=
  match apiRequest_begin endpoint opts s with
  | Throw e => (s, Throw e)
  | Ok _ => apiRequest_finish o stamp (run_ops during s)
  end.

(** ** Lemmas *)

Lemma buildApiUrl_join endpoint s b u :
  activeBackend_obj s = Some b -> baseUrl b = Some u ->
  buildApiUrl endpoint s = Ok (strip_trailing_slash u +:+ "/" +:+ strip_leading_slash endpoint).
Proof. intros Ha Hu. unfold buildApiUrl. by rewrite Ha, Hu. Qed.

(** Under the registry invariant the active instance is an object of
    the heap. *)
Lemma activeBackend_obj_inv s :
  registry_inv s -> exists l b, activeBackend s = Some l /\ heap s !! l = Some b /\
                              activeBackend_obj s = Some b.
Proof.
  intros [Hwf _ [l Hl] _]. pose proof (find_backend_Some _ _ _ Hl) as [Hin _].
  destruct (wf_alloc _ Hwf l Hin) as [b Hb]. exists l, b.
  unfold activeBackend_obj. rewrite Hl. simpl. by rewrite Hb.
Qed.

Lemma apiRequest_finish_split o stamp s :
  apiRequest_finish o stamp s =
    (match activeBackend s with
     | Some l => with_heap (alter (probe_write o stamp) l) s
     | None => s
     end,
     match o with
     | Responded r => if resp_ok r then Ok r else Throw (ExnHttp (status r) (statusText r))
     | NetworkFailure m => Throw (ExnFetch m)
     end).
Proof. destruct o as [r|m]; simpl; [destruct (resp_ok r)|]; done. Qed.

(** ** Claims about the proxy *)

(** C16: [buildApiUrl] joins the active instance's address and the
    endpoint with exactly one slash, whether or not the address ends
    with a slash and whether or not the endpoint starts with one. *)
Theorem buildApiUrl_normalises s b u e :
  activeBackend_obj s = Some b ->
  ends_with_slash u = false -> starts_with_slash e = false ->
  (baseUrl b = Some u \/ baseUrl b = Some (u +:+ "/")) ->
  buildApiUrl e s = Ok (u +:+ "/" +:+ e) /\ buildApiUrl ("/" +:+ e) s = Ok (u +:+ "/" +:+ e).
Proof.
  intros Ha Hu He Hb.
  assert (forall e', strip_leading_slash e' = e -> buildApiUrl e' s = Ok (u +:+ "/" +:+ e)) as Hj.
  { intros e' He'. destruct Hb as [Hb|Hb]; rewrite (buildApiUrl_join _ _ _ _ Ha Hb), He'.
    - by rewrite strip_trailing_slash_id.
    - by rewrite strip_trailing_slash_app. }
  split; apply Hj; [by apply strip_leading_slash_id | apply strip_leading_slash_app].
Qed.

Definition demo_proxy_state : State :=
  fst (switchBackend "backend_5"
         (fst (addBackend 5 (mkDescriptor (Some "A") (Some "http://h/") (Some "pw") None)
                 (initial_state "http://x")))).

Lemma buildApiUrl_normalises_witness :
  activeBackend_obj demo_proxy_state = Some (mkBackend "backend_5" "A" (Some "http://h/") "pw" true false None "") /\
  buildApiUrl "/foo" demo_proxy_state = Ok "http://h/foo".
Proof.
  assert (activeBackend_obj demo_proxy_state =
          Some (mkBackend "backend_5" "A" (Some "http://h/") "pw" true false None "")) as Ha by reflexivity.
  split; [exact Ha|].
  apply (buildApiUrl_normalises _ _ "http://h" "foo" Ha eq_refl eq_refl (or_intror eq_refl)).
Defined.

(** C17: with no active instance (an [activeBackendId] that names no
    instance), [buildApiUrl] throws [ExnNoActive] and [apiRequest]
    rejects with it before issuing a request, leaving the state as it
    was. *)
Theorem apiRequest_no_active endpoint opts during o stamp s :
  activeBackend s = None ->
  buildApiUrl endpoint s = Throw ExnNoActive /\
  apiRequest endpoint opts during o stamp s = (s, Throw ExnNoActive).
Proof.
  intros Hn. assert (buildApiUrl endpoint s = Throw ExnNoActive) as Hb
    by (unfold buildApiUrl, activeBackend_obj; by rewrite Hn).
  split; [done|]. unfold apiRequest, apiRequest_begin. by rewrite Hb.
Qed.

Lemma apiRequest_no_active_witness :
  let s := updateBackend local_id (mkPatch (Some "x") None None None None None None None) (initial_state "http://x") in
  activeBackend s = None /\ buildApiUrl "/api" s = Throw ExnNoActive.
Proof.
  simpl. assert (activeBackend (updateBackend local_id (mkPatch (Some "x") None None None None None None None)
                                 (initial_state "http://x")) = None) as Hn by reflexivity.
  split; [exact Hn|].
  exact (proj1 (apiRequest_no_active "/api" (mkOptions None None None) [] (NetworkFailure "") "" _ Hn)).
Defined.

(** C18: [getAuthHeaders] always carries [Content-Type:
    application/json], and carries [Authorization: Bearer <password>]
    exactly when an instance is active and its password is non-empty;
    with no active instance it does not fail. *)
Theorem getAuthHeaders_spec s :
  obj_get "Content-Type" (getAuthHeaders s) = Some "application/json" /\
  obj_get "Authorization" (getAuthHeaders s) =
    match activeBackend_obj s with
    | Some b => if js_truthy (password b) then Some ("Bearer " +:+ password b) else None
    | None => None
    end.
Proof.
  unfold getAuthHeaders. destruct (activeBackend_obj s) as [b|]; [|done].
  destruct (js_truthy (password b)); [|done].
  split; [by rewrite obj_get_set_ne | apply obj_get_set_eq].
Qed.

(** C19: the probe and the proxy disagree on credentials: for an
    instance without a password the probe still sends an
    [Authorization] header, with an empty value, while
    [getAuthHeaders] omits it (the spec says it is omitted). *)
Theorem probe_sends_empty_authorization s b :
  activeBackend_obj s = Some b -> password b = "" ->
  obj_get "Authorization" (req_headers (probe_request b)) = Some "" /\
  obj_get "Authorization" (getAuthHeaders s) = None.
Proof.
  intros Ha Hp. unfold probe_request, getAuthHeaders. rewrite Ha, Hp. simpl. done.
Qed.

Lemma probe_sends_empty_authorization_witness :
  activeBackend_obj (initial_state "http://x") = Some (local_instance "http://x" true) /\
  password (local_instance "http://x" true) = "" /\
  obj_get "Authorization" (getAuthHeaders (initial_state "http://x")) = None.
Proof.
  assert (activeBackend_obj (initial_state "http://x") = Some (local_instance "http://x" true)) as Ha
    by reflexivity.
  assert (password (local_instance "http://x" true) = "") as Hp by reflexivity.
  split; [exact Ha|]. split; [exact Hp|].
  exact (proj2 (probe_sends_empty_authorization _ _ Ha Hp)).
Defined.

(** C20: when nothing else runs during the request, [apiRequest]
    resolves to the response for a 2xx status and marks the active
    instance connected with the time stamp; for any other status it
    rejects with [ExnHttp status statusText] and for a transport failure
    it re-throws the failure, in both cases after marking the active
    instance disconnected.  No other object and no id or active flag
    changes. *)
Theorem apiRequest_outcome endpoint opts o stamp s req l b :
  apiRequest_begin endpoint opts s = Ok req ->
  activeBackend s = Some l -> heap s !! l = Some b ->
  exists b',
    heap (fst (apiRequest endpoint opts [] o stamp s)) !! l = Some b' /\
    isConnected b' = probe_ok o /\
    lastConnected b' = (if probe_ok o then Some stamp else lastConnected b) /\
    (forall l', l' <> l -> heap (fst (apiRequest endpoint opts [] o stamp s)) !! l' = heap s !! l') /\
    fst (apiRequest endpoint opts [] o stamp s) ≃ s /\
    snd (apiRequest endpoint opts [] o stamp s) =
      match o with
      | Responded r => if resp_ok r then Ok r else Throw (ExnHttp (status r) (statusText r))
      | NetworkFailure m => Throw (ExnFetch m)
      end.
Proof.
  intros Hb Ha Hl. unfold apiRequest. rewrite Hb. simpl.
  rewrite apiRequest_finish_split, Ha. simpl.
  destruct (probe_write_fields o stamp b) as (Hc & Hlc & _).
  exists (probe_write o stamp b). rewrite lookup_alter_eq, Hl.
  split; [done|]. split; [done|]. split; [done|].
  split; [intros l' Hne; by apply lookup_alter_ne|].
  split; [|done]. apply with_heap_alter_equiv. intros b0. apply probe_write_fields.
Qed.

Lemma apiRequest_outcome_witness :
  apiRequest_begin "/stats" (mkOptions None None None) demo_proxy_state =
    Ok (mkRequest "http://h/stats" "GET"
          [("Content-Type", "application/json"); ("Authorization", "Bearer pw")] None) /\
  activeBackend demo_proxy_state = Some 1%N /\
  heap demo_proxy_state !! 1%N = Some (mkBackend "backend_5" "A" (Some "http://h/") "pw" true false None "") /\
  snd (apiRequest "/stats" (mkOptions None None None) [] (Responded (mkResponse 503 "Service Unavailable")) "T"
         demo_proxy_state) = Throw (ExnHttp 503 "Service Unavailable").
Proof.
  assert (apiRequest_begin "/stats" (mkOptions None None None) demo_proxy_state =
    Ok (mkRequest "http://h/stats" "GET"
          [("Content-Type", "application/json"); ("Authorization", "Bearer pw")] None)) as Hb by reflexivity.
  assert (activeBackend demo_proxy_state = Some 1%N) as Ha by reflexivity.
  assert (heap demo_proxy_state !! 1%N = Some (mkBackend "backend_5" "A" (Some "http://h/") "pw" true false None ""))
    as Hl by reflexivity.
  split; [exact Hb|]. split; [exact Ha|]. split; [exact Hl|].
  destruct (apiRequest_outcome _ _ (Responded (mkResponse 503 "Service Unavailable")) "T" _ _ _ _ Hb Ha Hl)
    as (b' & _ & _ & _ & _ & _ & Hr).
  exact Hr.
Defined.

(** C21: the caller's headers override the authentication headers key
    by key ([{ ...getAuthHeaders(), ...options.headers }]); keys the
    caller does not give keep the store's value. *)
Theorem apiRequest_headers endpoint opts s req k :
  apiRequest_begin endpoint opts s = Ok req -> NoDup (default [] (o_headers opts)).*1 ->
  obj_get k (req_headers req) =
    match obj_get k (default [] (o_headers opts)) with
    | Some v => Some v
    | None => obj_get k (getAuthHeaders s)
    end.
Proof.
  unfold apiRequest_begin. destruct (buildApiUrl endpoint s); simpl; [|discriminate].
  intros [= <-] Hnd. simpl. by apply obj_get_spread.
Qed.

Lemma apiRequest_headers_witness :
  apiRequest_begin "/x" (mkOptions (Some "POST") (Some "{}") (Some [("Authorization", "Bearer other")]))
    demo_proxy_state =
    Ok (mkRequest "http://h/x" "POST"
          [("Content-Type", "application/json"); ("Authorization", "Bearer other")] (Some "{}")) /\
  NoDup (default [] (o_headers (mkOptions (Some "POST") (Some "{}") (Some [("Authorization", "Bearer other")])))).*1 /\
  obj_get "Authorization" [("Content-Type", "application/json"); ("Authorization", "Bearer other")] =
    Some "Bearer other".
Proof.
  assert (apiRequest_begin "/x" (mkOptions (Some "POST") (Some "{}") (Some [("Authorization", "Bearer other")]))
    demo_proxy_state =
    Ok (mkRequest "http://h/x" "POST"
          [("Content-Type", "application/json"); ("Authorization", "Bearer other")] (Some "{}"))) as Hb
    by reflexivity.
  assert (NoDup (default [] (o_headers (mkOptions (Some "POST") (Some "{}")
            (Some [("Authorization", "Bearer other")])))).*1) as Hnd by (simpl; repeat constructor; set_solver).
  split; [exact Hb|]. split; [exact Hnd|].
  exact (apiRequest_headers _ _ _ _ "Authorization" Hb Hnd).
Defined.

(** C22: [apiRequest] re-reads [activeBackend] after its [await]: when
    the request was built for the active instance [l1] and the selection
    moves to another instance [l2] while it is in flight, whatever
    registry operations do so, the outcome of [l1]'s response is written
    to [l2] and [l1] is left as those operations left it. *)
Theorem apiRequest_switch_race endpoint opts during o stamp s req l1 l2 :
  apiRequest_begin endpoint opts s = Ok req -> activeBackend s = Some l1 ->
  activeBackend (run_ops during s) = Some l2 -> l1 <> l2 ->
  heap (fst (apiRequest endpoint opts during o stamp s)) !! l1 = heap (run_ops during s) !! l1 /\
  heap (fst (apiRequest endpoint opts during o stamp s)) !! l2 =
    probe_write o stamp <$> heap (run_ops during s) !! l2.
Proof.
  intros Hb _ Ha2 Hne. unfold apiRequest. rewrite Hb, apiRequest_finish_split, Ha2. simpl.
  split; [by apply lookup_alter_ne | apply lookup_alter_eq].
Qed.

Lemma apiRequest_switch_race_witness :
  apiRequest_begin "/stats" (mkOptions None None None) demo_proxy_state =
    Ok (mkRequest "http://h/stats" "GET"
          [("Content-Type", "application/json"); ("Authorization", "Bearer pw")] None) /\
  activeBackend demo_proxy_state = Some 1%N /\
  activeBackend (run_ops [OpSwitch local_id] demo_proxy_state) = Some 0%N /\ 1%N <> 0%N /\
  heap (fst (apiRequest "/stats" (mkOptions None None None) [OpSwitch local_id]
               (Responded (mkResponse 200 "OK")) "T" demo_proxy_state)) !! 0%N =
    probe_write (Responded (mkResponse 200 "OK")) "T" <$> heap (run_ops [OpSwitch local_id] demo_proxy_state) !! 0%N.
Proof.
  assert (apiRequest_begin "/stats" (mkOptions None None None) demo_proxy_state =
    Ok (mkRequest "http://h/stats" "GET"
          [("Content-Type", "application/json"); ("Authorization", "Bearer pw")] None)) as Hb by reflexivity.
  assert (activeBackend demo_proxy_state = Some 1%N) as Ha1 by reflexivity.
  assert (activeBackend (run_ops [OpSwitch local_id] demo_proxy_state) = Some 0%N) as Ha2 by reflexivity.
  assert (1%N <> 0%N) as Hne by discriminate.
  split; [exact Hb|]. split; [exact Ha1|]. split; [exact Ha2|]. split; [exact Hne|].
  exact (proj2 (apiRequest_switch_race _ _ _ (Responded (mkResponse 200 "OK")) "T" _ _ _ _ Hb Ha1 Ha2 Hne)).
Defined.

