(* ===== verification/Json.v ===== *)
(** * JSON: the values the store persists, and a codec

    [saveToStorage] and [loadFromStorage] go through [JSON.stringify] and
    [JSON.parse], which are the platform's and not the repository's.  The
    persistence theorems are stated against the class [JsonCodec]: a
    printer, a parser with three outcomes (a value; a [SyntaxError]; a
    JSON document whose value [jval] cannot hold, such as a number), the
    law that parsing what was printed gives the value back, and that no
    value prints as the empty text.  [json_text] is an instance: a
    printer of JSON's syntax for null, booleans, strings, arrays and
    objects (escaping the quote and the backslash in strings), a
    recursive-descent parser with fuel for that syntax, with the
    round-trip law proved, and a recognizer of the whole JSON grammar
    that separates texts that are not JSON from JSON documents the parser
    does not read (numbers, whitespace, the other escapes). *)

From S2P Require Import Prelude.

Open Scope string_scope.
Open Scope list_scope.

(** ** Values *)

Inductive jval : Type :=
  | JNull
  | JBool (b : bool)
  | JStr (s : string)
  | JArr (vs : list jval)
  | JObj (kvs : list (string * jval)).

(** Induction with hypotheses for the elements of arrays and objects. *)
Section jval_ind.
Context (P : jval -> Prop) (Hnull : P JNull) (Hbool : forall b, P (JBool b))
  (Hstr : forall s, P (JStr s)) (Harr : forall vs, Forall P vs -> P (JArr vs))
  (Hobj : forall kvs, Forall (fun kv => P kv.2) kvs -> P (JObj kvs)).

Fixpoint jval_ind' (v : jval) : P v :=
  match v with
  | JNull => Hnull
  | JBool b => Hbool b
  | JStr s => Hstr s
  | JArr vs =>
      Harr vs ((fix go (vs : list jval) : Forall P vs :=
                  match vs with
                  | [] => Forall_nil_2 _
                  | w :: ws => Forall_cons_2 _ _ _ (jval_ind' w) (go ws)
                  end) vs)
  | JObj kvs =>
      Hobj kvs ((fix go (kvs : list (string * jval)) : Forall (fun kv => P kv.2) kvs :=
                   match kvs with
                   | [] => Forall_nil_2 _
                   | (k, w) :: rest => Forall_cons_2 _ (k, w) _ (jval_ind' w) (go rest)
                   end) kvs)
  end.
End jval_ind.

(** [data.field] on a parsed value: [JSON.parse] keeps the last of the
    properties that share a key. *)
Fixpoint jlookup (k : string) (kvs : list (string * jval)) : option jval :=
  match kvs with
  | [] => None
  | (k', w) :: rest =>
      match jlookup k rest with
      | Some v => Some v
      | None => if String.eqb k' k then Some w else None
      end
  end.

Definition jfield (k : string) (v : jval) : option jval :=
  match v with JObj kvs => jlookup k kvs | _ => None end.

(** ** The codec interface *)

(** What [JSON.parse] makes of a text: a value of [jval]; a
    [SyntaxError] (the text is not JSON); or a JSON document whose value
    [jval] does not represent (a number, for instance), for which the
    model says nothing. *)
Inductive Parsed : Type :=
  | ParsedValue (v : jval)
  | ParseError
  | ParsedUnrepresentable.

Class JsonCodec := {
  json_stringify : jval -> string;
  json_parse : string -> Parsed;
  json_parse_stringify : forall v, json_parse (json_stringify v) = ParsedValue v;
  json_stringify_nonempty : forall v, json_stringify v <> EmptyString
}.

(** ** A printer and a parser *)

Definition quote_char : ascii := "034"%char.
Definition backslash_char : ascii := "092"%char.

Fixpoint escape (s : string) : string :=
  match s with
  | EmptyString => EmptyString
  | String c r =>
      if Ascii.eqb c quote_char || Ascii.eqb c backslash_char
      then String backslash_char (String c (escape r))
      else String c (escape r)
  end.

Definition print_string (s : string) : string :=
  String quote_char (escape s +:+ String quote_char EmptyString).

(** [l.join(sep)]. *)
Fixpoint join (sep : string) (l : list string) : string :=
  match l with
  | [] => EmptyString
  | [x] => x
  | x :: rest => x +:+ sep +:+ join sep rest
  end.

Fixpoint print (v : jval) : string :=
  match v with
  | JNull => "null"
  | JBool true => "true"
  | JBool false => "false"
  | JStr s => print_string s
  | JArr vs => "[" +:+ join "," (map print vs) +:+ "]"
  | JObj kvs =>
      "{" +:+ join "," (map (fun kv => print_string kv.1 +:+ ":" +:+ print kv.2) kvs) +:+ "}"
  end.

(** The body of a string literal up to its closing quote. *)
Fixpoint parse_chars (s : string) : option (string * string) :=
  match s with
  | EmptyString => None
  | String c r =>
      if Ascii.eqb c quote_char then Some (EmptyString, r)
      else if Ascii.eqb c backslash_char then
        match r with
        | String c' r' =>
            if Ascii.eqb c' quote_char || Ascii.eqb c' backslash_char
            then '(body, rest) ← parse_chars r'; Some (String c' body, rest)
            else None
        | EmptyString => None
        end
      else '(body, rest) ← parse_chars r; Some (String c body, rest)
  end.

(** [expect w s]: [s] starts with [w]; the rest. *)
Fixpoint expect (w s : string) : option string :=
  match w, s with
  | EmptyString, _ => Some s
  | String c w', String c' s' => if Ascii.eqb c c' then expect w' s' else None
  | String _ _, EmptyString => None
  end.

Fixpoint parse_value (fuel : nat) (s : string) : option (jval * string) :=
  match fuel with
  | 0 => None
  | S fuel' =>
      match s with
      | String c r =>
          if Ascii.eqb c "n"%char then r' ← expect "ull" r; Some (JNull, r')
          else if Ascii.eqb c "t"%char then r' ← expect "rue" r; Some (JBool true, r')
          else if Ascii.eqb c "f"%char then r' ← expect "alse" r; Some (JBool false, r')
          else if Ascii.eqb c quote_char then '(body, r') ← parse_chars r; Some (JStr body, r')
          else if Ascii.eqb c "["%char then
            match r with
            | String c' r' =>
                if Ascii.eqb c' "]"%char then Some (JArr [], r')
                else '(vs, r'') ← parse_elems fuel' r; Some (JArr vs, r'')
            | EmptyString => None
            end
          else if Ascii.eqb c "{"%char then
            match r with
            | String c' r' =>
                if Ascii.eqb c' "}"%char then Some (JObj [], r')
                else '(kvs, r'') ← parse_members fuel' r; Some (JObj kvs, r'')
            | EmptyString => None
            end
          else None
      | EmptyString => None
      end
  end
with parse_elems (fuel : nat) (s : string) : option (list jval * string) :=
  match fuel with
  | 0 => None
  | S fuel' =>
      '(v, r) ← parse_value fuel' s;
      match r with
      | String c r' =>
          if Ascii.eqb c ","%char then '(vs, r'') ← parse_elems fuel' r'; Some (v :: vs, r'')
          else if Ascii.eqb c "]"%char then Some ([v], r')
          else None
      | EmptyString => None
      end
  end
with parse_members (fuel : nat) (s : string) : option (list (string * jval) * string) :=
  match fuel with
  | 0 => None
  | S fuel' =>
      match s with
      | String c r =>
          if Ascii.eqb c quote_char then
            '(k, r1) ← parse_chars r;
            r2 ← expect ":" r1;
            '(v, r3) ← parse_value fuel' r2;
            match r3 with
            | String c' r4 =>
                if Ascii.eqb c' ","%char then '(kvs, r5) ← parse_members fuel' r4; Some ((k, v) :: kvs, r5)
                else if Ascii.eqb c' "}"%char then Some ([(k, v)], r4)
                else None
            | EmptyString => None
            end
          else None
      | EmptyString => None
      end
  end.

(** A whole document: one value and nothing after it.  The fuel is one
    more than the length of the text. *)
Definition parse (s : string) : option jval :=
  match parse_value (S (String.length s)) s with
  | Some (v, EmptyString) => Some v
  | _ => None
  end.

(** ** Which texts are JSON

    A recognizer of the JSON grammar (RFC 8259): whitespace around
    tokens, numbers, and in strings the backslash escapes of the quote, the
    backslash, the slash, [b f n r t], and [u] with four hex digits.  It tells a text [JSON.parse] rejects from a JSON document
    the parser above does not read back into a [jval]. *)

Definition is_ws (c : ascii) : bool :=
  Ascii.eqb c " "%char || Ascii.eqb c "009"%char || Ascii.eqb c "010"%char || Ascii.eqb c "013"%char.

Definition is_digit (c : ascii) : bool :=
  let n := nat_of_ascii c in (48 <=? n)%nat && (n <=? 57)%nat.

Definition is_hex (c : ascii) : bool :=
  let n := nat_of_ascii c in
  is_digit c || ((65 <=? n)%nat && (n <=? 70)%nat) || ((97 <=? n)%nat && (n <=? 102)%nat).

Fixpoint skip_ws (s : string) : string :=
  match s with
  | String c r => if is_ws c then skip_ws r else s
  | EmptyString => s
  end.

Fixpoint scan_digits (s : string) : string :=
  match s with
  | String c r => if is_digit c then scan_digits r else s
  | EmptyString => s
  end.

Definition scan_digits1 (s : string) : option string :=
  match s with
  | String c r => if is_digit c then Some (scan_digits r) else None
  | EmptyString => None
  end.

(** [-? (0 | [1-9][0-9]* ) (. [0-9]+)? ([eE] [+-]? [0-9]+)?] *)
Definition scan_number (s : string) : option string :=
  let s1 := match s with String c r => if Ascii.eqb c "-"%char then r else s | EmptyString => s end in
  r1 ← match s1 with
       | String c r => if Ascii.eqb c "0"%char then Some r else if is_digit c then Some (scan_digits r) else None
       | EmptyString => None
       end;
  r2 ← match r1 with
       | String c r => if Ascii.eqb c "."%char then scan_digits1 r else Some r1
       | EmptyString => Some r1
       end;
  match r2 with
  | String c r =>
      if Ascii.eqb c "e"%char || Ascii.eqb c "E"%char then
        match r with
        | String c' r' => if Ascii.eqb c' "+"%char || Ascii.eqb c' "-"%char then scan_digits1 r' else scan_digits1 r
        | EmptyString => None
        end
      else Some r2
  | EmptyString => Some r2
  end.

(** The body of a string literal through its closing quote. *)
Fixpoint scan_chars (s : string) : option string :=
  match s with
  | EmptyString => None
  | String c r =>
      if Ascii.eqb c quote_char then Some r
      else if Ascii.eqb c backslash_char then
        match r with
        | String e r' =>
            if Ascii.eqb e "u"%char then
              match r' with
              | String a (String b (String c1 (String d r''))) =>
                  if is_hex a && is_hex b && is_hex c1 && is_hex d then scan_chars r'' else None
              | _ => None
              end
            else if existsb (Ascii.eqb e) ["034"%char; "092"%char; "/"%char; "b"%char; "f"%char;
                                          "n"%char; "r"%char; "t"%char]
            then scan_chars r'
            else None
        | EmptyString => None
        end
      else if (nat_of_ascii c <? 32)%nat then None
      else scan_chars r
  end.

Fixpoint scan_value (fuel : nat) (s : string) : option string :=
  match fuel with
  | 0 => None
  | S f =>
      match s with
      | String c r =>
          if Ascii.eqb c "n"%char then expect "ull" r
          else if Ascii.eqb c "t"%char then expect "rue" r
          else if Ascii.eqb c "f"%char then expect "alse" r
          else if Ascii.eqb c quote_char then scan_chars r
          else if Ascii.eqb c "["%char then
            match skip_ws r with
            | String c' r' => if Ascii.eqb c' "]"%char then Some r' else scan_elems f (skip_ws r)
            | EmptyString => None
            end
          else if Ascii.eqb c "{"%char then
            match skip_ws r with
            | String c' r' => if Ascii.eqb c' "}"%char then Some r' else scan_members f (skip_ws r)
            | EmptyString => None
            end
          else scan_number s
      | EmptyString => None
      end
  end
with scan_elems (fuel : nat) (s : string) : option string :=
  match fuel with
  | 0 => None
  | S f =>
      r ← scan_value f s;
      match skip_ws r with
      | String c r' =>
          if Ascii.eqb c ","%char then scan_elems f (skip_ws r')
          else if Ascii.eqb c "]"%char then Some r'
          else None
      | EmptyString => None
      end
  end
with scan_members (fuel : nat) (s : string) : option string :=
  match fuel with
  | 0 => None
  | S f =>
      match s with
      | String c r =>
          if Ascii.eqb c quote_char then
            r1 ← scan_chars r;
            match skip_ws r1 with
            | String c1 r2 =>
                if Ascii.eqb c1 ":"%char then
                  r3 ← scan_value f (skip_ws r2);
                  match skip_ws r3 with
                  | String c2 r4 =>
                      if Ascii.eqb c2 ","%char then scan_members f (skip_ws r4)
                      else if Ascii.eqb c2 "}"%char then Some r4
                      else None
                  | EmptyString => None
                  end
                else None
            | EmptyString => None
            end
          else None
      | EmptyString => None
      end
  end.

(** A JSON text: one value with whitespace around it.  Every two calls
    of the scanner consume at least one character, so twice the length
    plus one is enough fuel. *)
Definition json_valid (s : string) : bool :=
  match scan_value (S (2 * String.length s)) (skip_ws s) with
  | Some r => match skip_ws r with EmptyString => true | String _ _ => false end
  | None => false
  end.

(** [JSON.parse] as [json_text] has it. *)
Definition parse_text (s : string) : Parsed :=
  match parse s with
  | Some v => ParsedValue v
  | None => if json_valid s then ParsedUnrepresentable else ParseError
  end.

(** ** The round trip *)

Lemma parse_chars_escape s rest :
  parse_chars (escape s +:+ String quote_char rest) = Some (s, rest).
Proof.
  induction s as [|c s IH]; [done|]. simpl escape.
  destruct (Ascii.eqb c quote_char || Ascii.eqb c backslash_char) eqn:Hc.
  - rewrite !str_app_cons. simpl. rewrite Hc, IH. done.
  - rewrite str_app_cons. apply orb_false_iff in Hc as [Hq Hb]. simpl. rewrite Hq, Hb, IH. done.
Qed.

Lemma print_string_app s rest :
  print_string s +:+ rest = String quote_char (escape s +:+ String quote_char rest).
Proof. unfold print_string. rewrite str_app_cons, <-str_app_assoc. done. Qed.

Lemma expect_app w rest : expect w (w +:+ rest) = Some rest.
Proof. induction w as [|c w IH]; [done|]. rewrite str_app_cons. simpl. by rewrite Ascii.eqb_refl. Qed.

(** Every printed value starts with a character that is not a closing
    bracket or brace. *)
Lemma print_head v :
  exists c r, print v = String c r /\ Ascii.eqb c "]"%char = false /\ Ascii.eqb c "}"%char = false.
Proof.
  destruct v as [|[]| | |]; simpl; eauto.
Qed.

Fixpoint jsize (v : jval) : nat :=
  match v with
  | JArr vs => S (sum_list_with (fun w => S (jsize w)) vs)
  | JObj kvs => S (sum_list_with (fun kv => S (jsize kv.2)) kvs)
  | _ => 1
  end.

Definition roundtrips (v : jval) : Prop :=
  forall fuel rest, jsize v <= fuel -> parse_value fuel (print v +:+ rest) = Some (v, rest).

Definition print_member (kv : string * jval) : string := print_string kv.1 +:+ ":" +:+ print kv.2.

Lemma join_cons2 sep x y l : join sep (x :: y :: l) = x +:+ sep +:+ join sep (y :: l).
Proof. reflexivity. Qed.

Lemma parse_elems_print vs :
  Forall roundtrips vs -> vs <> [] ->
  forall fuel rest, sum_list_with (fun w => S (jsize w)) vs <= fuel ->
  parse_elems fuel (join "," (map print vs) +:+ "]" +:+ rest) = Some (vs, rest).
Proof.
  induction 1 as [|w ws Hw Hws IH]; [done|]. intros _ fuel rest Hf.
  destruct fuel as [|fuel]; [simpl in Hf; lia|]. simpl in Hf.
  destruct ws as [|w2 ws].
  - cbn [map join parse_elems]. rewrite (Hw fuel ("]" +:+ rest)) by lia. done.
  - change (join "," (map print (w :: w2 :: ws)))
      with (print w +:+ "," +:+ join "," (map print (w2 :: ws))).
    rewrite <-!str_app_assoc.
    remember (join "," (map print (w2 :: ws)) +:+ "]" +:+ rest) as J eqn:HJ.
    cbn [parse_elems].
    rewrite (Hw fuel) by lia. rewrite str_app_cons, str_app_nil_l. simpl.
    rewrite HJ, IH by (done || (simpl in *; lia)). done.
Qed.

Lemma parse_member_head k v fuel T :
  roundtrips v -> jsize v <= fuel ->
  parse_members (S fuel) (print_member (k, v) +:+ T) =
    match T with
    | String c' r4 =>
        if Ascii.eqb c' ","%char then '(kvs, r5) ← parse_members fuel r4; Some ((k, v) :: kvs, r5)
        else if Ascii.eqb c' "}"%char then Some ([(k, v)], r4)
        else None
    | EmptyString => None
    end.
Proof.
  intros Hv Hf. unfold print_member. simpl fst; simpl snd.
  rewrite <-!str_app_assoc, print_string_app. cbn [parse_members].
  rewrite (proj2 (Ascii.eqb_eq _ _) eq_refl), parse_chars_escape. simpl.
  rewrite str_app_nil_l, (Hv fuel) by done. simpl. by destruct T.
Qed.

Lemma parse_members_print kvs :
  Forall (fun kv => roundtrips kv.2) kvs -> kvs <> [] ->
  forall fuel rest, sum_list_with (fun kv => S (jsize kv.2)) kvs <= fuel ->
  parse_members fuel (join "," (map print_member kvs) +:+ "}" +:+ rest) = Some (kvs, rest).
Proof.
  induction 1 as [|[k w] ws Hw Hws IH]; [done|]. intros _ fuel rest Hf.
  destruct fuel as [|fuel]; [simpl in Hf; lia|]. simpl in Hf.
  destruct ws as [|w2 ws].
  - cbn [map join]. rewrite parse_member_head by (done || lia). done.
  - change (join "," (map print_member ((k, w) :: w2 :: ws)))
      with (print_member (k, w) +:+ "," +:+ join "," (map print_member (w2 :: ws))).
    rewrite <-!str_app_assoc.
    remember (join "," (map print_member (w2 :: ws)) +:+ "}" +:+ rest) as J eqn:HJ.
    rewrite parse_member_head by (done || lia). simpl.
    rewrite HJ, str_app_nil_l, IH by (done || (simpl in *; lia)). done.
Qed.

Lemma join_head sep x l X c r :
  x = String c r -> exists r', join sep (x :: l) +:+ X = String c r'.
Proof.
  intros ->. destruct l as [|y l]; cbn [join]; rewrite !str_app_cons; eauto.
Qed.

Lemma print_roundtrips v : roundtrips v.
Proof.
  induction v as [| [] | s | vs IH | kvs IH] using jval_ind';
    intros [|fuel] rest Hf; simpl in Hf; try lia; cbn [print].
  1-3: rewrite !str_app_cons, str_app_nil_l; done.
  - rewrite print_string_app. simpl. by rewrite parse_chars_escape.
  - rewrite <-!str_app_assoc, str_app_cons.
    destruct vs as [|w ws].
    + cbn [map join]. rewrite str_app_nil_l, str_app_cons, str_app_nil_l. done.
    + destruct (print_head w) as (c & r & Hw & Hc & _).
      remember (join "," (map print (w :: ws)) +:+ "]" +:+ rest) as R eqn:HR.
      destruct (join_head "," (print w) (map print ws) ("]" +:+ rest) c r Hw) as [r' Hr'].
      change (map print (w :: ws)) with (print w :: map print ws) in HR.
      rewrite Hr' in HR. subst R. simpl. rewrite Hc, <-Hr'.
      change (print w :: map print ws) with (map print (w :: ws)).
      rewrite str_app_nil_l, parse_elems_print by (done || lia).
      done.
  - change (map (fun kv => print_string kv.1 +:+ ":" +:+ print kv.2) kvs)
      with (map print_member kvs).
    rewrite <-!str_app_assoc, str_app_cons.
    destruct kvs as [|[k w] kvs].
    + cbn [map join]. rewrite str_app_nil_l, str_app_cons, str_app_nil_l. done.
    + remember (join "," (map print_member ((k, w) :: kvs)) +:+ "}" +:+ rest) as R eqn:HR.
      destruct (join_head "," (print_member (k, w)) (map print_member kvs) ("}" +:+ rest)
                  quote_char (escape k +:+ String quote_char (":" +:+ print w)))
        as [r' Hr'].
      { unfold print_member. simpl fst; simpl snd. by rewrite print_string_app. }
      change (map print_member ((k, w) :: kvs))
        with (print_member (k, w) :: map print_member kvs) in HR.
      rewrite Hr' in HR. subst R. simpl. rewrite <-Hr'.
      change (print_member (k, w) :: map print_member kvs) with (map print_member ((k, w) :: kvs)).
      rewrite str_app_nil_l, parse_members_print by (done || lia).
      done.
Qed.

Lemma join_length_bound {A} (f : A -> nat) (pr : A -> string) (l : list A) :
  Forall (fun a => f a <= String.length (pr a)) l ->
  sum_list_with (fun a => S (f a)) l <= S (String.length (join "," (map pr l))).
Proof.
  induction 1 as [|a [|b l] Ha Hl IH]; cbn [map join sum_list_with] in *; [lia|lia|].
  rewrite !str_length_app. simpl in *. lia.
Qed.

(** The fuel [parse] gives is enough: a value's size is at most the
    length of its text. *)
Lemma jsize_print v : jsize v <= String.length (print v).
Proof.
  induction v as [| [] | s | vs IH | kvs IH] using jval_ind'; cbn [print jsize];
    rewrite ?str_length_app; simpl; try lia.
  - pose proof (join_length_bound jsize print vs IH). lia.
  - assert (Forall (fun kv => jsize kv.2 <= String.length (print_member kv)) kvs).
    { eapply Forall_impl; [exact IH|]. intros [k w] Hw. unfold print_member.
      rewrite !str_length_app. simpl in *. lia. }
    pose proof (join_length_bound (fun kv => jsize kv.2) print_member kvs H).
    change (map (fun kv => print_string kv.1 +:+ ":" +:+ print kv.2) kvs)
      with (map print_member kvs). lia.
Qed.

Lemma parse_print v : parse (print v) = Some v.
Proof.
  unfold parse. pose proof (jsize_print v).
  pose proof (print_roundtrips v (S (String.length (print v))) EmptyString ltac:(lia)) as Hv.
  rewrite str_app_nil_r in Hv. by rewrite Hv.
Qed.

Lemma print_nonempty v : print v <> EmptyString.
Proof. destruct (print_head v) as (c & r & -> & _). discriminate. Qed.

Lemma parse_text_print v : parse_text (print v) = ParsedValue v.
Proof. unfold parse_text. by rewrite parse_print. Qed.

#[export] Instance json_text : JsonCodec :=
  {| json_stringify := print; json_parse := parse_text;
     json_parse_stringify := parse_text_print; json_stringify_nonempty := print_nonempty |}.
