(* ===== verification/Persist.v ===== *)
(** * Persistence: [saveToStorage], [loadFromStorage], [resetToDefault]

    Lines 193-257 of [backend.js].  [localStorage] is a finite map from
    keys to texts; the store writes one key.  The texts go through a
    [JsonCodec] (a [Context] of the section), so the theorems hold of any
    codec with the round-trip law; the witnesses use [json_text].

    [JSON.stringify] turns an instance object into a JSON object with the
    fields in the order the object literals give them, leaving out
    [baseUrl] when it is [undefined] ([encode_backend]).  [JSON.parse]
    gives back arbitrary JSON; [decode_backend] reads an entry back into
    the instance record when every field has the type the record holds.
    The code adopts entries of any shape: when an entry does not fit the
    record, [loadFromStorage] returns [None], and it does so as well for
    a text that is JSON but whose value [jval] cannot hold (a number, for
    instance); these are the cases the model does not cover (listed in
    the root file's header).  A text that is not JSON is caught, as in
    the code. *)

From S2P Require Import Prelude Js Backend Store Registry Json.

Open Scope string_scope.
Open Scope list_scope.

(** ** The store's values as JSON *)

Definition storage_key : string := "hajimi_backends".

(** [localStorage]. *)
Definition Storage := gmap string string.

(** [JSON.stringify] of one instance object. *)
Definition encode_backend (b : Backend) : jval :=
  JObj ([("id", JStr (id b)); ("name", JStr (name b))] ++
        match baseUrl b with Some u => [("baseUrl", JStr u)] | None => [] end ++
        [("password", JStr (password b));
         ("isActive", JBool (isActive b));
         ("isConnected", JBool (isConnected b));
         ("lastConnected", match lastConnected b with Some t => JStr t | None => JNull end);
         ("description", JStr (description b))]).

(** The persisted format: [{ backends, activeBackendId }]. *)
Definition persisted (bs : list Backend) (a : string) : jval :=
  JObj [("backends", JArr (encode_backend <$> bs)); ("activeBackendId", JStr a)].

(** The object [saveToStorage] builds (lines 195-198). *)
Definition encode_state (s : State) : jval := persisted (registry_objs s) (activeBackendId s).

Definition jstr (v : option jval) : option string :=
  match v with Some (JStr x) => Some x | _ => None end.

Definition jbool (v : option jval) : option bool :=
  match v with Some (JBool x) => Some x | _ => None end.

(** A parsed entry as an instance record, when it is one. *)
Definition decode_backend (v : jval) : option Backend :=
  match v with
  | JObj kvs =>
      i ← jstr (jlookup "id" kvs);
      n ← jstr (jlookup "name" kvs);
      u ← match jlookup "baseUrl" kvs with
          | None => Some None
          | Some (JStr u) => Some (Some u)
          | Some _ => None
          end;
      pw ← jstr (jlookup "password" kvs);
      act ← jbool (jlookup "isActive" kvs);
      con ← jbool (jlookup "isConnected" kvs);
      lc ← match jlookup "lastConnected" kvs with
           | Some JNull => Some None
           | Some (JStr t) => Some (Some t)
           | _ => None
           end;
      desc ← jstr (jlookup "description" kvs);
      Some (mkBackend i n u pw act con lc desc)
  | _ => None
  end.

(** [data.backends.some(b => b.id === 'local')] (line 211): reading [id]
    of [null] throws a [TypeError]; other values that are not objects
    have no [id]. *)
Fixpoint some_local (vs : list jval) : Res bool :=
  match vs with
  | [] => Ok false
  | JNull :: _ => Throw ExnType
  | JObj kvs :: rest =>
      match jlookup "id" kvs with
      | Some (JStr i) => if String.eqb i local_id then Ok true else some_local rest
      | _ => some_local rest
      end
  | _ :: rest => some_local rest
  end.

(** ** [backends.value = data.backends]: fresh objects for the parsed entries *)

Fixpoint alloc (h : gmap loc Backend) (n : loc) (bs : list Backend) :
    gmap loc Backend * list loc * loc :=
  match bs with
  | [] => (h, [], n)
  | b :: rest =>
      let '(h', ls, n') := alloc (<[n := b]> h) (n + 1)%N rest in (h', n :: ls, n')
  end.

Definition adopt (bs : list Backend) (s : State) : State :=
  let '(h, ls, n) := alloc (heap s) (next_loc s) bs in
  {| heap := h; backends := ls; activeBackendId := activeBackendId s; next_loc := n |}.

(** [activeBackendId.value = x] (line 229). *)
Definition set_activeBackendId (x : string) (s : State) : State :=
  {| heap := heap s; backends := backends s; activeBackendId := x; next_loc := next_loc s |}.

(** ** [loadFromStorage] (lines 203-236) *)

(** Lines 209-226.  [Throw] is the exception of [some]; [None], an entry
    the record cannot hold. *)
Definition load_backends (origin : string) (vs : list jval) (s : State) : option (Res State) :=
  match some_local vs with
  | Throw e => Some (Throw e)
  | Ok has =>
      bs ← mapM decode_backend vs;
      Some (Ok (adopt (if has then bs else local_instance origin false :: bs) s))
  end.

(** Lines 228-231: a truthy id is stored and then passed to
    [switchBackend]; a truthy value that is not a string is one the
    model cannot hold. *)
Definition load_active (v : option jval) (s : State) : option State :=
  match v with
  | None | Some JNull | Some (JBool false) => Some s
  | Some (JStr x) =>
      if js_truthy x then Some (fst (switchBackend x (set_activeBackendId x s))) else Some s
  | Some _ => None
  end.

(** Lines 207-231 on the parsed value [data]: [data.backends] of [null]
    throws; other values that are not objects have no fields.  An
    exception is caught by line 233 with the state as it was. *)
Definition load_data (origin : string) (data : jval) (s : State) : option State :=
  match data with
  | JNull => Some s
  | JObj kvs =>
      r ← match jlookup "backends" kvs with
          | Some (JArr vs) => load_backends origin vs s
          | _ => Some (Ok s)
          end;
      match r with
      | Throw _ => Some s
      | Ok s1 => load_active (jlookup "activeBackendId" kvs) s1
      end
  | _ => Some s
  end.

(** Lines 240-252: a fresh local instance, active, alone in the array. *)
Definition default_state (origin : string) (s : State) : State :=
  let l := next_loc s in
  {| heap := <[l := local_instance origin true]> (heap s);
     backends := [l];
     activeBackendId := local_id;
     next_loc := (l + 1)%N |}.

Section codec.
Context `{!JsonCodec}.

(** [saveToStorage] (lines 194-200). *)
Definition saveToStorage (s : State) (st : Storage) : Storage :=
  <[storage_key := json_stringify (encode_state s)]> st.

(** [loadFromStorage]: a missing or empty item and a text [JSON.parse]
    rejects (its [SyntaxError] is caught by line 233) leave the state as
    it was.  [None]: a JSON document whose value [jval] cannot hold. *)
Definition loadFromStorage (origin : string) (st : Storage) (s : State) : option State :=
  match st !! storage_key with
  | Some txt =>
      if js_truthy txt then
        match json_parse txt with
        | ParsedValue data => load_data origin data s
        | ParseError => Some s
        | ParsedUnrepresentable => None
        end
      else Some s
  | None => Some s
  end.

(** [resetToDefault] (lines 239-254): the state of lines 240-252, then
    [saveToStorage]. *)
Definition resetToDefault (origin : string) (s : State) (st : Storage) : State * Storage :=
  let s' := default_state origin s in (s', saveToStorage s' st).

(** The store's setup: the initial array, then [loadFromStorage()]
    (lines 6-20 and 257). *)
Definition useBackendStore (origin : string) (st : Storage) : option State :=
  loadFromStorage origin st (initial_state origin).
End codec.

(** ** Reading back what was written *)

Lemma decode_encode b : decode_backend (encode_backend b) = Some b.
Proof. destruct b as [i n [u|] pw act con [t|] desc]; reflexivity. Qed.

Lemma mapM_decode_encode bs : mapM decode_backend (encode_backend <$> bs) = Some bs.
Proof. apply mapM_fmap_Some, decode_encode. Qed.

Lemma encode_backend_id b :
  exists kvs, encode_backend b = JObj kvs /\ jlookup "id" kvs = Some (JStr (id b)).
Proof. destruct b as [i n [u|] pw act con [t|] desc]; eexists; split; reflexivity. Qed.

Lemma some_local_encode bs :
  some_local (encode_backend <$> bs) = Ok (bool_decide (local_id ∈ id <$> bs)).
Proof.
  induction bs as [|b bs IH]; [done|].
  destruct (encode_backend_id b) as (kvs & He & Hl).
  rewrite !fmap_cons, He. cbn [some_local]. rewrite Hl.
  destruct (String.eqb_spec (id b) local_id) as [E|E].
  - rewrite bool_decide_true; [done|]. rewrite E. constructor.
  - rewrite IH. f_equal. apply bool_decide_ext. rewrite elem_of_cons. naive_solver.
Qed.

(** ** Allocation of the adopted entries *)

Lemma alloc_spec h n bs h' ls n' :
  alloc h n bs = (h', ls, n') ->
  (n <= n')%N /\
  (forall l, (l < n)%N -> h' !! l = h !! l) /\
  (forall l, l ∈ ls -> (n <= l < n')%N) /\
  (forall l, l ∈ ls -> is_Some (h' !! l)) /\
  NoDup ls /\
  omap (fun l => h' !! l) ls = bs /\
  (forall l, is_Some (h' !! l) -> is_Some (h !! l) \/ (n <= l < n')%N).
Proof.
  revert h n h' ls n'. induction bs as [|b bs IH]; intros h n h' ls n' Ha.
  { injection Ha as <- <- <-. split_and!; intros; try done; try lia; try set_solver; by left. }
  simpl in Ha. destruct (alloc (<[n := b]> h) (n + 1)%N bs) as [[h1 ls1] n1] eqn:E.
  injection Ha as <- <- <-.
  destruct (IH _ _ _ _ _ E) as (Hle & Hold & Hin & Hal & Hnd & Hobjs & Hfr).
  assert (h1 !! n = Some b) as Hn by (rewrite Hold by lia; apply lookup_insert_eq).
  split_and!.
  - lia.
  - intros l Hl. rewrite Hold by lia. apply lookup_insert_ne. lia.
  - intros l [->|Hl]%elem_of_cons; [lia|]. apply Hin in Hl. lia.
  - intros l [->|Hl]%elem_of_cons; [by eexists | by apply Hal].
  - constructor; [|done]. intros Hl. apply Hin in Hl. lia.
  - simpl. rewrite Hn. simpl. f_equal. exact Hobjs.
  - intros l Hl. destruct (Hfr l Hl) as [Hs|Hs]; [|right; lia].
    apply lookup_insert_is_Some' in Hs as [->|Hs]; [right; lia | by left].
Qed.

Section adopt.
Context (bs : list Backend) (s : State).

Lemma adopt_objs : registry_objs (adopt bs s) = bs.
Proof.
  unfold adopt. destruct (alloc (heap s) (next_loc s) bs) as [[h ls] n] eqn:E.
  apply alloc_spec in E. apply E.
Qed.

Lemma adopt_active : activeBackendId (adopt bs s) = activeBackendId s.
Proof. unfold adopt. by destruct (alloc (heap s) (next_loc s) bs) as [[h ls] n]. Qed.

Lemma adopt_wf : wf s -> wf (adopt bs s).
Proof.
  intros Hwf. unfold adopt. destruct (alloc (heap s) (next_loc s) bs) as [[h ls] n] eqn:E.
  apply alloc_spec in E as (Hle & Hold & Hin & Hal & Hnd & Hobjs & Hfr).
  split; simpl; [done| |done].
  intros l Hl. destruct (Hfr l Hl) as [Hs|Hs]; [|lia].
  apply (wf_fresh _ Hwf) in Hs. lia.
Qed.
End adopt.

Lemma abs_set_activeBackendId x s :
  abs (set_activeBackendId x s) = ListRegistry.mkAState (registry_objs s) x.
Proof. reflexivity. Qed.

Lemma set_activeBackendId_wf x s : wf s -> wf (set_activeBackendId x s).
Proof. intros [Ha Hf Hnd]. by split. Qed.

(** What [loadFromStorage] adopts from a persisted list: the list, with
    the local instance put in front when none of its entries has the
    reserved id. *)
Definition repaired (origin : string) (bs : list Backend) : list Backend :=
  if bool_decide (local_id ∈ id <$> bs) then bs else local_instance origin false :: bs.

Lemma load_persisted origin bs a s :
  load_data origin (persisted bs a) s = load_active (Some (JStr a)) (adopt (repaired origin bs) s).
Proof.
  unfold load_data, persisted. cbn [jlookup String.eqb Ascii.eqb Bool.eqb]. simpl.
  unfold load_backends. rewrite some_local_encode, mapM_decode_encode. done.
Qed.

(** After a [switchBackend], the ids are those of the adopted list. *)
Lemma load_active_ids x s s' :
  wf s -> load_active (Some (JStr x)) s = Some s' -> registry_ids s' = registry_ids s.
Proof.
  intros Hwf. unfold load_active. destruct (js_truthy x); intros [= <-]; [|done].
  rewrite !registry_ids_objs.
  change (registry_objs (fst (switchBackend x (set_activeBackendId x s))))
    with (ListRegistry.objs (abs (fst (switchBackend x (set_activeBackendId x s))))).
  rewrite abs_switchBackend by (by apply set_activeBackendId_wf).
  by rewrite switch_ids.
Qed.

(** The local instance put in front by the repair is not flagged. *)
Lemma repaired_flagged origin bs :
  length (filter (fun b => isActive b = true) (repaired origin bs)) =
  length (filter (fun b => isActive b = true) bs).
Proof. unfold repaired. case_bool_decide; [done|]. rewrite filter_cons_False; [done|]. discriminate. Qed.

(** Entries that are neither [null] nor an object with the reserved id
    let [some] go on to the next one. *)
Lemma some_local_app pre rest :
  Forall (fun v => v <> JNull /\ forall kvs, v = JObj kvs -> jlookup "id" kvs <> Some (JStr local_id)) pre ->
  some_local (pre ++ rest) = some_local rest.
Proof.
  induction 1 as [|v pre [Hn Hid] _ IH]; [done|]. simpl.
  destruct v as [| | | |kvs]; try done.
  specialize (Hid kvs eq_refl).
  destruct (jlookup "id" kvs) as [[| | i | |]|]; try done.
  destruct (String.eqb_spec i local_id) as [->|_]; [done | exact IH].
Qed.

Section codec_lemmas.
Context `{!JsonCodec}.

Lemma load_stored origin st v s :
  st !! storage_key = Some (json_stringify v) -> loadFromStorage origin st s = load_data origin v s.
Proof.
  intros Hst. unfold loadFromStorage. rewrite Hst.
  rewrite js_truthy_nonempty by apply json_stringify_nonempty.
  by rewrite json_parse_stringify.
Qed.

Lemma load_saved origin s st s0 :
  loadFromStorage origin (saveToStorage s st) s0 = load_data origin (encode_state s) s0.
Proof. apply load_stored. apply lookup_insert_eq. Qed.
End codec_lemmas.

(** ** [resetToDefault]'s state *)

Lemma default_state_inv origin s : wf s -> registry_inv (default_state origin s).
Proof.
  intros Hwf. set (l := next_loc s).
  assert (find_backend (default_state origin s) local_id = Some l) as Hf.
  { unfold find_backend. simpl. rewrite decide_True; [done|].
    unfold has_id, id_at. by rewrite lookup_insert_eq. }
  assert (activeBackend (default_state origin s) = Some l) as Ha by exact Hf.
  split.
  - split; simpl.
    + intros l' ->%list_elem_of_singleton. rewrite lookup_insert_eq. by eexists.
    + intros l'. rewrite lookup_insert_is_Some'. intros [<-|Hl']; [unfold l; lia|].
      apply (wf_fresh _ Hwf) in Hl'. unfold l. lia.
    + apply NoDup_singleton.
  - exists l. split; [set_solver|]. unfold has_id, id_at. simpl. by rewrite lookup_insert_eq.
  - rewrite Ha. by eexists.
  - intros l' ->%list_elem_of_singleton _. exact Ha.
Qed.

Lemma default_state_objs origin s : registry_objs (default_state origin s) = [local_instance origin true].
Proof. unfold registry_objs. simpl. by rewrite lookup_insert_eq. Qed.

(** ** Properties of the persistence adapter *)

Section persistence.
Context `{!JsonCodec}.

(** C24: Save then load round trip.  When the saved registry satisfies
    the registry invariant and its active id is a non-empty string,
    [saveToStorage] followed by [loadFromStorage], from any well-formed
    state, yields the saved instances in the same order with the same
    fields and the same active id, except that the flags are those
    [switchBackend] sets for the saved active id: the loaded state is,
    read as a list, the saved state after [switchBackend]. *)
Theorem save_load_roundtrip origin s st s0 :
  registry_inv s -> activeBackendId s <> "" -> wf s0 ->
  exists s', loadFromStorage origin (saveToStorage s st) s0 = Some s' /\
             abs s' = abs (fst (switchBackend (activeBackendId s) s)).
Proof.
  intros Hinv Ha Hwf0. rewrite load_saved. unfold encode_state. rewrite load_persisted.
  assert (local_id ∈ id <$> registry_objs s) as Hloc.
  { rewrite <-registry_ids_objs, elem_of_registry_ids. apply Hinv. }
  unfold repaired. rewrite bool_decide_true by done.
  unfold load_active. rewrite (js_truthy_nonempty _ Ha). eexists; split; [done|].
  rewrite !abs_switchBackend by (apply Hinv || by apply set_activeBackendId_wf, adopt_wf).
  by rewrite abs_set_activeBackendId, adopt_objs.
Qed.

(** C25: Loading repairs a missing local instance without duplicating
    it.  For a stored document in the persisted format with instances
    [bs], the loaded registry's ids are those of [bs] when one of them is
    the reserved id, and the reserved id followed by them otherwise. *)
Theorem load_repairs_local origin bs a st s0 :
  st !! storage_key = Some (json_stringify (persisted bs a)) -> wf s0 ->
  exists s', loadFromStorage origin st s0 = Some s' /\
    registry_ids s' = if bool_decide (local_id ∈ id <$> bs) then id <$> bs
                      else local_id :: (id <$> bs).
Proof.
  intros Hst Hwf0. rewrite (load_stored _ _ _ _ Hst), load_persisted.
  destruct (load_active (Some (JStr a)) (adopt (repaired origin bs) s0)) as [s'|] eqn:E.
  2: { unfold load_active in E. by destruct (js_truthy a). }
  exists s'. split; [done|].
  rewrite (load_active_ids _ _ _ (adopt_wf _ _ Hwf0) E), registry_ids_objs, adopt_objs.
  unfold repaired. by case_bool_decide.
Qed.

(** C26: A persisted active id that names no instance is kept.  When
    the stored active id is a non-empty string that is neither the
    reserved id nor the id of a stored instance, the loaded state keeps
    it as [activeBackendId], so [activeBackend] resolves to nothing, and
    the instances keep the [isActive] flags they were stored with. *)
Theorem load_invalid_active_stale origin bs a st s0 :
  st !! storage_key = Some (json_stringify (persisted bs a)) -> wf s0 ->
  a <> "" -> a ∉ id <$> bs -> a <> local_id ->
  exists s', loadFromStorage origin st s0 = Some s' /\
    activeBackendId s' = a /\ activeBackend s' = None /\
    registry_objs s' = repaired origin bs.
Proof.
  intros Hst Hwf0 Ha Hbs Hloc. rewrite (load_stored _ _ _ _ Hst), load_persisted.
  set (s1 := set_activeBackendId a (adopt (repaired origin bs) s0)).
  assert (find_backend s1 a = None) as Hnone.
  { apply find_backend_None_ids. unfold s1.
    change (registry_ids (set_activeBackendId a ?x)) with (registry_ids x).
    rewrite registry_ids_objs, adopt_objs. unfold repaired.
    case_bool_decide; [done|]. rewrite fmap_cons, elem_of_cons. naive_solver. }
  unfold load_active. rewrite (js_truthy_nonempty _ Ha).
  fold s1. unfold switchBackend. rewrite Hnone. eexists; split_and!; [done..|].
  apply adopt_objs.
Qed.

(** C27: A stored text that [JSON.parse] rejects, or no stored text,
    leaves the in-memory registry as it was. *)
Theorem load_unparsable_keeps origin st s :
  (forall txt, st !! storage_key = Some txt -> json_parse txt = ParseError) ->
  loadFromStorage origin st s = Some s.
Proof.
  intros Hp. unfold loadFromStorage. destruct (st !! storage_key) as [txt|]; [|done].
  rewrite (Hp txt eq_refl). by destruct (js_truthy txt).
Qed.

(** C29: [resetToDefault] leaves the single local instance, active and
    disconnected, with [activeBackendId] the reserved id and the registry
    invariant holding, and writes that state to the storage key. *)
Theorem resetToDefault_spec origin s st :
  wf s ->
  registry_objs (fst (resetToDefault origin s st)) = [local_instance origin true] /\
  activeBackendId (fst (resetToDefault origin s st)) = local_id /\
  registry_inv (fst (resetToDefault origin s st)) /\
  snd (resetToDefault origin s st) !! storage_key =
    Some (json_stringify (encode_state (fst (resetToDefault origin s st)))).
Proof.
  intros Hwf. split_and!; simpl.
  - apply default_state_objs.
  - done.
  - by apply default_state_inv.
  - apply lookup_insert_eq.
Qed.
End persistence.

(** ** Concrete stored documents *)

Definition demo_stored_backends : list Backend := [new_backend 7 (demo_descriptor "B" "http://b")].

Definition demo_storage (v : jval) : Storage := {[storage_key := json_stringify v]}.

Definition demo_saved_state : State := run_ops demo_ops (initial_state "http://x").

Lemma demo_saved_state_inv : registry_inv demo_saved_state.
Proof.
  apply run_ops_preserves_inv; [repeat constructor | apply initial_state_inv].
Qed.

Lemma initial_state_wf origin : wf (initial_state origin).
Proof. apply initial_state_inv. Qed.

Lemma save_load_roundtrip_witness :
  registry_inv demo_saved_state /\ activeBackendId demo_saved_state <> "" /\
  wf (initial_state "http://x") /\
  exists s', loadFromStorage "http://x" (saveToStorage demo_saved_state ∅) (initial_state "http://x") = Some s' /\
             abs s' = abs (fst (switchBackend (activeBackendId demo_saved_state) demo_saved_state)).
Proof.
  assert (activeBackendId demo_saved_state <> "") as Ha by (vm_compute; discriminate).
  split_and!; [apply demo_saved_state_inv | exact Ha | apply initial_state_wf |].
  apply (save_load_roundtrip "http://x" demo_saved_state ∅ (initial_state "http://x")
           demo_saved_state_inv Ha (initial_state_wf _)).
Defined.

Lemma load_repairs_local_witness :
  demo_storage (persisted demo_stored_backends "backend_7") !! storage_key =
    Some (json_stringify (persisted demo_stored_backends "backend_7")) /\
  wf (initial_state "http://x") /\
  exists s', loadFromStorage "http://x" (demo_storage (persisted demo_stored_backends "backend_7"))
               (initial_state "http://x") = Some s' /\
    registry_ids s' = [local_id; "backend_7"].
Proof.
  assert (demo_storage (persisted demo_stored_backends "backend_7") !! storage_key =
    Some (json_stringify (persisted demo_stored_backends "backend_7"))) as Hst
    by apply lookup_singleton_eq.
  split_and!; [exact Hst | apply initial_state_wf |].
  apply (load_repairs_local "http://x" demo_stored_backends "backend_7" _ _ Hst (initial_state_wf _)).
Defined.

Lemma load_invalid_active_stale_witness :
  demo_storage (persisted demo_stored_backends "backend_9") !! storage_key =
    Some (json_stringify (persisted demo_stored_backends "backend_9")) /\
  wf (initial_state "http://x") /\ "backend_9" <> "" /\
  "backend_9" ∉ (id <$> demo_stored_backends) /\ "backend_9" <> local_id /\
  exists s', loadFromStorage "http://x" (demo_storage (persisted demo_stored_backends "backend_9"))
               (initial_state "http://x") = Some s' /\
    activeBackendId s' = "backend_9" /\ activeBackend s' = None /\
    registry_objs s' = repaired "http://x" demo_stored_backends.
Proof.
  assert (demo_storage (persisted demo_stored_backends "backend_9") !! storage_key =
    Some (json_stringify (persisted demo_stored_backends "backend_9"))) as Hst
    by apply lookup_singleton_eq.
  assert ("backend_9" ∉ (id <$> demo_stored_backends)) as Hn
    by (simpl; rewrite list_elem_of_singleton; discriminate).
  split_and!; [exact Hst | apply initial_state_wf | discriminate | exact Hn | discriminate |].
  apply (load_invalid_active_stale "http://x" demo_stored_backends "backend_9" _ _ Hst
           (initial_state_wf _) ltac:(discriminate) Hn ltac:(discriminate)).
Defined.

Definition demo_garbled_storage : Storage := {[storage_key := "{oops"]}.

Lemma load_unparsable_keeps_witness :
  (forall txt, demo_garbled_storage !! storage_key = Some txt -> json_parse txt = ParseError) /\
  loadFromStorage "http://x" demo_garbled_storage (initial_state "http://x") =
    Some (initial_state "http://x").
Proof.
  assert (forall txt, demo_garbled_storage !! storage_key = Some txt ->
            json_parse txt = ParseError) as Hp.
  { intros txt Ht. vm_compute in Ht. injection Ht as <-. vm_compute. reflexivity. }
  split; [exact Hp | apply (load_unparsable_keeps "http://x" _ _ Hp)].
Defined.

Lemma resetToDefault_spec_witness :
  wf demo_saved_state /\
  registry_objs (fst (resetToDefault "http://x" demo_saved_state ∅)) = [local_instance "http://x" true].
Proof.
  assert (wf demo_saved_state) as Hwf by apply demo_saved_state_inv.
  split; [exact Hwf | apply (resetToDefault_spec "http://x" demo_saved_state ∅ Hwf)].
Defined.

(** A stored list with two instances flagged active and no active id. *)
Definition two_active_bs : list Backend :=
  [local_instance "http://x" true; set_isActive true (new_backend 7 (demo_descriptor "B" "http://b"))].

Definition two_active_doc : jval := JObj [("backends", JArr (encode_backend <$> two_active_bs))].

Section stored_documents.
Context `{!JsonCodec}.

(** C28: Loading adopts the stored [isActive] flags as they are.  For
    any stored document holding a list of instances and no active id,
    [loadFromStorage] replaces the array by the (repaired) stored list,
    keeps [activeBackendId], and the number of instances flagged
    [isActive] is the number flagged in the document: the load does not
    restore the one-active invariant, and with two flagged entries the
    registry invariant fails. *)
Theorem load_keeps_two_active origin bs st s0 :
  st !! storage_key = Some (json_stringify (JObj [("backends", JArr (encode_backend <$> bs))])) ->
  wf s0 ->
  exists s', loadFromStorage origin st s0 = Some s' /\
    registry_objs s' = repaired origin bs /\ activeBackendId s' = activeBackendId s0 /\
    active_count s' = length (filter (fun b => isActive b = true) bs) /\
    (2 <= active_count s' -> ~ registry_inv s').
Proof.
  intros Hst Hwf0. rewrite (load_stored _ _ _ _ Hst).
  assert (load_data origin (JObj [("backends", JArr (encode_backend <$> bs))]) s0 =
            Some (adopt (repaired origin bs) s0)) as ->.
  { unfold load_data. cbn [jlookup String.eqb Ascii.eqb Bool.eqb]. simpl.
    unfold load_backends. rewrite some_local_encode, mapM_decode_encode. done. }
  eexists; split; [done|].
  pose proof (adopt_wf (repaired origin bs) s0 Hwf0) as Hwf.
  split; [apply adopt_objs|]. split; [apply adopt_active|].
  assert (active_count (adopt (repaired origin bs) s0) = length (filter (fun b => isActive b = true) bs))
    as Hc by (by rewrite (active_count_objs _ Hwf), adopt_objs, repaired_flagged).
  split; [done|]. intros H2 Hinv%registry_inv_at_most_one. lia.
Qed.

(** C30: A [null] entry ahead of any local instance makes
    [data.backends.some(b => b.id === 'local')] throw a [TypeError];
    the [catch] swallows it and the state stays as it was, whatever
    else the document holds (its active id included). *)
Theorem load_null_entry_keeps origin kvs pre post st s0 :
  st !! storage_key = Some (json_stringify (JObj kvs)) ->
  jlookup "backends" kvs = Some (JArr (pre ++ JNull :: post)) ->
  Forall (fun v => v <> JNull /\ forall kvs', v = JObj kvs' -> jlookup "id" kvs' <> Some (JStr local_id)) pre ->
  loadFromStorage origin st s0 = Some s0.
Proof.
  intros Hst Hb Hpre. rewrite (load_stored _ _ _ _ Hst). unfold load_data. rewrite Hb.
  unfold load_backends. by rewrite some_local_app.
Qed.
End stored_documents.

Lemma load_keeps_two_active_witness :
  demo_storage two_active_doc !! storage_key =
    Some (json_stringify (JObj [("backends", JArr (encode_backend <$> two_active_bs))])) /\
  wf (initial_state "http://x") /\
  exists s', useBackendStore "http://x" (demo_storage two_active_doc) = Some s' /\
    active_count s' = 2 /\ ~ registry_inv s'.
Proof.
  assert (demo_storage two_active_doc !! storage_key =
    Some (json_stringify (JObj [("backends", JArr (encode_backend <$> two_active_bs))]))) as Hst
    by apply lookup_singleton_eq.
  split; [exact Hst|]. split; [apply initial_state_wf|].
  destruct (load_keeps_two_active "http://x" two_active_bs _ (initial_state "http://x") Hst
              (initial_state_wf "http://x"))
    as (s' & Hl & _ & _ & Hc & Hn).
  exists s'. rewrite Hc in Hn. split; [exact Hl|]. split; [exact Hc | apply Hn; vm_compute; lia].
Defined.

(** A stored list whose first entry is [null]. *)
Definition null_entry_kvs : list (string * jval) :=
  [("backends", JArr [JNull; encode_backend (local_instance "http://x" true)]);
   ("activeBackendId", JStr "local")].

Lemma load_null_entry_keeps_witness :
  demo_storage (JObj null_entry_kvs) !! storage_key = Some (json_stringify (JObj null_entry_kvs)) /\
  jlookup "backends" null_entry_kvs = Some (JArr ([] ++ JNull :: [encode_backend (local_instance "http://x" true)])) /\
  useBackendStore "http://x" (demo_storage (JObj null_entry_kvs)) = Some (initial_state "http://x").
Proof.
  assert (demo_storage (JObj null_entry_kvs) !! storage_key = Some (json_stringify (JObj null_entry_kvs)))
    as Hst by apply lookup_singleton_eq.
  assert (jlookup "backends" null_entry_kvs =
            Some (JArr ([] ++ JNull :: [encode_backend (local_instance "http://x" true)]))) as Hb
    by reflexivity.
  split; [exact Hst|]. split; [exact Hb|].
  exact (load_null_entry_keeps "http://x" _ [] _ _ (initial_state "http://x") Hst Hb ltac:(constructor)).
Defined.
