(* ===== verification/Api.v ===== *)
(** * The store object

    [useBackendStore] returns one object (lines 259-276 of [backend.js])
    through which the views read the state and call the operations.  A
    call of one of its members is a [Call]; [call] runs it on the store's
    state and on [localStorage] ([World]) and gives what the member
    returns ([Reply]), an exception thrown by the member included.  The
    refs and computed values ([backends], [activeBackendId],
    [activeBackend], [connectedBackendsCount]) are read through calls of
    their own.  An async member is called with the outcome of its
    [fetch] and with what runs while it waits ([testAllConnections]: the
    schedule of its settle events; [apiRequest]: the registry operations
    in between). *)

From S2P Require Import Prelude Js Backend Store Registry Probe Proxy Json Persist.

Open Scope string_scope.
Open Scope list_scope.

(** The members of the returned object, with their arguments. *)
Inductive Call : Type :=
  | CallBackends
  | CallActiveBackendId
  | CallActiveBackend
  | CallConnectedCount
  | CallAdd (now : N) (d : Descriptor)
  | CallRemove (i : string)
  | CallUpdate (i : string) (p : Patch)
  | CallSwitch (i : string)
  | CallTest (i : string) (o : FetchOutcome) (stamp : string)
  | CallTestAll (outs : list (FetchOutcome * string)) (sched : list ProbeEvent)
  | CallBuildUrl (endpoint : string)
  | CallAuthHeaders
  | CallRequest (endpoint : string) (opts : Options) (during : list RegOp)
      (o : FetchOutcome) (stamp : string)
  | CallSave
  | CallLoad
  | CallReset.

(** What a member returns, or the exception it throws.  [RTagged None]
    is a promise of [testAllConnections] still pending. *)
Inductive Reply : Type :=
  | RBackends (bs : list Backend)
  | RString (x : string)
  | RBackend (b : option Backend)
  | RNat (n : nat)
  | RLoc (l : loc)
  | RUnit
  | RBool (b : bool)
  | RProbe (r : ProbeResult)
  | RTagged (r : option (Res (list Tagged)))
  | RUrl (u : string)
  | RHeaders (h : jsobj)
  | RResponse (r : Response)
  | RThrown (e : Exn).

(** The store's state and [localStorage]. *)
Record World := mkWorld { w_state : State; w_storage : Storage }.

Section api.
Context `{!JsonCodec} (origin : string).

(** Lines 259-276: each member of the returned object.  [None] only when
    [loadFromStorage] meets a stored value the model cannot hold. *)
Definition call (c : Call) (w : World) : option (World * Reply) :=
  let s := w_state w in
  let st := w_storage w in
  match c with
  | CallBackends => Some (w, RBackends (registry_objs s))
  | CallActiveBackendId => Some (w, RString (activeBackendId s))
  | CallActiveBackend => Some (w, RBackend (activeBackend_obj s))
  | CallConnectedCount => Some (w, RNat (connectedBackendsCount s))
  | CallAdd now d => let '(s', l) := addBackend now d s in Some (mkWorld s' st, RLoc l)
  | CallRemove i =>
      match removeBackend i s with
      | Ok s' => Some (mkWorld s' st, RUnit)
      | Throw e => Some (w, RThrown e)
      end
  | CallUpdate i p => Some (mkWorld (updateBackend i p s) st, RUnit)
  | CallSwitch i => let '(s', b) := switchBackend i s in Some (mkWorld s' st, RBool b)
  | CallTest i o stamp =>
      match testBackendConnection i o stamp s with
      | Ok (s', r) => Some (mkWorld s' st, RProbe r)
      | Throw e => Some (w, RThrown e)
      end
  | CallTestAll outs sched =>
      let '(s', r) := testAllConnections outs sched s in Some (mkWorld s' st, RTagged r)
  | CallBuildUrl e =>
      Some (w, match buildApiUrl e s with Ok u => RUrl u | Throw x => RThrown x end)
  | CallAuthHeaders => Some (w, RHeaders (getAuthHeaders s))
  | CallRequest e opts during o stamp =>
      let '(s', r) := apiRequest e opts during o stamp s in
      Some (mkWorld s' st, match r with Ok resp => RResponse resp | Throw x => RThrown x end)
  | CallSave => Some (mkWorld s (saveToStorage s st), RUnit)
  | CallLoad => s' ← loadFromStorage origin st s; Some (mkWorld s' st, RUnit)
  | CallReset => let '(s', st') := resetToDefault origin s st in Some (mkWorld s' st', RUnit)
  end.

(** A view calling members one after the other. *)
Fixpoint run_calls (cs : list Call) (w : World) : option (World * list Reply) :=
  match cs with
  | [] => Some (w, [])
  | c :: cs' =>
      '(w1, r) ← call c w;
      '(w2, rs) ← run_calls cs' w1;
      Some (w2, r :: rs)
  end.
End api.

(** ** Every member keeps the heap well formed *)

Lemma probe_finish_wf l o stamp s : wf s -> wf (fst (probe_finish l o stamp s)).
Proof. rewrite probe_finish_split. apply with_heap_alter_wf. Qed.

Lemma testBackendConnection_wf i o stamp s s' r :
  wf s -> testBackendConnection i o stamp s = Ok (s', r) -> wf s'.
Proof.
  unfold testBackendConnection. destruct (probe_begin i s) as [lr|]; simpl; [|discriminate].
  intros Hwf [= Heq]. rewrite probe_finish_split in Heq. injection Heq as <- _.
  by apply with_heap_alter_wf.
Qed.

Lemma step_event_wf begins outs f e : wf (fl_state f) -> wf (fl_state (step_event begins outs f e)).
Proof.
  destruct e as [k|o]; simpl; [|apply apply_op_wf].
  destruct (begins !! k) as [[lr|]|], (outs !! k), (fl_settled f !! k) as [[]|];
    simpl; auto using probe_finish_wf.
Qed.

Lemma fold_step_event_wf begins outs f sched :
  wf (fl_state f) -> wf (fl_state (foldl (step_event begins outs) f sched)).
Proof.
  revert f. induction sched as [|e sched IH]; intros f Hf; [done|]. simpl.
  by apply IH, step_event_wf.
Qed.

Lemma testAllConnections_wf outs sched s : wf s -> wf (fst (testAllConnections outs sched s)).
Proof. intros Hwf. by apply fold_step_event_wf. Qed.

Lemma apiRequest_wf e opts during o stamp s :
  wf s -> wf (fst (apiRequest e opts during o stamp s)).
Proof.
  intros Hwf. unfold apiRequest. destruct (apiRequest_begin e opts s); [|done].
  rewrite apiRequest_finish_split. simpl.
  destruct (activeBackend (run_ops during s)); [apply with_heap_alter_wf|]; by apply run_ops_wf.
Qed.

Lemma load_active_wf v s s' : wf s -> load_active v s = Some s' -> wf s'.
Proof.
  intros Hwf. destruct v as [[| | x | |]|]; simpl; try (intros [= <-]; done); try discriminate.
  - destruct b; [discriminate | by intros [= <-]].
  - destruct (js_truthy x); intros [= <-]; [|done].
    apply (apply_op_wf (OpSwitch x)), set_activeBackendId_wf, Hwf.
Qed.

Lemma load_data_wf origin data s s' : wf s -> load_data origin data s = Some s' -> wf s'.
Proof.
  intros Hwf. destruct data as [| | | |kvs]; simpl; try (intros [= <-]; done).
  assert (forall r, match jlookup "backends" kvs with
                    | Some (JArr vs) => load_backends origin vs s
                    | _ => Some (Ok s)
                    end = Some r -> match r with Ok s1 => wf s1 | Throw _ => True end) as Hb.
  { intros r. destruct (jlookup "backends" kvs) as [[| | | vs |]|]; try (intros [= <-]; done).
    unfold load_backends. destruct (some_local vs) as [has|e]; [|by intros [= <-]].
    destruct (mapM decode_backend vs); simpl; [|discriminate].
    intros [= <-]. by apply adopt_wf. }
  destruct (match jlookup "backends" kvs with
            | Some (JArr vs) => load_backends origin vs s
            | _ => Some (Ok s)
            end) as [r|] eqn:E; simpl; [|discriminate].
  specialize (Hb r eq_refl). destruct r as [s1|]; [by apply load_active_wf | by intros [= <-]].
Qed.

Section api_wf.
Context `{!JsonCodec} (origin : string).

Lemma loadFromStorage_wf st s s' : wf s -> loadFromStorage origin st s = Some s' -> wf s'.
Proof.
  intros Hwf. unfold loadFromStorage.
  destruct (st !! storage_key) as [txt|]; [|by intros [= <-]].
  destruct (js_truthy txt); [|by intros [= <-]].
  destruct (json_parse txt) as [data| |]; [by apply load_data_wf | by intros [= <-] | discriminate].
Qed.

(** Every member keeps the heap model well formed: reads, the registry
    operations, both probes and [apiRequest] whatever runs while they
    wait, and [saveToStorage], [loadFromStorage] and [resetToDefault]. *)
Lemma call_preserves_wf c w w' r :
  wf (w_state w) -> call origin c w = Some (w', r) -> wf (w_state w').
Proof.
  intros Hwf. destruct c; unfold call; cbv zeta; try (intros [= <- _]; done).
  - pose proof (addBackend_wf now d _ Hwf) as Hw.
    revert Hw. destruct (addBackend now d (w_state w)). simpl. by intros Hw [= <- _].
  - pose proof (apply_op_wf (OpRemove i) _ Hwf) as Hw. simpl in Hw.
    revert Hw. destruct (removeBackend i (w_state w)); simpl; by intros Hw [= <- _].
  - intros [= <- _]. apply (apply_op_wf (OpUpdate i p) _ Hwf).
  - pose proof (apply_op_wf (OpSwitch i) _ Hwf) as Hw. simpl in Hw.
    revert Hw. destruct (switchBackend i (w_state w)). simpl. by intros Hw [= <- _].
  - destruct (testBackendConnection i o stamp (w_state w)) as [[s' pr]|] eqn:E;
      intros [= <- _]; [|done]. by eapply testBackendConnection_wf.
  - pose proof (testAllConnections_wf outs sched _ Hwf) as Hw.
    revert Hw. destruct (testAllConnections outs sched (w_state w)). simpl. by intros Hw [= <- _].
  - pose proof (apiRequest_wf endpoint opts during o stamp _ Hwf) as Hw.
    revert Hw. destruct (apiRequest endpoint opts during o stamp (w_state w)). simpl.
    by intros Hw [= <- _].
  - destruct (loadFromStorage origin (w_storage w) (w_state w)) as [s'|] eqn:E; simpl; [|discriminate].
    intros [= <- _]. by eapply loadFromStorage_wf.
  - intros [= <- _]. apply (inv_wf _ (default_state_inv origin _ Hwf)).
Qed.

Lemma run_calls_wf cs w w' rs :
  wf (w_state w) -> run_calls origin cs w = Some (w', rs) -> wf (w_state w').
Proof.
  revert w rs. induction cs as [|c cs IH]; intros w rs Hwf; simpl; [by intros [= <- _]|].
  destruct (call origin c w) as [[w1 r]|] eqn:E; simpl; [|discriminate].
  destruct (run_calls origin cs w1) as [[w2 rs']|] eqn:E2; simpl; [|discriminate].
  intros [= <- _]. apply (IH w1 rs'); [|done]. by eapply call_preserves_wf.
Qed.
End api_wf.
