(* ===== verification/Machine.v ===== *)
(** * The store as a state machine

    Every way the store's state changes, as one step relation: a registry
    operation ([addBackend], [removeBackend], [updateBackend] with a patch
    that names neither [id] nor [isActive], [switchBackend]), the
    continuation of a probe writing through a reference captured earlier
    (of any object, also one removed from the array meanwhile), the
    continuation of [apiRequest] writing to whichever instance is active
    when the response arrives, and [resetToDefault].  The async
    continuations are steps of their own, so a run of the machine is any
    interleaving of operations and completions.  [loadFromStorage] is not
    a step: it adopts whatever flags the storage holds (see
    [load_keeps_two_active]). *)

From S2P Require Import Prelude Js Backend Store Probe Proxy Json Persist.

Inductive step : State -> State -> Prop :=
  | StepOp o s : op_safe o = true -> step s (apply_op o s)
  | StepProbe l o stamp s : step s (fst (probe_finish l o stamp s))
  | StepRequest o stamp s : step s (fst (apiRequest_finish o stamp s))
  | StepReset origin s : step s (default_state origin s).

(** The states the store can be in after its setup with nothing stored. *)
Definition reachable (origin : string) (s : State) : Prop := rtc step (initial_state origin) s.

Lemma apiRequest_finish_equiv o stamp s : fst (apiRequest_finish o stamp s) ≃ s.
Proof.
  rewrite apiRequest_finish_split. simpl.
  destruct (activeBackend s); [|done]. apply with_heap_alter_equiv, probe_write_reg_key.
Qed.

Lemma step_preserves_inv s s' : step s s' -> registry_inv s -> registry_inv s'.
Proof.
  intros Hs Hinv. destruct Hs as [o s Ho|l o stamp s|o stamp s|origin s].
  - by apply apply_op_preserves_inv.
  - by rewrite probe_finish_equiv.
  - by rewrite apiRequest_finish_equiv.
  - apply default_state_inv, Hinv.
Qed.

Lemma rtc_step_preserves_inv s s' : rtc step s s' -> registry_inv s -> registry_inv s'.
Proof. induction 1; eauto using step_preserves_inv. Qed.

(** C33: In every state the store reaches from its setup, by any
    interleaving of registry operations (patches not naming [id] or
    [isActive]), probe and request completions and resets, the registry
    invariant holds and at most one instance is flagged [isActive]. *)
Theorem reachable_registry_inv origin s :
  reachable origin s -> registry_inv s /\ active_count s <= 1.
Proof.
  intros Hr. assert (registry_inv s) as Hinv.
  { apply (rtc_step_preserves_inv _ _ Hr), initial_state_inv. }
  split; [done | by apply registry_inv_at_most_one].
Qed.

(** A run: add an instance, switch to it, a probe of the local instance
    completes, then a request completes. *)
Definition demo_run : State :=
  let s1 := apply_op (OpAdd 5 (demo_descriptor "A" "http://a")) (initial_state "http://x") in
  let s2 := apply_op (OpSwitch "backend_5") s1 in
  let s3 := fst (probe_finish 0%N (Responded (mkResponse 200 "OK")) "t1" s2) in
  fst (apiRequest_finish (NetworkFailure "down") "t2" s3).

Lemma reachable_registry_inv_witness :
  reachable "http://x" demo_run /\ registry_inv demo_run /\ active_count demo_run <= 1.
Proof.
  assert (reachable "http://x" demo_run) as Hr.
  { unfold reachable, demo_run. cbv zeta.
    eapply rtc_r; [|apply StepRequest].
    eapply rtc_r; [|apply StepProbe].
    eapply rtc_r; [|apply StepOp; reflexivity].
    eapply rtc_r; [|apply StepOp; reflexivity].
    apply rtc_refl. }
  split; [exact Hr | apply (reachable_registry_inv "http://x" demo_run Hr)].
Defined.
