(* ===== verification/Router.v ===== *)
(** * The route table

    [src/page/src/router/index.js] hands vue-router a table of three
    routes: [/] to the dashboard view, [/backends] to the instance view,
    and a catch-all that redirects to [/].  The table is modelled as the
    code writes it ([routes]).  Path matching belongs to vue-router and is
    modelled at the level the table needs: a static path matches without
    regard to letter case and with one optional trailing slash (the
    router's defaults, [sensitive: false] and [strict: false]); the
    catch-all matches every path; static routes rank above the catch-all,
    which is the table's order here, so the first matching route wins.
    [resolve] follows redirects with fuel; one redirect is all the table
    can produce, so fuel 2 is enough for every path. *)

From S2P Require Import Prelude.

Open Scope string_scope.

Inductive Component : Type :=
  | DashboardView
  | BackendView.

#[export] Instance Component_eq_dec : EqDecision Component.
Proof. solve_decision. Defined.

Inductive RouteRecord : Type :=
  | Named (path name : string) (component : Component)
  | Redirect (path redirect : string).

Definition route_path (r : RouteRecord) : string :=
  match r with Named p _ _ => p | Redirect p _ => p end.

Definition catch_all : string := "/:pathMatch(.*)*".

(** Lines 7-23. *)
Definition routes : list RouteRecord :=
  [Named "/" "dashboard" DashboardView;
   Named "/backends" "backends" BackendView;
   Redirect catch_all "/"].

Definition lower_char (c : ascii) : ascii :=
  let n := nat_of_ascii c in
  if (65 <=? n)%nat && (n <=? 90)%nat then ascii_of_nat (n + 32)%nat else c.

Fixpoint lower (s : string) : string :=
  match s with
  | EmptyString => EmptyString
  | String c r => String (lower_char c) (lower r)
  end.

Definition path_matches (pat p : string) : bool :=
  String.eqb pat catch_all ||
  String.eqb (lower p) (lower pat) ||
  (negb (String.eqb pat "/") && String.eqb (lower p) (lower pat +:+ "/")).

Definition match_route (rs : list RouteRecord) (p : string) : option RouteRecord :=
  snd <$> list_find (fun r => path_matches (route_path r) p = true) rs.

(** The route a navigation to [p] ends on: its name and view. *)
Fixpoint resolve (fuel : nat) (p : string) : option (string * Component) :=
  match fuel with
  | 0 => None
  | S f =>
      match match_route routes p with
      | Some (Named _ n c) => Some (n, c)
      | Some (Redirect _ t) => resolve f t
      | None => None
      end
  end.

(** ** Matching *)

Lemma path_matches_static pat p :
  pat <> catch_all ->
  path_matches pat p = true <-> lower p = lower pat \/ (pat <> "/" /\ lower p = lower pat +:+ "/").
Proof.
  intros Hpat. unfold path_matches. rewrite (proj2 (String.eqb_neq _ _) Hpat). simpl.
  rewrite orb_true_iff, andb_true_iff, negb_true_iff, !String.eqb_eq, String.eqb_neq. done.
Qed.

Lemma resolve_two p :
  resolve 2 p =
    if decide (path_matches "/" p = true) then Some ("dashboard", DashboardView)
    else if decide (path_matches "/backends" p = true) then Some ("backends", BackendView)
    else Some ("dashboard", DashboardView).
Proof.
  cbn [resolve]. unfold match_route, routes. cbn [list_find].
  repeat case_decide; done.
Qed.

(** ** Properties *)

(** C31: Every path ends on a view: the dashboard or the instance view,
    the catch-all's redirect to [/] included (fuel 2 covers the one
    redirect). *)
Theorem resolve_total p :
  resolve 2 p = Some ("dashboard", DashboardView) \/ resolve 2 p = Some ("backends", BackendView).
Proof. rewrite resolve_two. repeat case_decide; auto. Qed.

(** C32: A path reaches the instance view exactly when it is [/backends]
    up to letter case, with at most one trailing slash; every other path
    shows the dashboard. *)
Theorem resolve_backends p :
  resolve 2 p = Some ("backends", BackendView) <-> lower p = "/backends" \/ lower p = "/backends/".
Proof.
  pose proof (path_matches_static "/" p ltac:(discriminate)) as Hroot.
  pose proof (path_matches_static "/backends" p ltac:(discriminate)) as Hb.
  change (lower "/backends") with "/backends" in Hb.
  change ("/backends" +:+ "/") with "/backends/" in Hb.
  rewrite resolve_two. case_decide as H1; [|case_decide as H2].
  - apply Hroot in H1 as [H1|[[] _]]; [|done]. change (lower "/") with "/" in H1.
    rewrite H1. split; [discriminate | intros [|]; discriminate].
  - apply Hb in H2. split; [intros _|done]. destruct H2 as [|[_ ?]]; auto.
  - split; [discriminate|]. intros Hp. exfalso. apply H2, Hb.
    destruct Hp; [by left | right; split; [discriminate | done]].
Qed.

(** The redirect target is a named route, so a redirect is followed at
    most once. *)
Lemma resolve_root f : resolve (S f) "/" = Some ("dashboard", DashboardView).
Proof. reflexivity. Qed.

(** C35: Resolution terminates: the table has no redirect cycle, so with
    any fuel of at least 2 every path resolves, and to the same route as
    with fuel 2. *)
Theorem resolve_terminates n p :
  2 <= n -> resolve n p = resolve 2 p /\ is_Some (resolve n p).
Proof.
  intros Hn. destruct n as [|[|n]]; [lia|lia|].
  assert (resolve (S (S n)) p = resolve 2 p) as Heq.
  { cbn [resolve]. unfold match_route, routes. cbn [list_find].
    repeat case_decide; simpl; rewrite ?resolve_root; done. }
  split; [exact Heq|]. rewrite Heq.
  destruct (resolve_total p) as [-> | ->]; by eexists.
Qed.

Lemma resolve_terminates_witness :
  2 <= 7 /\ resolve 7 "/nowhere" = resolve 2 "/nowhere" /\ is_Some (resolve 7 "/nowhere").
Proof.
  assert (2 <= 7) as Hn by lia.
  split; [exact Hn | apply (resolve_terminates 7 "/nowhere" Hn)].
Defined.
